(** * ZenKai: dungeon generation (procgen.py, tile_types.py)

    A shallow embedding of the room-and-corridor dungeon generator and of
    the tile records it writes, with the properties of its specification
    stated and proved over the embedding.

    Python integers are [Z].  An exception is a value of [PyError]; code
    that may raise returns a [result].  The process-wide [random] stream is
    an explicit generator handle threaded through every draw, in the order
    in which the source performs its draws. *)

From Stdlib Require Import ZArith Lia Bool List.
From stdpp Require Import base tactics option list.
Import ListNotations.

Local Open Scope Z_scope.

(** ** Exceptions and the two monads *)

Inductive PyError : Type :=
  | ValueError      (* random.randint on an empty range; negative array shape *)
  | IndexError      (* integer index outside a numpy array *)
  | OverflowError.  (* int / int too large for a float *)

Inductive result (A : Type) : Type :=
  | Ok (a : A)
  | Raise (e : PyError).
Arguments Ok {A} a.
Arguments Raise {A} e.

Definition rbind {A B} (r : result A) (k : A -> result B) : result B :=
  match r with
  | Ok a => k a
  | Raise e => Raise e
  end.

Notation "'let?' x := e 'in' k" := (rbind e (fun x => k))
  (at level 10, x pattern, e at level 100, k at level 200).

(** The random stream: an oracle giving the raw outcome of the n-th draw
    still to come.  A seed fixes the whole stream. *)
Definition Rng : Type := nat -> Z.

Definition rng_next (g : Rng) : Z * Rng := (g 0%nat, fun n => g (S n)).

(** Computations that draw random numbers and may raise. *)
Definition M (A : Type) : Type := Rng -> result (A * Rng).

Definition ret {A} (a : A) : M A := fun g => Ok (a, g).

Definition bind {A B} (m : M A) (k : A -> M B) : M B :=
  fun g => match m g with
           | Ok (a, g') => k a g'
           | Raise e => Raise e
           end.

Definition lift {A} (r : result A) : M A :=
  fun g => match r with
           | Ok a => Ok (a, g)
           | Raise e => Raise e
           end.

Notation "'let*' x := e 'in' k" := (bind e (fun x => k))
  (at level 10, x pattern, e at level 100, k at level 200).

(** ** The [random] module *)

(** [random.randint(a, b)]: an integer of [a..b], both ends included;
    [ValueError] when the range is empty.  The raw draw is reduced into the
    range, so every value of the range is the outcome of some stream. *)
Definition randint (a b : Z) : M Z :=
  fun g =>
    if b <? a then Raise ValueError
    else let (k, g') := rng_next g in Ok (a + k mod (b - a + 1), g').

(** [random.random()] returns a float [k / 2^53] with [0 <= k < 2^53]; it
    is kept as its numerator [k]. *)
Definition random : M Z :=
  fun g => let (k, g') := rng_next g in Ok (k mod 2 ^ 53, g').

(** The numerators of the doubles [0.5] and [0.8] over [2^53]. *)
Definition float_0_5 : Z := 2 ^ 52.
Definition float_0_8 : Z := 7205759403792794.

(** ** Python arithmetic: [int(a / 2)]

    [a / 2] on integers is true division: the quotient correctly rounded
    (to nearest, ties to even) to a double of 53 significant bits, with
    [OverflowError] beyond the range of doubles; [int] then truncates
    toward zero.  Up to 53 bits the quotient is exact. *)
Definition int_truediv2 (a : Z) : result Z :=
  let m := Z.abs a in
  let n := Z.log2 m + 1 in
  if n <=? 53 then Ok (Z.quot a 2)
  else
    let s := n - 53 in
    let q := Z.shiftr m s in
    let r := Z.land m (Z.ones s) in
    let half := Z.shiftl 1 (s - 1) in
    let q' := if (half <? r) || ((r =? half) && Z.odd q) then q + 1 else q in
    let v := q' * 2 ^ (s - 1) in
    if 2 ^ 1024 <=? v then Raise OverflowError else Ok (Z.sgn a * v).

(** ** tile_types.py *)

Definition RGB : Type := Z * Z * Z.

(** [graphic_dt] *)
Record Graphic : Type := mkGraphic {
  ch : Z;
  fg : RGB;
  bg : RGB
}.

(** [tile_dt] *)
Record Tile : Type := mkTile {
  walkable : bool;
  transparent : bool;
  dark : Graphic;
  light : Graphic
}.

Definition new_tile (walkable transparent : bool)
    (dark light : Z * RGB * RGB) : Tile :=
  let mk (g : Z * RGB * RGB) :=
    let '(c, f, b) := g in mkGraphic c f b in
  mkTile walkable transparent (mk dark) (mk light).

(** [ord(" ")] *)
Definition ord_space : Z := 32.

Definition SHROUD : Graphic := mkGraphic ord_space (255, 255, 255) (0, 0, 0).

Definition floor : Tile :=
  new_tile true true
    (ord_space, (255, 255, 255), (21, 31, 44))
    (ord_space, (255, 255, 255), (200, 180, 50)).

Definition wall : Tile :=
  new_tile false false
    (ord_space, (255, 255, 255), (1, 3, 12))
    (ord_space, (255, 255, 255), (130, 110, 50)).

(** ** RectangularRoom *)

Record RectangularRoom : Type := mkRoom {
  x1 : Z;
  y1 : Z;
  x2 : Z;
  y2 : Z
}.

(** [RectangularRoom.__init__] *)
Definition new_RectangularRoom (x y width height : Z) : RectangularRoom :=
  {| x1 := x; y1 := y; x2 := x + width; y2 := y + height |}.

(** [RectangularRoom.center] *)
Definition center (self : RectangularRoom) : result (Z * Z) :=
  let? center_x := int_truediv2 (x1 self + x2 self) in
  let? center_y := int_truediv2 (y1 self + y2 self) in
  Ok (center_x, center_y).

(** A Python [slice(start, stop)] with no step. *)
Record slice : Type := mkSlice {
  start : Z;
  stop : Z
}.

(** [RectangularRoom.inner] *)
Definition inner (self : RectangularRoom) : slice * slice :=
  (mkSlice (x1 self + 1) (x2 self), mkSlice (y1 self + 1) (y2 self)).

(** [RectangularRoom.intersects] *)
Definition intersects (self other : RectangularRoom) : bool :=
  (x1 self <=? x2 other)
  && (x2 self >=? x1 other)
  && (y1 self <=? y2 other)
  && (y2 self >=? y1 other).

(** ** numpy: the tile array

    A two-dimensional array of tiles, indexed [tiles[x, y]]: a list of
    [fst shape] columns of [snd shape] tiles each. *)
Record ndarray : Type := mkArray {
  shape : Z * Z;
  cells : list (list Tile)
}.

(** [np.full((w, h), fill_value)]: negative dimensions are refused. *)
Definition np_full (shp : Z * Z) (fill_value : Tile) : result ndarray :=
  let '(w, h) := shp in
  if (w <? 0) || (h <? 0) then Raise ValueError
  else Ok {| shape := shp;
             cells := replicate (Z.to_nat w) (replicate (Z.to_nat h) fill_value) |}.

(** An integer index [i] on an axis of length [len]: negative indices
    count from the end, anything outside [-len .. len-1] is an
    [IndexError]. *)
Definition norm_index (len i : Z) : result Z :=
  if (i <? - len) || (len <=? i) then Raise IndexError
  else Ok (if i <? 0 then i + len else i).

(** [slice.indices(len)] for one bound of a slice without step: negative
    bounds count from the end, and the bound is clipped to [0 .. len]. *)
Definition clip_bound (len i : Z) : Z :=
  if i <? 0 then Z.max (i + len) 0 else Z.min i len.

Definition in_slice (len : Z) (s : slice) (i : Z) : bool :=
  (clip_bound len (start s) <=? i) && (i <? clip_bound len (stop s)).

(** Apply [f] at the selected positions of a list. *)
Definition update_where {A} (sel : Z -> bool) (f : A -> A) (l : list A) : list A :=
  imap (fun i a => if sel (Z.of_nat i) then f a else a) l.

(** [a[sx, sy] = value] for two slices. *)
Definition setslice (sl : slice * slice) (value : Tile) (a : ndarray) : ndarray :=
  let '(sx, sy) := sl in
  let '(w, h) := shape a in
  {| shape := shape a;
     cells := update_where (in_slice w sx)
                (update_where (in_slice h sy) (fun _ => value)) (cells a) |}.

(** [a[x, y] = value] for two integers. *)
Definition setitem (x y : Z) (value : Tile) (a : ndarray) : result ndarray :=
  let '(w, h) := shape a in
  let? i := norm_index w x in
  let? j := norm_index h y in
  Ok {| shape := shape a;
        cells := update_where (Z.eqb i)
                   (update_where (Z.eqb j) (fun _ => value)) (cells a) |}.

(** The tile stored at column [i], row [j], if there is one. *)
Definition cell_at (a : ndarray) (i j : Z) : option Tile :=
  cells a !! Z.to_nat i ≫= (.!! Z.to_nat j).

(** [a[x, y]] for two integers. *)
Definition getitem (x y : Z) (a : ndarray) : result Tile :=
  let '(w, h) := shape a in
  let? i := norm_index w x in
  let? j := norm_index h y in
  match cell_at a i j with
  | Some t => Ok t
  | None => Raise IndexError
  end.

(** ** Entities, the map and the engine *)

(** Modelled from the spec: the entity class is not part of these sources.
    An entity is opaque beyond its integer position and its type tag
    (player, orc, troll). *)
Inductive EntityKind : Type := Player | Orc | Troll.

Record Entity : Type := mkEntity {
  kind : EntityKind;
  ent_x : Z;
  ent_y : Z
}.

(** Modelled from the spec: game_map.py is not part of these sources.  A
    GameMap owns a [width] x [height] array of tiles, pre-filled with wall,
    and an ordered collection of entities. *)
Record GameMap : Type := mkGameMap {
  width : Z;
  height : Z;
  tiles : ndarray;
  entities : list Entity
}.

Definition new_GameMap (map_width map_height : Z) (ents : list Entity)
    : result GameMap :=
  let? a := np_full (map_width, map_height) wall in
  Ok {| width := map_width; height := map_height; tiles := a; entities := ents |}.

Definition with_tiles (d : GameMap) (a : ndarray) : GameMap :=
  {| width := width d; height := height d; tiles := a; entities := entities d |}.

Definition with_entities (d : GameMap) (ents : list Entity) : GameMap :=
  {| width := width d; height := height d; tiles := tiles d; entities := ents |}.

(** Modelled from the spec: engine.py is not part of these sources; the
    engine supplies the player entity. *)
Record Engine : Type := mkEngine {
  player : Entity
}.

Definition move_to (x y : Z) (e : Entity) : Entity :=
  {| kind := kind e; ent_x := x; ent_y := y |}.

(** Modelled from the spec: [player.place(x, y, dungeon)] assigns the
    player's position.  The player is the very object the map's entity
    collection was created with ([entities=[player]]): its first member,
    every later one being appended behind it; so the assignment shows
    there. *)
Definition place (x y : Z) (d : GameMap) : GameMap :=
  with_entities d
    match entities d with
    | [] => []
    | p :: others => move_to x y p :: others
    end.

(** Modelled from the spec: entity_factories.py is not part of these
    sources.  [factory.spawn(dungeon, x, y)] appends a new entity of the
    factory's type at [(x, y)] to the map's entity collection. *)
Definition spawn (factory : EntityKind) (d : GameMap) (x y : Z) : GameMap :=
  with_entities d (entities d ++ [mkEntity factory x y]).

Definition orc : EntityKind := Orc.
Definition troll : EntityKind := Troll.

(** ** tcod.los.bresenham

    Modelled from the spec: the line rasteriser is the tcod library's, not
    part of these sources.  It emits every grid cell of the straight line
    from [start] to [end], both endpoints included, by integer (Bresenham)
    stepping: one cell per unit of the longer axis. *)
Record bresenham_data : Type := mkLine {
  origx : Z;
  origy : Z;
  destx : Z;
  desty : Z;
  deltax : Z;
  deltay : Z;
  stepx : Z;
  stepy : Z;
  err : Z
}.

Definition line_init (xFrom yFrom xTo yTo : Z) : bresenham_data :=
  let dx := xTo - xFrom in
  let dy := yTo - yFrom in
  let sx := Z.sgn dx in
  let sy := Z.sgn dy in
  {| origx := xFrom; origy := yFrom; destx := xTo; desty := yTo;
     deltax := 2 * dx; deltay := 2 * dy; stepx := sx; stepy := sy;
     err := if sx * dx >? sy * dy then sx * dx else sy * dy |}.

(** One step along the line; [None] once the destination is reached. *)
Definition line_step (d : bresenham_data) : option bresenham_data :=
  if stepx d * deltax d >? stepy d * deltay d then
    if origx d =? destx d then None
    else
      let e := err d - stepy d * deltay d in
      Some {| origx := origx d + stepx d;
              origy := if e <? 0 then origy d + stepy d else origy d;
              destx := destx d; desty := desty d;
              deltax := deltax d; deltay := deltay d;
              stepx := stepx d; stepy := stepy d;
              err := if e <? 0 then e + stepx d * deltax d else e |}
  else
    if origy d =? desty d then None
    else
      let e := err d - stepx d * deltax d in
      Some {| origx := if e <? 0 then origx d + stepx d else origx d;
              origy := origy d + stepy d;
              destx := destx d; desty := desty d;
              deltax := deltax d; deltay := deltay d;
              stepx := stepx d; stepy := stepy d;
              err := if e <? 0 then e + stepy d * deltay d else e |}.

Fixpoint line_walk (fuel : nat) (d : bresenham_data) : list (Z * Z) :=
  match fuel with
  | O => []
  | S fuel' =>
      match line_step d with
      | None => []
      | Some d' => (origx d', origy d') :: line_walk fuel' d'
      end
  end.

(** The line has as many cells as the Chebyshev distance of its endpoints
    plus one; the walk ends when the stepper reports the destination,
    which it does within that many steps. *)
Definition bresenham (start_ end_ : Z * Z) : list (Z * Z) :=
  let '(xa, ya) := start_ in
  let '(xb, yb) := end_ in
  let length := Z.max (Z.abs (xa - xb)) (Z.abs (ya - yb)) + 1 in
  (xa, ya) :: line_walk (Z.to_nat length) (line_init xa ya xb yb).

(** ** procgen.py *)

(** The two position draws of one trial of [place_entities]. *)
Definition monster_position (room : RectangularRoom) : M (Z * Z) :=
  let* x := randint (x1 room + 1) (x2 room - 1) in
  let* y := randint (y1 room + 1) (y2 room - 1) in
  ret (x, y).

Definition occupied (d : GameMap) (x y : Z) : bool :=
  existsb (fun entity => (ent_x entity =? x) && (ent_y entity =? y)) (entities d).

(** The body of the loop of [place_entities], run [n] times. *)
Fixpoint place_monsters (n : nat) (room : RectangularRoom) (dungeon : GameMap)
    : M GameMap :=
  match n with
  | O => ret dungeon
  | S n' =>
      let* (x, y) := monster_position room in
      let* dungeon' :=
        if negb (occupied dungeon x y) then
          let* u := random in
          if u <? float_0_8 then ret (spawn orc dungeon x y)
          else ret (spawn troll dungeon x y)
        else ret dungeon in
      place_monsters n' room dungeon'
  end.

Definition place_entities (room : RectangularRoom) (dungeon : GameMap)
    (maximum_monsters : Z) : M GameMap :=
  let* number_of_monsters := randint 0 maximum_monsters in
  place_monsters (Z.to_nat number_of_monsters) room dungeon.

(** The cells of the L-shaped tunnel for a given outcome of the coin flip:
    [true] moves horizontally, then vertically. *)
Definition tunnel_cells (horizontal_first : bool) (start_ end_ : Z * Z)
    : list (Z * Z) :=
  let '(x1, y1) := start_ in
  let '(x2, y2) := end_ in
  let '(corner_x, corner_y) :=
    if horizontal_first then (x2, y1) else (x1, y2) in
  bresenham (x1, y1) (corner_x, corner_y)
  ++ bresenham (corner_x, corner_y) (x2, y2).

(** [tunnel_between]: the generator is consumed at once and completely by
    its only caller, so it is the list of the cells it yields. *)
Definition tunnel_between (start_ end_ : Z * Z) : M (list (Z * Z)) :=
  let* u := random in
  ret (tunnel_cells (u <? float_0_5) start_ end_).

(** [for x, y in path: dungeon.tiles[x, y] = tile_types.floor] *)
Fixpoint carve (path : list (Z * Z)) (a : ndarray) : result ndarray :=
  match path with
  | [] => Ok a
  | (x, y) :: rest =>
      let? a' := setitem x y floor a in
      carve rest a'
  end.

(** The state of the loop of [generate_dungeon]: the map, the list of
    accepted rooms and, as a record of what was carved, the tunnels dug so
    far (the source keeps no such list). *)
Record GenState : Type := mkGen {
  dungeon : GameMap;
  rooms : list RectangularRoom;
  corridors : list (list (Z * Z))
}.

Section Generation.

Variables (room_min_size room_max_size max_monsters_per_room : Z).

(** One iteration of the loop of [generate_dungeon]. *)
Definition attempt (st : GenState) : M GenState :=
  let dungeon := dungeon st in
  let* room_width := randint room_min_size room_max_size in
  let* room_height := randint room_min_size room_max_size in
  let* x := randint 0 (width dungeon - room_width - 1) in
  let* y := randint 0 (height dungeon - room_height - 1) in
  let new_room := new_RectangularRoom x y room_width room_height in
  if existsb (fun other_room => intersects new_room other_room) (rooms st)
  then ret st
  else
    let dungeon := with_tiles dungeon (setslice (inner new_room) floor (tiles dungeon)) in
    let* (dungeon, dug) :=
      match last (rooms st) with
      | None =>
          let* (cx, cy) := lift (center new_room) in
          ret (place cx cy dungeon, [])
      | Some previous =>
          let* from := lift (center previous) in
          let* to := lift (center new_room) in
          let* path := tunnel_between from to in
          let* a := lift (carve path (tiles dungeon)) in
          ret (with_tiles dungeon a, [path])
      end in
    let* dungeon := place_entities new_room dungeon max_monsters_per_room in
    ret {| dungeon := dungeon;
           rooms := rooms st ++ [new_room];
           corridors := corridors st ++ dug |}.

Fixpoint attempts (n : nat) (st : GenState) : M GenState :=
  match n with
  | O => ret st
  | S n' =>
      let* st' := attempt st in
      attempts n' st'
  end.

End Generation.

(** [generate_dungeon], with the final state of its loop. *)
Definition generate_dungeon_state
    (max_rooms room_min_size room_max_size map_width map_height
     max_monsters_per_room : Z) (engine : Engine) : M GenState :=
  let player := player engine in
  let* dungeon := lift (new_GameMap map_width map_height [player]) in
  attempts room_min_size room_max_size max_monsters_per_room
    (Z.to_nat max_rooms)
    {| dungeon := dungeon; rooms := []; corridors := [] |}.

Definition generate_dungeon
    (max_rooms room_min_size room_max_size map_width map_height
     max_monsters_per_room : Z) (engine : Engine) : M GameMap :=
  let* st := generate_dungeon_state max_rooms room_min_size room_max_size
               map_width map_height max_monsters_per_room engine in
  ret (dungeon st).

(** A stream from a finite list of raw draws, zero afterwards. *)
Definition stream_of (l : list Z) : Rng := fun n => nth n l 0.

(** ** Vocabulary of the specification *)

(** Membership of an index in the half-open range of a slice, read as
    plain bounds. *)
Definition in_range (s : slice) (i : Z) : bool :=
  (start s <=? i) && (i <? stop s).

(** The cell [c] belongs to the region [inner] of the room. *)
Definition in_inner (r : RectangularRoom) (c : Z * Z) : bool :=
  let '(sx, sy) := inner r in
  in_range sx (fst c) && in_range sy (snd c).

(** The cell lies on a [w] x [h] grid. *)
Definition cell_in (w h : Z) (c : Z * Z) : Prop :=
  0 <= fst c < w /\ 0 <= snd c < h.

(** The cell lies on the grid of the map. *)
Definition in_grid (d : GameMap) (c : Z * Z) : Prop :=
  cell_in (width d) (height d) c.

Definition nonneg_cell (c : Z * Z) : Prop := 0 <= fst c /\ 0 <= snd c.

(** Two cells differ by at most one unit in each axis. *)
Definition adjacent (a b : Z * Z) : Prop :=
  Z.abs (fst a - fst b) <= 1 /\ Z.abs (snd a - snd b) <= 1.

Definition cell_eqb (a b : Z * Z) : bool :=
  (fst a =? fst b) && (snd a =? snd b).

Definition on_path (c : Z * Z) (p : list (Z * Z)) : bool :=
  existsb (cell_eqb c) p.

(** The cell is in the interior of an accepted room or on a tunnel. *)
Definition carved (st : GenState) (c : Z * Z) : bool :=
  existsb (fun r => in_inner r c) (rooms st)
  || existsb (on_path c) (corridors st).

(** The room lies on a [w] x [h] grid, one tile off its far edges. *)
Definition room_fits (w h : Z) (r : RectangularRoom) : Prop :=
  0 <= x1 r /\ x2 r <= w - 1 /\ 0 <= y1 r /\ y2 r <= h - 1.

(** Two streams giving the same draws. *)
Definition same_draws (g1 g2 : Rng) : Prop := forall n, g1 n = g2 n.

(** What a run returns or raises, the generator left aside. *)
Definition outcome {A} (r : result (A * Rng)) : result A :=
  match r with
  | Ok (a, _) => Ok a
  | Raise e => Raise e
  end.

(** A path whose consecutive cells are adjacent. *)
Fixpoint connected (p : list (Z * Z)) : Prop :=
  match p with
  | [] => True
  | a :: rest =>
      match head rest with
      | Some b => adjacent a b
      | None => True
      end /\ connected rest
  end.

(** [v] lies between [a] and [b], in either order. *)
Definition within (a b v : Z) : Prop := Z.min a b <= v <= Z.max a b.

(** The stepping state of a horizontal line: no vertical motion, the
    error term never negative, the step pointing at the destination. *)
Definition hline (d : bresenham_data) : Prop :=
  deltay d = 0 /\ stepy d = 0 /\ 0 <= err d /\ 0 < stepx d * deltax d
  /\ (stepx d = 1 \/ stepx d = -1) /\ 0 <= (destx d - origx d) * stepx d.

Definition hcell (d : bresenham_data) (c : Z * Z) : Prop :=
  within (origx d) (destx d) (fst c) /\ snd c = origy d.

(** The stepping state of a vertical line (or of a single point). *)
Definition vline (d : bresenham_data) : Prop :=
  deltax d = 0 /\ stepx d = 0 /\ 0 <= err d /\ 0 <= stepy d * deltay d
  /\ (origy d = desty d \/ stepy d = 1 \/ stepy d = -1)
  /\ 0 <= (desty d - origy d) * stepy d.

Definition vcell (d : bresenham_data) (c : Z * Z) : Prop :=
  fst c = origx d /\ within (origy d) (desty d) (snd c).

(** The stepping state of a line that advances along x at every step:
    [a] and [b] are the lengths of the line along x and y, [rx] and [ry]
    the steps still to go. *)
Definition xmajor (a b rx ry : Z) (d : bresenham_data) : Prop :=
  0 <= b < a /\ stepx d * deltax d = 2 * a /\ stepy d * deltay d = 2 * b
  /\ (stepx d = 1 \/ stepx d = -1) /\ -1 <= stepy d <= 1
  /\ 0 <= rx
  /\ destx d = origx d + stepx d * rx /\ desty d = origy d + stepy d * ry
  /\ err d = a + 2 * rx * b - 2 * ry * a /\ 0 <= err d < 2 * a.

(** The stepping state of a line that advances along y at every step, or
    of a single point. *)
Definition ymajor (a b rx ry : Z) (d : bresenham_data) : Prop :=
  0 <= a <= b /\ stepx d * deltax d = 2 * a /\ stepy d * deltay d = 2 * b
  /\ -1 <= stepx d <= 1
  /\ (b = 0 /\ stepy d = 0 /\ stepx d = 0
      \/ 0 < b /\ (stepy d = 1 \/ stepy d = -1))
  /\ 0 <= ry
  /\ destx d = origx d + stepx d * rx /\ desty d = origy d + stepy d * ry
  /\ err d = b + 2 * ry * a - 2 * rx * b /\ 0 <= err d /\ (0 < b -> err d < 2 * b).

(** [c] lies in the bounding box of the cells [a] and [b]. *)
Definition in_box (a b c : Z * Z) : Prop :=
  within (fst a) (fst b) (fst c) /\ within (snd a) (snd b) (snd c).

(** A path from [a] to [b] by adjacent cells. *)
Definition path_from_to (a b : Z * Z) (p : list (Z * Z)) : Prop :=
  head p = Some a /\ last p = Some b
  /\ forall i u v, p !! i = Some u -> p !! S i = Some v -> adjacent u v.

(** What [place_entities] leaves alone and what it adds. *)
Definition extends_with (r : RectangularRoom) (d d' : GameMap) : Prop :=
  width d' = width d /\ height d' = height d /\ tiles d' = tiles d
  /\ exists added,
       entities d' = entities d ++ added
       /\ Forall (fun e => in_inner r (ent_x e, ent_y e) = true) added.


(** The array has shape [w] x [h] and holds floor exactly on the cells
    selected by [f], wall on the others. *)
Definition tiles_are (a : ndarray) (w h : Z) (f : Z * Z -> bool) : Prop :=
  shape a = (w, h)
  /\ forall i j, 0 <= i < w -> 0 <= j < h ->
       cell_at a i j = Some (if f (i, j) then floor else wall).

(** *** One iteration of the generation loop, as a relation *)

Section Steps.

Variables (room_min_size room_max_size : Z).

(** A candidate room as it is drawn for a [w] x [h] map: its width and
    height from [[room_min_size, room_max_size]], its top-left corner
    from [[0, w - width - 1] x [0, h - height - 1]]. *)
Definition drawn_on (w h : Z) (r : RectangularRoom) : Prop :=
  exists room_width room_height,
    room_min_size <= room_width <= room_max_size
    /\ room_min_size <= room_height <= room_max_size
    /\ 0 <= x1 r <= w - room_width - 1
    /\ 0 <= y1 r <= h - room_height - 1
    /\ x2 r = x1 r + room_width /\ y2 r = y1 r + room_height.

(** What accepting the room [new] does to the map before the monsters
    come: the interior is carved, then the player is placed (first
    room) or a tunnel is dug from the previous room. *)
Definition dug (st : GenState) (new : RectangularRoom)
    (d2 : GameMap) (paths : list (list (Z * Z))) : Prop :=
  let d1 := with_tiles (dungeon st)
              (setslice (inner new) floor (tiles (dungeon st))) in
  match last (rooms st) with
  | None =>
      exists c, center new = Ok c
                /\ d2 = place (fst c) (snd c) d1 /\ paths = []
  | Some previous =>
      exists from to coin a,
        center previous = Ok from /\ center new = Ok to
        /\ carve (tunnel_cells coin from to) (tiles d1) = Ok a
        /\ d2 = with_tiles d1 a /\ paths = [tunnel_cells coin from to]
  end.

Definition step (st st' : GenState) : Prop :=
  exists new,
    drawn_on (width (dungeon st)) (height (dungeon st)) new
    /\ if existsb (intersects new) (rooms st) then st' = st
       else exists d2 paths d3,
              dug st new d2 paths
              /\ extends_with new d2 d3
              /\ st' = {| dungeon := d3;
                          rooms := rooms st ++ [new];
                          corridors := corridors st ++ paths |}.

(** The map keeps its size; the accepted rooms are rooms drawn for it
    and do not intersect one another; one tunnel was dug per room after
    the first; the player stands where the first room, if any, put
    it. *)
Definition layout (w h : Z) (player0 : Entity) (st : GenState) : Prop :=
  width (dungeon st) = w /\ height (dungeon st) = h
  /\ shape (tiles (dungeon st)) = (w, h)
  /\ Forall (drawn_on w h) (rooms st)
  /\ (forall i j a b, i <> j ->
        rooms st !! i = Some a -> rooms st !! j = Some b ->
        intersects a b = false)
  /\ length (corridors st) = pred (length (rooms st))
  /\ match head (rooms st) with
     | None => head (entities (dungeon st)) = Some player0
     | Some r =>
         exists c, center r = Ok c
           /\ head (entities (dungeon st))
              = Some (move_to (fst c) (snd c) player0)
     end.

(** The grid holds floor exactly on the carved cells, and every tunnel
    lies on the grid. *)
Definition carving (w h : Z) (st : GenState) : Prop :=
  tiles_are (tiles (dungeon st)) w h (carved st)
  /\ Forall (Forall (cell_in w h)) (corridors st).

End Steps.

(** The state in which the loop starts. *)
Definition initial (d : GameMap) : GenState :=
  {| dungeon := d; rooms := []; corridors := [] |}.

(** Two runs ended alike: the same exception, or the same value with
    generators that go on giving the same draws. *)
Definition same_result {A} (r1 r2 : result (A * Rng)) : Prop :=
  match r1, r2 with
  | Ok (a1, g1), Ok (a2, g2) => a1 = a2 /\ same_draws g1 g2
  | Raise e1, Raise e2 => e1 = e2
  | _, _ => False
  end.

(** A computation that depends on its generator through the draws only. *)
Definition draws_only {A} (m : M A) : Prop :=
  forall g1 g2, same_draws g1 g2 -> same_result (m g1) (m g2).

(** A computation that can raise no exception but [e0]. *)
Definition raises_only (e0 : PyError) {A} (m : M A) : Prop :=
  forall g e, m g = Raise e -> e = e0.


(** *** The draws of a run, by their place in the stream *)

(** The stream after its first [k] draws. *)
Definition after (k : nat) (g : Rng) : Rng := fun i => g (k + i)%nat.

(** Two streams giving the same first [k] draws. *)
Definition agree (k : nat) (g1 g2 : Rng) : Prop :=
  forall i, (i < k)%nat -> g1 i = g2 i.

(** Run on [g], the computation makes exactly [k] draws and depends on
    nothing else of the stream: every stream with the same first [k] draws
    gives the same value or the same exception, and each run leaves its
    stream as it is after [k] draws. *)
Definition reads {A} (m : M A) (g : Rng) (k : nat) : Prop :=
  forall g2, agree k g g2 ->
    match m g, m g2 with
    | Ok (a1, r1), Ok (a2, r2) =>
        a1 = a2 /\ same_draws r1 (after k g) /\ same_draws r2 (after k g2)
    | Raise e1, Raise e2 => e1 = e2
    | _, _ => False
    end.

(** What [random.randint(a, b)] makes of the [i]-th draw to come. *)
Definition randint_at (a b : Z) (g : Rng) (i : nat) : Z :=
  a + g i mod (b - a + 1).

(** Whether [random.random() < bound] on the [i]-th draw to come, [bound]
    being a numerator over 2^53. *)
Definition random_below (bound : Z) (g : Rng) (i : nat) : bool :=
  g i mod 2 ^ 53 <? bound.

(** Some entity of the list stands on [(x, y)]. *)
Definition taken (ents : list Entity) (x y : Z) : bool :=
  existsb (fun entity => (ent_x entity =? x) && (ent_y entity =? y)) ents.

(** The center of a room, where [center] gives one. *)
Definition center_of (r : RectangularRoom) : Z * Z :=
  match center r with
  | Ok c => c
  | Raise _ => (0, 0)
  end.

(** What a run has made of the stream so far: the accepted rooms, the
    tunnels, the entities, and the place of the next draw. *)
Record Plan : Type := mkPlan {
  plan_rooms : list RectangularRoom;
  plan_tunnels : list (list (Z * Z));
  plan_entities : list Entity;
  plan_next : nat
}.

(** Following the specification, a generation run replayed from the
    stream, every draw read at its place in the order the specification
    gives: "room width, room height, x, y, then per-corridor coin flip,
    then per-monster count and per-monster position/type draws". *)
Section Replay.

Variables (room_min_size room_max_size max_monsters_per_room : Z).
Variables (map_width map_height : Z) (g : Rng).

(** The candidate room of the attempt that starts at draw [i]: its width,
    its height, [x] and [y] are the draws [i] to [i + 3]. *)
Definition candidate_at (i : nat) : RectangularRoom :=
  let room_width := randint_at room_min_size room_max_size g i in
  let room_height := randint_at room_min_size room_max_size g (i + 1) in
  let x := randint_at 0 (map_width - room_width - 1) g (i + 2) in
  let y := randint_at 0 (map_height - room_height - 1) g (i + 3) in
  new_RectangularRoom x y room_width room_height.

(** [n] trials of monster placement from draw [i] on: two draws give the
    position; on a free cell a third gives the type, the weaker with
    probability 0.8, and the monster joins the entities; on an occupied
    cell the trial is given up.  Returns the entities and the place of the
    next draw. *)
Fixpoint trials_at (n : nat) (room : RectangularRoom) (ents : list Entity)
    (i : nat) : list Entity * nat :=
  match n with
  | O => (ents, i)
  | S n' =>
      let x := randint_at (x1 room + 1) (x2 room - 1) g i in
      let y := randint_at (y1 room + 1) (y2 room - 1) g (i + 1) in
      if taken ents x y then trials_at n' room ents (i + 2)
      else
        let type := if random_below float_0_8 g (i + 2) then Orc else Troll in
        trials_at n' room (ents ++ [mkEntity type x y]) (i + 3)
  end.

(** The monsters of a room: draw [i] is the count of trials, drawn from
    [[0, max_monsters_per_room]], and the trials follow. *)
Definition monsters_at (room : RectangularRoom) (ents : list Entity)
    (i : nat) : list Entity * nat :=
  trials_at (Z.to_nat (randint_at 0 max_monsters_per_room g i)) room ents (i + 1).

(** One attempt: four draws for the candidate; a rejected candidate uses
    no other; the first accepted room takes the player to its center and
    then draws its monsters; every later one first draws the coin of its
    tunnel from the room accepted before. *)
Definition attempt_at (p : Plan) : Plan :=
  let i := plan_next p in
  let new_room := candidate_at i in
  if existsb (intersects new_room) (plan_rooms p) then
    {| plan_rooms := plan_rooms p; plan_tunnels := plan_tunnels p;
       plan_entities := plan_entities p; plan_next := i + 4 |}
  else
    match last (plan_rooms p) with
    | None =>
        let c := center_of new_room in
        let ents := match plan_entities p with
                    | [] => []
                    | player :: others => move_to (fst c) (snd c) player :: others
                    end in
        let m := monsters_at new_room ents (i + 4) in
        {| plan_rooms := plan_rooms p ++ [new_room];
           plan_tunnels := plan_tunnels p;
           plan_entities := fst m; plan_next := snd m |}
    | Some previous =>
        let horizontal_first := random_below float_0_5 g (i + 4) in
        let path := tunnel_cells horizontal_first (center_of previous)
                      (center_of new_room) in
        let m := monsters_at new_room (plan_entities p) (i + 5) in
        {| plan_rooms := plan_rooms p ++ [new_room];
           plan_tunnels := plan_tunnels p ++ [path];
           plan_entities := fst m; plan_next := snd m |}
    end.

Fixpoint attempts_at (n : nat) (p : Plan) : Plan :=
  match n with
  | O => p
  | S n' => attempts_at n' (attempt_at p)
  end.

End Replay.

(** The replay of a whole run: [max_rooms] attempts from the first draw,
    with the player as the only entity. *)
Definition replay
    (max_rooms room_min_size room_max_size map_width map_height
     max_monsters_per_room : Z) (player0 : Entity) (g : Rng) : Plan :=
  attempts_at room_min_size room_max_size max_monsters_per_room
    map_width map_height g (Z.to_nat max_rooms)
    {| plan_rooms := []; plan_tunnels := []; plan_entities := [player0];
       plan_next := 0 |}.

(** The plan tells the rooms, tunnels and entities of the loop state, the
    next draw being the [i]-th. *)
Definition planned (p : Plan) (st : GenState) (i : nat) : Prop :=
  plan_rooms p = rooms st /\ plan_tunnels p = corridors st
  /\ plan_entities p = entities (dungeon st) /\ plan_next p = i.

(** The run [E] is the run [H] made before: its value and stream are
    those of [H]. *)
Ltac same_run E H :=
  rewrite H in E;
  match type of E with
  | Ok (?a, ?r) = Ok (?b, ?s) =>
      assert (b = a /\ s = r) as [-> ->] by (inversion E; auto); clear E
  end.

(** *** Concrete runs *)

Definition engine0 : Engine := mkEngine (mkEntity Player 0 0).

(** Fourteen draws: a 3 x 3 room at (0, 0) without monsters, then a 3 x 3
    room at (5, 3), a tunnel that goes horizontally first, and one orc. *)
Definition demo_stream : Rng :=
  stream_of [0; 0; 0; 0; 0; 0; 0; 5; 3; 0; 1; 0; 1; 0].

(** The same draws, written differently. *)
Definition demo_stream_again : Rng := fun n => demo_stream n + 0.

(** The same fourteen draws followed by others. *)
Definition demo_stream_longer : Rng :=
  stream_of [0; 0; 0; 0; 0; 0; 0; 5; 3; 0; 1; 0; 1; 0; 7; 1; 8; 2; 8].

(** An engine whose player stands elsewhere, as an earlier run may have
    left it. *)
Definition engine1 : Engine := mkEngine (mkEntity Player 6 5).

Definition empty_map : GameMap :=
  {| width := 0; height := 0; tiles := mkArray (0, 0) []; entities := [] |}.

Definition map_of (r : result (GameMap * Rng)) : GameMap :=
  match r with Ok (d, _) => d | Raise _ => empty_map end.

Definition rest_of (r : result (GameMap * Rng)) : Rng :=
  match r with Ok (_, g) => g | Raise _ => demo_stream end.

(** The map of the run with two attempts on a 12 x 8 grid, and the
    generator it leaves. *)
Definition demo_map : GameMap :=
  Eval vm_compute in map_of (generate_dungeon 2 3 3 12 8 1 engine0 demo_stream).

Definition demo_rest : Rng :=
  Eval vm_compute in rest_of (generate_dungeon 2 3 3 12 8 1 engine0 demo_stream).

(** The same with a single attempt. *)
Definition demo_single_map : GameMap :=
  Eval vm_compute in map_of (generate_dungeon 1 3 3 12 8 1 engine0 demo_stream).

Definition demo_single_rest : Rng :=
  Eval vm_compute in rest_of (generate_dungeon 1 3 3 12 8 1 engine0 demo_stream).

(** *** Further vocabulary *)

(** The cell lies in the bounding box of the room, borders included. *)
Definition in_bounds (r : RectangularRoom) (c : Z * Z) : Prop :=
  x1 r <= fst c <= x2 r /\ y1 r <= snd c <= y2 r.

(** The cell an entity stands on. *)
Definition position (e : Entity) : Z * Z := (ent_x e, ent_y e).

Definition is_monster (e : Entity) : Prop := kind e = Orc \/ kind e = Troll.

(** Two cells one step apart along one axis, or equal. *)
Definition beside (a b : Z * Z) : Prop :=
  Z.abs (fst a - fst b) + Z.abs (snd a - snd b) <= 1.

(** [b] is reached from [a] through cells that satisfy [ok], each beside
    the one before. *)
Inductive walk (ok : Z * Z -> Prop) : Z * Z -> Z * Z -> Prop :=
  | walk_here : forall a, ok a -> walk ok a a
  | walk_on : forall a b c, ok a -> beside a b -> walk ok b c -> walk ok a c.

(** The cell holds the floor tile in the map. *)
Definition is_floor (d : GameMap) (c : Z * Z) : Prop :=
  getitem (fst c) (snd c) (tiles d) = Ok floor.

(** The leg of an L-shaped tunnel a cell lies on: with the horizontal leg
    first, the row of [a] or the column of [b]; else the column of [a] or
    the row of [b]. *)
Definition on_legs (horizontal_first : bool) (a b c : Z * Z) : Prop :=
  if horizontal_first
  then snd c = snd a \/ fst c = fst b
  else fst c = fst a \/ snd c = snd b.

(** No two entities of the list stand on the same cell. *)
Definition distinct_cells (l : list Entity) : Prop :=
  forall i j e1 e2,
    i <> j -> l !! i = Some e1 -> l !! j = Some e2 ->
    position e1 <> position e2.

(** What up to [n] trials of the placement loop do to the map: size and
    tiles untouched, entities kept on distinct cells, at most [n] monsters
    appended. *)
Definition adds (n : nat) (d d' : GameMap) : Prop :=
  width d' = width d /\ height d' = height d /\ tiles d' = tiles d
  /\ (distinct_cells (entities d) -> distinct_cells (entities d'))
  /\ exists added,
       entities d' = entities d ++ added
       /\ (length added <= n)%nat /\ Forall is_monster added.

(** The entities of the loop state: all on distinct cells, at most
    [maximum] monsters per accepted room behind the player, each monster
    in the interior of an accepted room. *)
Definition populated (maximum : Z) (st : GenState) : Prop :=
  distinct_cells (entities (dungeon st))
  /\ Z.of_nat (length (entities (dungeon st)))
     <= 1 + Z.of_nat (length (rooms st)) * maximum
  /\ forall i e,
       entities (dungeon st) !! S i = Some e ->
       is_monster e
       /\ exists r, In r (rooms st) /\ in_inner r (position e) = true.

(** Each tunnel is the one dug from the center of a room to the center of
    the room accepted next. *)
Definition chained (st : GenState) : Prop :=
  forall i a b,
    rooms st !! i = Some a -> rooms st !! S i = Some b ->
    exists ca cb coin,
      center a = Ok ca /\ center b = Ok cb
      /\ corridors st !! i = Some (tunnel_cells coin ca cb).

(** A path whose consecutive cells are beside one another. *)
Fixpoint stepwise (p : list (Z * Z)) : Prop :=
  match p with
  | [] => True
  | a :: rest =>
      match head rest with
      | Some b => beside a b
      | None => True
      end /\ stepwise rest
  end.

(** The corner of the L-shaped tunnel from [a] to [b]. *)
Definition corner_of (horizontal_first : bool) (a b : Z * Z) : Z * Z :=
  if horizontal_first then (fst b, snd a) else (fst a, snd b).

(** The cell lies on a [w] x [h] grid and off its outer ring. *)
Definition off_border (w h : Z) (c : Z * Z) : Prop :=
  1 <= fst c <= w - 2 /\ 1 <= snd c <= h - 2.


(** * Properties *)

(** ** The monads *)

Lemma bind_Ok {A B} (m : M A) (k : A -> M B) g b g' :
  bind m k g = Ok (b, g') ->
  exists a g1, m g = Ok (a, g1) /\ k a g1 = Ok (b, g').
Proof.
  unfold bind. destruct (m g) as [[a g1]|e]; [eauto | discriminate].
Qed.

Lemma bind_Ok_intro {A B} (m : M A) (k : A -> M B) g a g1 :
  m g = Ok (a, g1) -> bind m k g = k a g1.
Proof. unfold bind. intros ->. reflexivity. Qed.

Lemma bind_Raise_intro {A B} (m : M A) (k : A -> M B) g e :
  m g = Raise e -> bind m k g = Raise e.
Proof. unfold bind. intros ->. reflexivity. Qed.

Lemma lift_Ok {A} (r : result A) g a g' :
  lift r g = Ok (a, g') -> r = Ok a /\ g' = g.
Proof. unfold lift. destruct r; intros H; inversion H; auto. Qed.

Lemma ret_Ok {A} (a : A) g b g' : ret a g = Ok (b, g') -> b = a /\ g' = g.
Proof. unfold ret. intros H; inversion H; auto. Qed.

Lemma rbind_Ok {A B} (r : result A) (k : A -> result B) b :
  rbind r k = Ok b -> exists a, r = Ok a /\ k a = Ok b.
Proof. destruct r; simpl; [eauto | discriminate]. Qed.

(** ** Random draws *)

Lemma randint_Ok a b g v g' :
  randint a b g = Ok (v, g') -> a <= v <= b /\ g' = snd (rng_next g).
Proof.
  unfold randint. destruct (Z.ltb_spec b a) as [Hlt|Hge]; [discriminate|].
  simpl. intros H; inversion H; subst; clear H. split; [|reflexivity].
  pose proof (Z.mod_pos_bound (g 0%nat) (b - a + 1)). lia.
Qed.

Lemma randint_empty a b g : b < a -> randint a b g = Raise ValueError.
Proof.
  intros H. unfold randint. destruct (Z.ltb_spec b a) as [Hlt|Hge]; [reflexivity|lia].
Qed.

Lemma randint_total a b g :
  a <= b -> exists v, randint a b g = Ok (v, snd (rng_next g)).
Proof.
  intros H. unfold randint.
  destruct (Z.ltb_spec b a) as [Hlt|Hge]; [lia|]. simpl. eauto.
Qed.

(** Every value of the range is drawn from some stream. *)
Lemma randint_reach a b v g :
  a <= v <= b -> g 0%nat = v - a -> randint a b g = Ok (v, snd (rng_next g)).
Proof.
  intros H Hg. unfold randint.
  destruct (Z.ltb_spec b a) as [Hlt|Hge]; [lia|]. simpl.
  rewrite Hg, Z.mod_small by lia. do 2 f_equal. lia.
Qed.

(** ** [int(a / 2)] *)

(** Up to [2^53] in magnitude the division is exact and [int] truncates. *)
Lemma int_truediv2_exact a :
  Z.abs a <= 2 ^ 53 -> int_truediv2 a = Ok (Z.quot a 2).
Proof.
  intros H.
  assert (Hc : Z.abs a < 2 ^ 53 \/ a = 2 ^ 53 \/ a = - 2 ^ 53) by lia.
  destruct Hc as [Hlt | [-> | ->]]; [| reflexivity | reflexivity].
  unfold int_truediv2.
  destruct (Z.leb_spec (Z.log2 (Z.abs a) + 1) 53) as [Hn|Hn]; [reflexivity|].
  exfalso. destruct (Z.eq_dec (Z.abs a) 0) as [E|E].
  - rewrite E in Hn. simpl in Hn. lia.
  - assert (Z.log2 (Z.abs a) < 53); [|lia].
    apply Z.log2_lt_pow2; lia.
Qed.

Lemma int_truediv2_floor a :
  0 <= a <= 2 ^ 53 -> int_truediv2 a = Ok (a / 2).
Proof.
  intros H. rewrite int_truediv2_exact by lia.
  rewrite Z.quot_div_nonneg by lia. reflexivity.
Qed.

Lemma int_truediv2_nonneg a c : 0 <= a -> int_truediv2 a = Ok c -> 0 <= c.
Proof.
  intros Ha. unfold int_truediv2.
  destruct (Z.leb_spec (Z.log2 (Z.abs a) + 1) 53) as [Hn|Hn].
  - intros H; inversion H. apply Z.quot_pos; lia.
  - set (s := Z.log2 (Z.abs a) + 1 - 53).
    set (q := Z.shiftr (Z.abs a) s).
    assert (0 <= q) by (apply Z.shiftr_nonneg; lia).
    assert (0 <= 2 ^ (s - 1)) by (apply Z.pow_nonneg; lia).
    assert (0 <= Z.sgn a) by lia.
    destruct (_ || _); destruct (2 ^ 1024 <=? _); try discriminate;
      intros E; inversion E; nia.
Qed.

(** ** Rooms *)

Lemma center_Ok r c :
  center r = Ok c ->
  int_truediv2 (x1 r + x2 r) = Ok (fst c) /\ int_truediv2 (y1 r + y2 r) = Ok (snd c).
Proof.
  unfold center. intros H.
  apply rbind_Ok in H as (cx & Hx & H). apply rbind_Ok in H as (cy & Hy & H).
  inversion H; subst; auto.
Qed.

Lemma center_exact r :
  Z.abs (x1 r + x2 r) <= 2 ^ 53 -> Z.abs (y1 r + y2 r) <= 2 ^ 53 ->
  center r = Ok (Z.quot (x1 r + x2 r) 2, Z.quot (y1 r + y2 r) 2).
Proof.
  intros Hx Hy. unfold center.
  rewrite !int_truediv2_exact by assumption. reflexivity.
Qed.

Lemma in_inner_spec r c :
  in_inner r c = true <->
  x1 r + 1 <= fst c < x2 r /\ y1 r + 1 <= snd c < y2 r.
Proof.
  unfold in_inner, inner, in_range; simpl.
  rewrite !andb_true_iff, !Z.leb_le, !Z.ltb_lt. tauto.
Qed.

Lemma intersects_spec a b :
  intersects a b = true <->
  x1 a <= x2 b /\ x1 b <= x2 a /\ y1 a <= y2 b /\ y1 b <= y2 a.
Proof.
  unfold intersects.
  rewrite !andb_true_iff, !Z.leb_le, !Z.geb_le. tauto.
Qed.

Lemma intersects_sym a b : intersects a b = intersects b a.
Proof.
  apply eq_true_iff_eq. rewrite !intersects_spec. tauto.
Qed.

Lemma center_midpoint r :
  0 <= x1 r + x2 r <= 2 ^ 53 ->
  0 <= y1 r + y2 r <= 2 ^ 53 ->
  center r = Ok ((x1 r + x2 r) / 2, (y1 r + y2 r) / 2).
Proof.
  intros Hx Hy. unfold center.
  rewrite !int_truediv2_floor by assumption. reflexivity.
Qed.

(** C4, as the code has it.  For every room whose coordinate sums
    [x1 + x2] and [y1 + y2] lie between 0 and 2^53, [center] raises nothing
    and returns the floor-divided midpoint of the bounding box
    [((x1 + x2) / 2, (y1 + y2) / 2)].  (Beyond that the float division
    rounds, and for negative sums [int] truncates toward zero instead.) *)
Theorem center_floor_midpoint (r : RectangularRoom) :
  0 <= x1 r + x2 r <= 2 ^ 53 ->
  0 <= y1 r + y2 r <= 2 ^ 53 ->
  center r = Ok ((x1 r + x2 r) / 2, (y1 r + y2 r) / 2).
Proof.
  apply center_midpoint.
Qed.

(** The room of the specification's example, [x1=0, y1=0, x2=10, y2=6],
    has center [(5, 3)]. *)
Lemma center_floor_midpoint_example :
  0 <= x1 (new_RectangularRoom 0 0 10 6) + x2 (new_RectangularRoom 0 0 10 6) <= 2 ^ 53
  /\ 0 <= y1 (new_RectangularRoom 0 0 10 6) + y2 (new_RectangularRoom 0 0 10 6) <= 2 ^ 53
  /\ center (new_RectangularRoom 0 0 10 6) = Ok (5, 3).
Proof.
  split; [|split].
  - vm_compute. split; discriminate.
  - vm_compute. split; discriminate.
  - apply (center_floor_midpoint (new_RectangularRoom 0 0 10 6));
      vm_compute; split; discriminate.
Defined.

(** C4 as stated fails: the room with [x1 = -3, x2 = 0] has the
    floor-divided midpoint [-2] on the x axis, and [center] returns
    [int(-1.5) = -1]; and a room as wide as [2^1025] makes the float
    division raise. *)
Lemma center_not_floor_for_negative :
  let r := new_RectangularRoom (-3) 0 3 1 in
  center r = Ok (-1, 0)
  /\ center r <> Ok ((x1 r + x2 r) / 2, (y1 r + y2 r) / 2)
  /\ center (new_RectangularRoom 0 0 (2 ^ 1025) 1) = Raise OverflowError.
Proof. split; [reflexivity | split; [discriminate | reflexivity]]. Qed.

(** ** Entity placement *)

Lemma monster_position_Ok r g c g' :
  monster_position r g = Ok (c, g') ->
  x1 r + 1 <= fst c <= x2 r - 1 /\ y1 r + 1 <= snd c <= y2 r - 1.
Proof.
  unfold monster_position. intros H.
  apply bind_Ok in H as (x & g1 & Hx & H).
  apply bind_Ok in H as (y & g2 & Hy & H).
  apply ret_Ok in H as [-> ->].
  apply randint_Ok in Hx as [Hx _]. apply randint_Ok in Hy as [Hy _].
  simpl. lia.
Qed.

Lemma monster_position_in_inner r g c g' :
  monster_position r g = Ok (c, g') -> in_inner r c = true.
Proof.
  intros H. apply monster_position_Ok in H. apply in_inner_spec. lia.
Qed.

(** Every cell of the carved interior is the outcome of some stream. *)
Lemma inner_is_drawn r c :
  in_inner r c = true ->
  exists g g', monster_position r g = Ok (c, g').
Proof.
  intros H. apply in_inner_spec in H. destruct c as [cx cy]; simpl in H.
  exists (stream_of [cx - (x1 r + 1); cy - (y1 r + 1)]).
  eexists. unfold monster_position.
  erewrite bind_Ok_intro; [| apply (randint_reach _ _ cx); [lia | reflexivity]].
  erewrite bind_Ok_intro; [| apply (randint_reach _ _ cy); [lia | reflexivity]].
  reflexivity.
Qed.

Lemma monster_position_total r g :
  x1 r + 2 <= x2 r -> y1 r + 2 <= y2 r ->
  exists c g', monster_position r g = Ok (c, g').
Proof.
  intros Hx Hy. unfold monster_position.
  destruct (randint_total (x1 r + 1) (x2 r - 1) g) as [x Ex]; [lia|].
  destruct (randint_total (y1 r + 1) (y2 r - 1) (snd (rng_next g))) as [y Ey]; [lia|].
  exists (x, y). eexists.
  erewrite bind_Ok_intro by exact Ex. erewrite bind_Ok_intro by exact Ey.
  reflexivity.
Qed.

Lemma extends_with_refl r d : extends_with r d d.
Proof.
  repeat split. exists []. rewrite app_nil_r. auto.
Qed.

Lemma extends_with_spawn r k d x y :
  in_inner r (x, y) = true -> extends_with r d (spawn k d x y).
Proof.
  intros H. repeat split. exists [mkEntity k x y]. split; [reflexivity|].
  constructor; [exact H | constructor].
Qed.

Lemma extends_with_trans r d1 d2 d3 :
  extends_with r d1 d2 -> extends_with r d2 d3 -> extends_with r d1 d3.
Proof.
  intros (W1 & H1 & T1 & a1 & E1 & F1) (W2 & H2 & T2 & a2 & E2 & F2).
  repeat split; try congruence.
  exists (a1 ++ a2). split.
  - rewrite E2, E1, app_assoc. reflexivity.
  - apply Forall_app; auto.
Qed.

Lemma place_monsters_extends n : forall r d g d' g',
  place_monsters n r d g = Ok (d', g') -> extends_with r d d'.
Proof.
  induction n as [|n IH]; intros r d g d' g' H; simpl in H.
  - apply ret_Ok in H as [-> _]. apply extends_with_refl.
  - apply bind_Ok in H as ([x y] & g1 & Hpos & H).
    apply bind_Ok in H as (d1 & g2 & Hd1 & H).
    apply monster_position_in_inner in Hpos.
    apply IH in H. eapply extends_with_trans; [|exact H].
    destruct (negb (occupied d x y)).
    + apply bind_Ok in Hd1 as (u & g3 & _ & Hd1).
      destruct (u <? float_0_8); apply ret_Ok in Hd1 as [-> _];
        apply extends_with_spawn; exact Hpos.
    + apply ret_Ok in Hd1 as [-> _]. apply extends_with_refl.
Qed.

Lemma place_entities_extends r d mm g d' g' :
  place_entities r d mm g = Ok (d', g') -> extends_with r d d'.
Proof.
  unfold place_entities. intros H.
  apply bind_Ok in H as (n & g1 & _ & H).
  eapply place_monsters_extends; exact H.
Qed.

Lemma place_monsters_total n : forall r d g,
  x1 r + 2 <= x2 r -> y1 r + 2 <= y2 r ->
  exists d' g', place_monsters n r d g = Ok (d', g').
Proof.
  induction n as [|n IH]; intros r d g Hx Hy; simpl.
  - eexists _, _. reflexivity.
  - destruct (monster_position_total r g Hx Hy) as ([x y] & g1 & E).
    erewrite bind_Ok_intro by exact E.
    assert (Hd : exists d1 g2,
      (if negb (occupied d x y)
       then let* u := random in
            if u <? float_0_8 then ret (spawn orc d x y) else ret (spawn troll d x y)
       else ret d) g1 = Ok (d1, g2)).
    { destruct (negb (occupied d x y)); [|eexists _, _; reflexivity].
      unfold bind, random. simpl.
      destruct (_ <? float_0_8); eexists _, _; reflexivity. }
    destruct Hd as (d1 & g2 & Ed).
    erewrite bind_Ok_intro by exact Ed. apply IH; assumption.
Qed.

Lemma place_monsters_zero r d g : place_monsters 0 r d g = Ok (d, g).
Proof. reflexivity. Qed.

Lemma place_entities_total r d mm g :
  0 <= mm -> x1 r + 2 <= x2 r -> y1 r + 2 <= y2 r ->
  exists d' g', place_entities r d mm g = Ok (d', g').
Proof.
  intros Hm Hx Hy. unfold place_entities.
  destruct (randint_total 0 mm g Hm) as [n E].
  erewrite bind_Ok_intro by exact E. apply place_monsters_total; assumption.
Qed.

(** C3, as the code has it.  Each trial of [place_entities] draws its
    position from [[x1+1, x2-1] x [y1+1, y2-1]], both ends included, and
    these candidate positions are exactly the cells of the room's carve
    region [inner()], whose ranges [[x1+1, x2)] and [[y1+1, y2)] are
    half-open: every cell a monster can be placed on lies in the carved
    interior, every cell of the carved interior is a candidate, and every
    entity [place_entities] adds to the map stands on such a cell. *)
Theorem monsters_drawn_from_inner (room : RectangularRoom) :
  (forall c, (exists g g', monster_position room g = Ok (c, g'))
             <-> in_inner room c = true)
  /\ (forall dungeon maximum_monsters g dungeon' g',
        place_entities room dungeon maximum_monsters g = Ok (dungeon', g') ->
        exists added,
          entities dungeon' = entities dungeon ++ added
          /\ Forall (fun e => in_inner room (ent_x e, ent_y e) = true) added).
Proof.
  split.
  - intros c. split.
    + intros (g & g' & H). eapply monster_position_in_inner; exact H.
    + apply inner_is_drawn.
  - intros d mm g d' g' H.
    apply place_entities_extends in H as (_ & _ & _ & H). exact H.
Qed.

(** C3 as stated fails: in the room with [x1 = y1 = 0] and [x2 = y2 = 3]
    the carve region is [{1, 2} x {1, 2}], and no cell of it is out of
    reach of the position draw, so the candidate positions are not a
    proper subset of it. *)
Lemma monster_cells_not_proper_subset :
  let room := new_RectangularRoom 0 0 3 3 in
  ~ exists c, in_inner room c = true
              /\ forall g g', monster_position room g <> Ok (c, g').
Proof.
  intros room (c & Hin & Hno).
  apply inner_is_drawn in Hin as (g & g' & H).
  exact (Hno g g' H).
Qed.

(** ** Lines and tunnels *)

Lemma connected_lookup p : connected p ->
  forall i a b, p !! i = Some a -> p !! S i = Some b -> adjacent a b.
Proof.
  induction p as [|c p IH]; intros Hc i a b Ha Hb; [discriminate|].
  destruct Hc as [Hh Hc]. destruct i as [|i]; simpl in *.
  - inversion Ha; subst. rewrite head_lookup, Hb in Hh. exact Hh.
  - eapply IH; eauto.
Qed.

Lemma connected_app p q :
  connected p -> connected q ->
  (forall a b, last p = Some a -> head q = Some b -> adjacent a b) ->
  connected (p ++ q).
Proof.
  induction p as [|c p IH]; intros Hp Hq Hj; simpl; [exact Hq|].
  destruct Hp as [Hh Hp]. split.
  - destruct p as [|c' p]; simpl in *.
    + destruct (head q) eqn:E; [|exact I]. apply Hj; reflexivity.
    + exact Hh.
  - apply IH; auto. intros a b Ha Hb. apply Hj; [|exact Hb].
    destruct p; [discriminate|]. rewrite last_cons_cons. exact Ha.
Qed.

Lemma adjacent_refl a : adjacent a a.
Proof. unfold adjacent. rewrite !Z.sub_diag. simpl. lia. Qed.

Lemma line_walk_h fuel : forall d,
  hline d -> Z.abs (destx d - origx d) < Z.of_nat fuel ->
  let p := (origx d, origy d) :: line_walk fuel d in
  last p = Some (destx d, origy d) /\ connected p /\ Forall (hcell d) p.
Proof.
  induction fuel as [|fuel IH]; intros d Hd Hf; [lia|].
  destruct Hd as (Hdy & Hsy & He & Hpos & Hs & Hdir).
  simpl. unfold line_step. rewrite Hdy, Hsy, Z.mul_0_l.
  destruct (Z.gtb_spec (stepx d * deltax d) 0) as [_|?]; [|lia].
  destruct (Z.eqb_spec (origx d) (destx d)) as [E|E].
  - simpl. repeat split; try (rewrite E; reflexivity).
    constructor; [|constructor]. unfold hcell, within; simpl. lia.
  - rewrite Z.sub_0_r. destruct (Z.ltb_spec (err d) 0) as [?|_]; [lia|].
    set (d' := mkLine _ _ _ _ _ _ _ _ _).
    assert (Hd' : hline d').
    { unfold hline, d'; simpl. repeat split; try assumption. nia. }
    assert (Hf' : Z.abs (destx d' - origx d') < Z.of_nat fuel).
    { unfold d'; simpl. nia. }
    destruct (IH d' Hd' Hf') as (Hl & Hc & Hall).
    split; [|split; [split|]].
    + rewrite last_cons_cons. exact Hl.
    + simpl. unfold adjacent; simpl. lia.
    + exact Hc.
    + constructor.
      * unfold hcell, within; simpl. lia.
      * eapply Forall_impl; [exact Hall|]. intros c [Hb Hy].
        unfold hcell, within in *. simpl in Hb, Hy.
        split; [nia | exact Hy].
Qed.

Lemma line_walk_v fuel : forall d,
  vline d -> Z.abs (desty d - origy d) < Z.of_nat fuel ->
  let p := (origx d, origy d) :: line_walk fuel d in
  last p = Some (origx d, desty d) /\ connected p /\ Forall (vcell d) p.
Proof.
  induction fuel as [|fuel IH]; intros d Hd Hf; [lia|].
  destruct Hd as (Hdx & Hsx & He & Hpos & Hs & Hdir).
  simpl. unfold line_step. rewrite Hdx, Hsx, Z.mul_0_l.
  destruct (Z.gtb_spec 0 (stepy d * deltay d)) as [?|_]; [lia|].
  destruct (Z.eqb_spec (origy d) (desty d)) as [E|E].
  - simpl. repeat split; try (rewrite E; reflexivity).
    constructor; [|constructor]. unfold vcell, within; simpl. lia.
  - rewrite Z.sub_0_r. destruct (Z.ltb_spec (err d) 0) as [?|_]; [lia|].
    set (d' := mkLine _ _ _ _ _ _ _ _ _).
    assert (Hd' : vline d').
    { unfold vline, d'; simpl. repeat split; try assumption; [lia | nia]. }
    assert (Hf' : Z.abs (desty d' - origy d') < Z.of_nat fuel).
    { unfold d'; simpl. nia. }
    destruct (IH d' Hd' Hf') as (Hl & Hc & Hall).
    split; [|split; [split|]].
    + rewrite last_cons_cons. exact Hl.
    + simpl. unfold adjacent; simpl. lia.
    + exact Hc.
    + constructor.
      * unfold vcell, within; simpl. lia.
      * eapply Forall_impl; [exact Hall|]. intros c [Hx Hb].
        unfold vcell, within in *. simpl in Hb, Hx.
        split; [exact Hx | nia].
Qed.

Lemma bresenham_axis a b :
  fst a = fst b \/ snd a = snd b ->
  let p := bresenham a b in
  head p = Some a /\ last p = Some b /\ connected p /\ Forall (in_box a b) p.
Proof.
  destruct a as [xa ya], b as [xb yb]; simpl. intros Hax.
  split; [reflexivity|].
  set (fuel := Z.to_nat _).
  destruct (Z.eq_dec xa xb) as [Ex|Ex].
  - subst xb.
    assert (Hv : vline (line_init xa ya xa yb)).
    { unfold vline, line_init; simpl. rewrite Z.sub_diag. simpl.
      destruct (Z.lt_trichotomy ya yb) as [Hy|[Hy|Hy]];
        [rewrite Z.sgn_pos by lia | subst yb; rewrite Z.sub_diag; simpl
         | rewrite Z.sgn_neg by lia];
        repeat split; try lia;
        match goal with |- context [?a >? ?b] =>
          destruct (Z.gtb_spec a b); lia end. }
    destruct (line_walk_v fuel _ Hv) as (Hl & Hc & Hall).
    { unfold fuel; simpl. lia. }
    simpl in Hl, Hc, Hall. split; [exact Hl|]. split; [exact Hc|].
    eapply Forall_impl; [exact Hall|]. intros c [Hx Hb].
    unfold in_box, within in *; simpl in *. lia.
  - assert (yb = ya) by (simpl in Hax; lia). subst yb.
    assert (Hh : hline (line_init xa ya xb ya)).
    { unfold hline, line_init; simpl. rewrite Z.sub_diag. simpl.
      destruct (Z.lt_trichotomy xa xb) as [Hx|[Hx|Hx]];
        [rewrite Z.sgn_pos by lia | lia | rewrite Z.sgn_neg by lia];
        repeat split; try lia;
        match goal with |- context [?a >? ?b] =>
          destruct (Z.gtb_spec a b); lia end. }
    destruct (line_walk_h fuel _ Hh) as (Hl & Hc & Hall).
    { unfold fuel; simpl. lia. }
    simpl in Hl, Hc, Hall. split; [exact Hl|]. split; [exact Hc|].
    eapply Forall_impl; [exact Hall|]. intros c [Hb Hy].
    unfold in_box, within in *; simpl in *. lia.
Qed.

(** *** Lines of any slope *)

Lemma line_walk_xmajor fuel : forall a b rx ry d,
  xmajor a b rx ry d -> rx < Z.of_nat fuel ->
  let p := (origx d, origy d) :: line_walk fuel d in
  last p = Some (destx d, desty d) /\ connected p.
Proof.
  induction fuel as [|fuel IH]; intros a b rx ry d Hd Hf;
    destruct Hd as (Hab & Ha & Hb & Hsx & Hsy & Hrx & Ex & Ey & Ee & He);
    [lia|].
  simpl. unfold line_step. rewrite Ha, Hb.
  destruct (Z.gtb_spec (2 * a) (2 * b)) as [_|?]; [|lia].
  destruct (Z.eqb_spec (origx d) (destx d)) as [E|E].
  - assert (rx = 0) by nia. subst rx.
    assert (ry = 0) by nia. subst ry.
    simpl. split; [|split; exact I]. f_equal. f_equal; lia.
  - assert (1 <= rx) by nia.
    set (e := err d - 2 * b).
    set (d' := mkLine _ _ _ _ _ _ _ _ _).
    assert (Hd' : xmajor a b (rx - 1) (if e <? 0 then ry - 1 else ry) d').
    { unfold xmajor, d'; simpl. unfold e.
      destruct (Z.ltb_spec (err d - 2 * b) 0); repeat split; try lia; nia. }
    destruct (IH _ _ _ _ d' Hd' ltac:(lia)) as (Hl & Hc).
    split; [|split].
    + rewrite last_cons_cons. exact Hl.
    + simpl. unfold adjacent; simpl. destruct (e <? 0); lia.
    + exact Hc.
Qed.

Lemma line_walk_ymajor fuel : forall a b rx ry d,
  ymajor a b rx ry d -> ry < Z.of_nat fuel ->
  let p := (origx d, origy d) :: line_walk fuel d in
  last p = Some (destx d, desty d) /\ connected p.
Proof.
  induction fuel as [|fuel IH]; intros a b rx ry d Hd Hf;
    destruct Hd as (Hab & Ha & Hb & Hsx & Hsy & Hry & Ex & Ey & Ee & He & He');
    [lia|].
  simpl. unfold line_step. rewrite Ha, Hb.
  destruct (Z.gtb_spec (2 * a) (2 * b)) as [?|_]; [lia|].
  destruct (Z.eqb_spec (origy d) (desty d)) as [E|E].
  - simpl. split; [|split; exact I]. f_equal. f_equal; [|lia].
    destruct Hsy as [(Hb0 & Hs0 & Hx0)|[Hb0 Hs]].
    + rewrite Hx0 in Ex. lia.
    + assert (ry = 0) by nia. subst ry.
      assert (rx = 0) by nia. subst rx. lia.
  - destruct Hsy as [(Hb0 & Hs0 & _)|[Hb0 Hs]]; [exfalso; rewrite Hs0 in Ey; lia|].
    assert (1 <= ry) by nia.
    set (e := err d - 2 * a).
    set (d' := mkLine _ _ _ _ _ _ _ _ _).
    assert (Hd' : ymajor a b (if e <? 0 then rx - 1 else rx) (ry - 1) d').
    { unfold ymajor, d'; simpl. unfold e.
      destruct (Z.ltb_spec (err d - 2 * a) 0); repeat split;
        try lia; try nia; right; lia. }
    destruct (IH _ _ _ _ d' Hd' ltac:(lia)) as (Hl & Hc).
    split; [|split].
    + rewrite last_cons_cons. exact Hl.
    + simpl. unfold adjacent; simpl. destruct (e <? 0); lia.
    + exact Hc.
Qed.

(** The rasterised line runs from its start to its end by adjacent cells,
    whatever its slope. *)
Lemma bresenham_line a b :
  let p := bresenham a b in
  head p = Some a /\ last p = Some b /\ connected p.
Proof.
  destruct a as [xa ya], b as [xb yb]; simpl.
  split; [reflexivity|].
  set (fuel := Z.to_nat _).
  set (d := line_init xa ya xb yb).
  assert (Hsx : Z.sgn (xb - xa) * (xb - xa) = Z.abs (xb - xa)).
  { destruct (Z.lt_trichotomy xa xb) as [H|[H|H]];
      [rewrite Z.sgn_pos by lia | subst; rewrite Z.sub_diag; reflexivity
       | rewrite Z.sgn_neg by lia]; lia. }
  assert (Hsy : Z.sgn (yb - ya) * (yb - ya) = Z.abs (yb - ya)).
  { destruct (Z.lt_trichotomy ya yb) as [H|[H|H]];
      [rewrite Z.sgn_pos by lia | subst; rewrite Z.sub_diag; reflexivity
       | rewrite Z.sgn_neg by lia]; lia. }
  assert (Hss : forall v, -1 <= Z.sgn v <= 1 /\ (v <> 0 -> Z.sgn v = 1 \/ Z.sgn v = -1)
                          /\ (v = 0 -> Z.sgn v = 0)).
  { intros v. destruct (Z.lt_trichotomy v 0) as [H|[H|H]];
      [rewrite Z.sgn_neg by lia | subst; simpl | rewrite Z.sgn_pos by lia]; lia. }
  destruct (Hss (xb - xa)) as (Bx & Nx & Zx).
  destruct (Hss (yb - ya)) as (By & Ny & Zy).
  destruct (Z_lt_le_dec (Z.abs (yb - ya)) (Z.abs (xb - xa))) as [Hmaj|Hmaj].
  - assert (Hd : xmajor (Z.abs (xb - xa)) (Z.abs (yb - ya))
                   (Z.abs (xb - xa)) (Z.abs (yb - ya)) d).
    { unfold xmajor, d, line_init; simpl. rewrite Hsx, Hsy.
      destruct (Z.gtb_spec (Z.abs (xb - xa)) (Z.abs (yb - ya))) as [_|?]; [|lia].
      repeat split; try lia; try nia. }
    destruct (line_walk_xmajor fuel _ _ _ _ d Hd) as (Hl & Hc).
    { unfold fuel. lia. }
    exact (conj Hl Hc).
  - assert (Hd : ymajor (Z.abs (xb - xa)) (Z.abs (yb - ya))
                   (Z.abs (xb - xa)) (Z.abs (yb - ya)) d).
    { unfold ymajor, d, line_init; simpl. rewrite Hsx, Hsy.
      destruct (Z.gtb_spec (Z.abs (xb - xa)) (Z.abs (yb - ya))) as [?|_]; [lia|].
      repeat split; try lia; try nia. }
    destruct (line_walk_ymajor fuel _ _ _ _ d Hd) as (Hl & Hc).
    { unfold fuel. lia. }
    exact (conj Hl Hc).
Qed.

Lemma tunnel_cells_path coin a b :
  let p := tunnel_cells coin a b in
  head p = Some a /\ last p = Some b /\ connected p /\ Forall (in_box a b) p.
Proof.
  destruct a as [xa ya], b as [xb yb]. unfold tunnel_cells.
  set (corner := if coin then (xb, ya) else (xa, yb)).
  assert (Hc1 : fst (xa, ya) = fst corner \/ snd (xa, ya) = snd corner)
    by (unfold corner; destruct coin; simpl; auto).
  assert (Hc2 : fst corner = fst (xb, yb) \/ snd corner = snd (xb, yb))
    by (unfold corner; destruct coin; simpl; auto).
  assert (Hbox : in_box (xa, ya) (xb, yb) corner)
    by (unfold corner, in_box, within; destruct coin; simpl; lia).
  destruct corner as [cx cy].
  destruct (bresenham_axis _ _ Hc1) as (H1 & L1 & C1 & B1).
  destruct (bresenham_axis _ _ Hc2) as (H2 & L2 & C2 & B2).
  cbv zeta. split; [|split; [|split]].
  - destruct (bresenham (xa, ya) (cx, cy)); [discriminate|]. exact H1.
  - rewrite last_app, L2. reflexivity.
  - apply connected_app; auto. intros u v Hu Hv.
    rewrite L1 in Hu. rewrite H2 in Hv. inversion Hu; inversion Hv; subst.
    apply adjacent_refl.
  - apply Forall_app. split; (eapply Forall_impl; [eassumption|]);
      intros c Hc; unfold in_box, within in *; simpl in *; lia.
Qed.

Lemma tunnel_between_Ok a b g :
  tunnel_between a b g
  = Ok (tunnel_cells (g 0%nat mod 2 ^ 53 <? float_0_5) a b, snd (rng_next g)).
Proof. reflexivity. Qed.

(** C5.  For every pair of endpoints and either outcome of the coin flip,
    the sequence [tunnel_between] produces is a connected path: its first
    cell is [start], its last cell is [end], and consecutive cells differ
    by at most one unit in each axis. *)
Theorem tunnel_between_connected (start_ end_ : Z * Z) :
  (forall coin, path_from_to start_ end_ (tunnel_cells coin start_ end_))
  /\ (forall g, exists path g',
        tunnel_between start_ end_ g = Ok (path, g')
        /\ path_from_to start_ end_ path).
Proof.
  assert (H : forall coin, path_from_to start_ end_ (tunnel_cells coin start_ end_)).
  { intros coin.
    destruct (tunnel_cells_path coin start_ end_) as (Hh & Hl & Hc & _).
    split; [exact Hh|]. split; [exact Hl|]. apply connected_lookup, Hc. }
  split; [exact H|].
  intros g. eexists _, _. split; [apply tunnel_between_Ok | apply H].
Qed.

(** ** The tile array *)

Lemma lookup_update_where {A} (sel : Z -> bool) (f : A -> A) (l : list A) (i : nat) :
  update_where sel f l !! i
  = (fun a => if sel (Z.of_nat i) then f a else a) <$> l !! i.
Proof. unfold update_where. apply list_lookup_imap. Qed.

Lemma cell_at_update (sx sy : Z -> bool) (v : Tile) shp cs i j :
  0 <= i -> 0 <= j ->
  cell_at (mkArray shp (update_where sx (update_where sy (fun _ => v)) cs)) i j
  = (fun t => if sx i && sy j then v else t) <$> cell_at (mkArray shp cs) i j.
Proof.
  intros Hi Hj. unfold cell_at; simpl.
  rewrite lookup_update_where, Z2Nat.id by lia.
  destruct (cs !! Z.to_nat i) as [col|]; simpl; [|reflexivity].
  destruct (sx i); simpl.
  - rewrite lookup_update_where, Z2Nat.id by lia.
    destruct (col !! Z.to_nat j); reflexivity.
  - destruct (col !! Z.to_nat j); reflexivity.
Qed.

Lemma norm_index_inside len i : 0 <= i < len -> norm_index len i = Ok i.
Proof.
  intros H. unfold norm_index.
  destruct (Z.ltb_spec i (- len)) as [?|?]; [lia|].
  destruct (Z.leb_spec len i) as [?|?]; [lia|]. simpl.
  destruct (Z.ltb_spec i 0) as [?|?]; [lia | reflexivity].
Qed.

Lemma norm_index_nonneg len i k :
  0 <= i -> norm_index len i = Ok k -> k = i /\ i < len.
Proof.
  intros H. unfold norm_index.
  destruct (Z.ltb_spec i (- len)) as [?|?]; simpl; [discriminate|].
  destruct (Z.leb_spec len i) as [?|?]; [discriminate|].
  destruct (Z.ltb_spec i 0) as [?|?]; [lia|]. intros E; inversion E; lia.
Qed.

Lemma in_slice_plain len lo hi i :
  0 <= lo -> 0 <= hi <= len -> 0 <= i < len ->
  in_slice len (mkSlice lo hi) i = in_range (mkSlice lo hi) i.
Proof.
  intros Hlo Hhi Hi. unfold in_slice, in_range, clip_bound; simpl.
  destruct (Z.ltb_spec lo 0) as [?|?]; [lia|].
  destruct (Z.ltb_spec hi 0) as [?|?]; [lia|].
  apply eq_true_iff_eq. rewrite !andb_true_iff, !Z.leb_le, !Z.ltb_lt. lia.
Qed.

Lemma np_full_tiles w h a :
  np_full (w, h) wall = Ok a -> tiles_are a w h (fun _ => false).
Proof.
  unfold np_full.
  destruct (Z.ltb_spec w 0) as [?|?]; [discriminate|].
  destruct (Z.ltb_spec h 0) as [?|?]; [discriminate|]. simpl.
  intros E; inversion E; subst; clear E. split; [reflexivity|].
  intros i j Hi Hj. unfold cell_at; simpl.
  rewrite lookup_replicate_2 by lia. simpl.
  apply lookup_replicate_2. lia.
Qed.

Lemma tiles_are_ext a w h f f' :
  (forall c, cell_in w h c -> f c = f' c) ->
  tiles_are a w h f -> tiles_are a w h f'.
Proof.
  intros E [Hs Hc]. split; [exact Hs|].
  intros i j Hi Hj. rewrite <- E by (split; assumption).
  apply Hc; assumption.
Qed.

Lemma setslice_tiles a w h f sx sy :
  tiles_are a w h f ->
  tiles_are (setslice (sx, sy) floor a) w h
    (fun c => in_slice w sx (fst c) && in_slice h sy (snd c) || f c).
Proof.
  intros [Hs Hc]. destruct a as [shp cs]. simpl in Hs. subst shp.
  unfold setslice; simpl. split; [reflexivity|].
  intros i j Hi Hj. rewrite cell_at_update by lia.
  rewrite (Hc i j Hi Hj). simpl.
  destruct (in_slice w sx i && in_slice h sy j); reflexivity.
Qed.

Lemma setitem_shape x y v a a' : setitem x y v a = Ok a' -> shape a' = shape a.
Proof.
  unfold setitem. destruct (shape a) as [w h] eqn:Es. intros H.
  apply rbind_Ok in H as (i & _ & H). apply rbind_Ok in H as (j & _ & H).
  inversion H; subst. reflexivity.
Qed.

Lemma setitem_tiles a w h f x y a' :
  0 <= x -> 0 <= y ->
  tiles_are a w h f -> setitem x y floor a = Ok a' ->
  x < w /\ y < h /\ tiles_are a' w h (fun c => cell_eqb c (x, y) || f c).
Proof.
  intros Hx Hy [Hs Hc]. destruct a as [shp cs]. simpl in Hs. subst shp.
  unfold setitem; simpl. intros H.
  apply rbind_Ok in H as (i & Ei & H). apply rbind_Ok in H as (j & Ej & H).
  apply norm_index_nonneg in Ei as [-> Hxw]; [|exact Hx].
  apply norm_index_nonneg in Ej as [-> Hyh]; [|exact Hy].
  inversion H; subst a'; clear H.
  split; [exact Hxw|]. split; [exact Hyh|]. split; [reflexivity|].
  intros i j Hi Hj. rewrite cell_at_update by lia.
  rewrite (Hc i j Hi Hj). simpl. unfold cell_eqb; simpl.
  rewrite (Z.eqb_sym x i), (Z.eqb_sym y j).
  destruct ((i =? x) && (j =? y)); reflexivity.
Qed.

Lemma setitem_total a w h x y v :
  shape a = (w, h) -> 0 <= x < w -> 0 <= y < h ->
  exists a', setitem x y v a = Ok a'.
Proof.
  intros Hs Hx Hy. unfold setitem. rewrite Hs.
  rewrite !norm_index_inside by assumption. simpl. eauto.
Qed.

Lemma carve_tiles path : forall a w h f a',
  Forall nonneg_cell path ->
  tiles_are a w h f -> carve path a = Ok a' ->
  Forall (cell_in w h) path /\ tiles_are a' w h (fun c => on_path c path || f c).
Proof.
  induction path as [|[x y] path IH]; intros a w h f a' Hnn Ht H; simpl in H.
  - inversion H; subst. split; [constructor|]. exact Ht.
  - apply rbind_Ok in H as (a1 & E1 & H).
    inversion Hnn as [|? ? [Hx Hy] Hnn']; subst. simpl in Hx, Hy.
    destruct (setitem_tiles _ _ _ _ _ _ _ Hx Hy Ht E1) as (Hxw & Hyh & Ht1).
    destruct (IH _ _ _ _ _ Hnn' Ht1 H) as (Hin & Ht2).
    split.
    + constructor; [unfold cell_in; simpl; lia | exact Hin].
    + eapply tiles_are_ext; [|exact Ht2]. intros c _; simpl.
      destruct (cell_eqb c (x, y)), (on_path c path); reflexivity.
Qed.

Lemma carve_total path : forall a w h,
  shape a = (w, h) -> Forall (cell_in w h) path ->
  exists a', carve path a = Ok a'.
Proof.
  induction path as [|[x y] path IH]; intros a w h Hs Hin; simpl.
  - eauto.
  - inversion Hin as [|? ? [Hx Hy] Hin']; subst. simpl in Hx, Hy.
    destruct (setitem_total a w h x y floor Hs Hx Hy) as [a1 E1].
    rewrite E1; simpl. apply (IH a1 w h); [|exact Hin'].
    rewrite (setitem_shape _ _ _ _ _ E1). exact Hs.
Qed.

Lemma getitem_tiles a w h f i j :
  tiles_are a w h f -> 0 <= i < w -> 0 <= j < h ->
  getitem i j a = Ok (if f (i, j) then floor else wall).
Proof.
  intros [Hs Hc] Hi Hj. unfold getitem. rewrite Hs.
  rewrite !norm_index_inside by assumption. simpl.
  rewrite (Hc i j Hi Hj). reflexivity.
Qed.

Lemma carve_shape path : forall a a', carve path a = Ok a' -> shape a' = shape a.
Proof.
  induction path as [|[x y] path IH]; intros a a' H; simpl in H.
  - inversion H; reflexivity.
  - apply rbind_Ok in H as (a1 & E1 & H).
    rewrite (IH _ _ H). eapply setitem_shape; exact E1.
Qed.

Lemma setslice_shape sl v a : shape (setslice sl v a) = shape a.
Proof. destruct sl as [sx sy]. unfold setslice. destruct (shape a); reflexivity. Qed.

(** ** The generation loop *)

Lemma attempt_step mn mx mm st g st' g' :
  attempt mn mx mm st g = Ok (st', g') -> step mn mx st st'.
Proof.
  unfold attempt. intros H.
  apply bind_Ok in H as (w & g1 & Hw & H). apply randint_Ok in Hw as [Hw _].
  apply bind_Ok in H as (h & g2 & Hh & H). apply randint_Ok in Hh as [Hh _].
  apply bind_Ok in H as (x & g3 & Hx & H). apply randint_Ok in Hx as [Hx _].
  apply bind_Ok in H as (y & g4 & Hy & H). apply randint_Ok in Hy as [Hy _].
  exists (new_RectangularRoom x y w h). split.
  { exists w, h. simpl. repeat split; lia. }
  set (new := new_RectangularRoom x y w h) in *.
  change (existsb (fun other_room => intersects new other_room) (rooms st))
    with (existsb (intersects new) (rooms st)) in H.
  destruct (existsb (intersects new) (rooms st)).
  { apply ret_Ok in H as [-> _]. reflexivity. }
  apply bind_Ok in H as ([d2 paths] & g5 & Hdug & H).
  apply bind_Ok in H as (d3 & g6 & Hpl & H).
  apply ret_Ok in H as [-> _].
  exists d2, paths, d3. split; [|split; [|reflexivity]].
  - unfold dug. destruct (last (rooms st)) as [previous|].
    + apply bind_Ok in Hdug as (from & g7 & Hf & Hdug). apply lift_Ok in Hf as [Hf _].
      apply bind_Ok in Hdug as (to & g8 & Ht & Hdug). apply lift_Ok in Ht as [Ht _].
      apply bind_Ok in Hdug as (path & g9 & Hp & Hdug).
      rewrite tunnel_between_Ok in Hp. inversion Hp; subst path g9; clear Hp.
      apply bind_Ok in Hdug as (a & g10 & Ha & Hdug). apply lift_Ok in Ha as [Ha _].
      apply ret_Ok in Hdug as [E _]. inversion E; subst.
      eexists from, to, _, a. repeat split; assumption.
    + apply bind_Ok in Hdug as ([cx cy] & g7 & Hc & Hdug). apply lift_Ok in Hc as [Hc _].
      apply ret_Ok in Hdug as [E _]. inversion E; subst.
      exists (cx, cy). repeat split; assumption.
  - eapply place_entities_extends; exact Hpl.
Qed.

Lemma attempts_preserve mn mx mm (P : GenState -> Prop) :
  (forall st st', P st -> step mn mx st st' -> P st') ->
  forall n st g st' g',
    P st -> attempts mn mx mm n st g = Ok (st', g') -> P st'.
Proof.
  intros Hstep n. induction n as [|n IH]; intros st g st' g' HP H; simpl in H.
  - apply ret_Ok in H as [-> _]. exact HP.
  - apply bind_Ok in H as (st1 & g1 & H1 & H).
    eapply IH; [|exact H]. eapply Hstep; [exact HP|].
    eapply attempt_step; exact H1.
Qed.

Lemma dug_frame st new d2 paths :
  dug st new d2 paths ->
  width d2 = width (dungeon st) /\ height d2 = height (dungeon st)
  /\ shape (tiles d2) = shape (tiles (dungeon st))
  /\ match last (rooms st) with
     | None =>
         paths = []
         /\ exists c, center new = Ok c
            /\ entities d2 = match entities (dungeon st) with
                             | [] => []
                             | p :: others => move_to (fst c) (snd c) p :: others
                             end
     | Some _ => length paths = 1%nat /\ entities d2 = entities (dungeon st)
     end.
Proof.
  unfold dug. destruct (last (rooms st)) as [previous|].
  - intros (from & to & coin & a & _ & _ & Ha & -> & ->).
    apply carve_shape in Ha. unfold with_tiles in *.
    cbn [width height tiles entities] in *.
    rewrite setslice_shape in Ha. auto.
  - intros (c & Hc & -> & ->). unfold place, with_entities, with_tiles.
    cbn [width height tiles entities]. rewrite setslice_shape.
    repeat split. exists c. auto.
Qed.

Lemma not_intersects_any new rs :
  existsb (intersects new) rs = false ->
  forall i r, rs !! i = Some r -> intersects new r = false.
Proof.
  intros H i r Hr. destruct (intersects new r) eqn:E; [|reflexivity].
  assert (existsb (intersects new) rs = true); [|congruence].
  apply existsb_exists. exists r. split; [|exact E].
  apply list_elem_of_In. eapply list_elem_of_lookup_2; exact Hr.
Qed.

Lemma drawn_on_fits mn mx w h r :
  drawn_on mn mx w h r ->
  room_fits w h r /\ x1 r + mn <= x2 r /\ y1 r + mn <= y2 r.
Proof.
  intros (rw & rh & Hrw & Hrh & Hx & Hy & Ex2 & Ey2). unfold room_fits. lia.
Qed.

Lemma layout_step mn mx w h p0 st st' :
  layout mn mx w h p0 st -> step mn mx st st' -> layout mn mx w h p0 st'.
Proof.
  intros Hl (new & Hdrawn & Hcase).
  destruct (existsb (intersects new) (rooms st)) eqn:Eint; [subst st'; exact Hl|].
  destruct Hcase as (d2 & paths & d3 & Hdug & Hext & ->).
  destruct Hl as (Hw & Hh & Hs & Hfit & Hdisj & Hlen & Hpl).
  rewrite Hw, Hh in Hdrawn.
  apply dug_frame in Hdug as (Hw2 & Hh2 & Hs2 & Hd2).
  destruct Hext as (Hw3 & Hh3 & Ht3 & added & He3 & _).
  unfold layout; simpl.
  split; [congruence|]. split; [congruence|]. split; [congruence|].
  split; [|split; [|split]].
  - apply Forall_app. split; [exact Hfit|].
    constructor; [exact Hdrawn|constructor].
  - intros i j a b Hij Ha Hb.
    apply lookup_snoc_Some in Ha as [[Hi Ha]|[Hi <-]];
      apply lookup_snoc_Some in Hb as [[Hj Hb]|[Hj <-]].
    + eapply Hdisj; eauto.
    + rewrite intersects_sym. eapply not_intersects_any; eauto.
    + eapply not_intersects_any; eauto.
    + lia.
  - rewrite !length_app; simpl.
    destruct (last (rooms st)) eqn:El.
    + destruct Hd2 as [-> _].
      assert (rooms st <> []) by (intros E; rewrite E in El; discriminate).
      destruct (rooms st); [congruence|]. simpl in *. lia.
    + destruct Hd2 as [-> _]. apply last_None in El. rewrite El in *.
      simpl in *. lia.
  - destruct (last (rooms st)) eqn:El.
    + destruct Hd2 as [_ He2].
      assert (Hne : rooms st <> []) by (intros E; rewrite E in El; discriminate).
      destruct (rooms st) as [|r0 rest]; [congruence|]. simpl in *.
      destruct Hpl as (c & Hc & Hhead). exists c. split; [exact Hc|].
      rewrite He3, He2. destruct (entities (dungeon st)); [discriminate|].
      exact Hhead.
    + destruct Hd2 as [_ (c & Hc & He2)]. apply last_None in El.
      rewrite El in *. simpl in *. exists c. split; [exact Hc|].
      rewrite He3, He2. destruct (entities (dungeon st)); [discriminate|].
      simpl in *. congruence.
Qed.

Lemma carved_snoc st new paths d3 c :
  carved {| dungeon := d3; rooms := rooms st ++ [new];
            corridors := corridors st ++ paths |} c
  = in_inner new c || existsb (on_path c) paths || carved st c.
Proof.
  unfold carved; simpl. rewrite !existsb_app; simpl.
  destruct (existsb (fun r => in_inner r c) (rooms st)),
    (in_inner new c), (existsb (on_path c) (corridors st)),
    (existsb (on_path c) paths); reflexivity.
Qed.

Lemma center_nonneg r c :
  0 <= x1 r + x2 r -> 0 <= y1 r + y2 r -> center r = Ok c -> nonneg_cell c.
Proof.
  intros Hx Hy Hc. apply center_Ok in Hc as [Cx Cy].
  split; [apply (int_truediv2_nonneg (x1 r + x2 r)) | apply (int_truediv2_nonneg (y1 r + y2 r))];
    assumption.
Qed.

Lemma in_box_nonneg a b c :
  nonneg_cell a -> nonneg_cell b -> in_box a b c -> nonneg_cell c.
Proof. unfold nonneg_cell, in_box, within. lia. Qed.

Lemma in_box_cell_in w h a b c :
  cell_in w h a -> cell_in w h b -> in_box a b c -> cell_in w h c.
Proof. unfold cell_in, in_box, within. lia. Qed.

Lemma carving_step mn mx w h p0 st st' :
  0 <= mn ->
  layout mn mx w h p0 st -> carving w h st -> step mn mx st st' ->
  carving w h st'.
Proof.
  intros Hmn Hl [Ht Hcor] (new & Hdrawn & Hcase).
  destruct (existsb (intersects new) (rooms st)) eqn:Eint;
    [subst st'; split; assumption|].
  destruct Hcase as (d2 & paths & d3 & Hdug & Hext & ->).
  destruct Hl as (Hw & Hh & Hs & Hfit & _).
  rewrite Hw, Hh in Hdrawn.
  destruct (drawn_on_fits _ _ _ _ _ Hdrawn) as ((Nx1 & Nx2 & Ny1 & Ny2) & Nsx & Nsy).
  destruct Hext as (_ & _ & Ht3 & _).
  assert (Ht1 : tiles_are (setslice (inner new) floor (tiles (dungeon st))) w h
                  (fun c => in_inner new c || carved st c)).
  { eapply tiles_are_ext; [|apply setslice_tiles; exact Ht].
    intros c [Hc1 Hc2]. cbn beta. f_equal. unfold in_inner, inner.
    rewrite !in_slice_plain by lia. reflexivity. }
  unfold dug in Hdug. unfold carving. cbn [dungeon corridors].
  destruct (last (rooms st)) as [previous|] eqn:El.
  - destruct Hdug as (from & to & coin & a & Hf & Hto & Ha & -> & ->).
    unfold with_tiles in Ha, Ht3; cbn [tiles] in Ha, Ht3. rewrite Ht3.
    assert (Hprev : drawn_on mn mx w h previous).
    { apply last_Some_elem_of in El. eapply Forall_forall in Hfit; eauto. }
    destruct (drawn_on_fits _ _ _ _ _ Hprev) as ((Px1 & Px2 & Py1 & Py2) & Psx & Psy).
    assert (Hnf : nonneg_cell from) by (eapply center_nonneg; [| |exact Hf]; lia).
    assert (Hnt : nonneg_cell to) by (eapply center_nonneg; [| |exact Hto]; lia).
    destruct (tunnel_cells_path coin from to) as (_ & _ & _ & Hbox).
    assert (Hnn : Forall nonneg_cell (tunnel_cells coin from to)).
    { eapply Forall_impl; [exact Hbox|]. intros c. apply in_box_nonneg; assumption. }
    destruct (carve_tiles _ _ _ _ _ _ Hnn Ht1 Ha) as [Hin Hta].
    split.
    + eapply tiles_are_ext; [|exact Hta]. intros c _.
      rewrite carved_snoc. simpl. rewrite orb_false_r.
      destruct (on_path c (tunnel_cells coin from to)), (in_inner new c);
        reflexivity.
    + apply Forall_app. split; [exact Hcor|]. constructor; [exact Hin|constructor].
  - destruct Hdug as (c0 & _ & -> & ->).
    unfold place, with_entities, with_tiles in Ht3; cbn [tiles] in Ht3.
    rewrite Ht3. split.
    + eapply tiles_are_ext; [|exact Ht1]. intros c _.
      rewrite carved_snoc. simpl. rewrite orb_false_r. reflexivity.
    + rewrite app_nil_r. exact Hcor.
Qed.

(** ** Whole runs *)

Lemma generate_dungeon_state_Ok n mn mx w h mm engine g st g' :
  generate_dungeon_state n mn mx w h mm engine g = Ok (st, g') ->
  exists d0, new_GameMap w h [player engine] = Ok d0
             /\ attempts mn mx mm (Z.to_nat n) (initial d0) g = Ok (st, g').
Proof.
  unfold generate_dungeon_state. intros H.
  apply bind_Ok in H as (d0 & g1 & Hd & H). apply lift_Ok in Hd as [Hd ->].
  exists d0. split; assumption.
Qed.

Lemma generate_dungeon_Ok n mn mx w h mm engine g d g' :
  generate_dungeon n mn mx w h mm engine g = Ok (d, g') ->
  exists st, generate_dungeon_state n mn mx w h mm engine g = Ok (st, g')
             /\ dungeon st = d.
Proof.
  unfold generate_dungeon. intros H.
  apply bind_Ok in H as (st & g1 & Hst & H). apply ret_Ok in H as [-> ->].
  exists st. split; [exact Hst | reflexivity].
Qed.

Lemma new_GameMap_Ok w h ents d :
  new_GameMap w h ents = Ok d ->
  width d = w /\ height d = h /\ entities d = ents
  /\ tiles_are (tiles d) w h (fun _ => false).
Proof.
  unfold new_GameMap. intros H. apply rbind_Ok in H as (a & Ha & H).
  inversion H; subst; clear H. simpl. repeat split.
  - apply np_full_tiles in Ha. apply Ha.
  - apply np_full_tiles in Ha. apply Ha.
Qed.

Lemma initial_layout mn mx w h p0 d :
  new_GameMap w h [p0] = Ok d -> layout mn mx w h p0 (initial d).
Proof.
  intros H. apply new_GameMap_Ok in H as (Hw & Hh & He & Hs & _).
  unfold layout; simpl. rewrite He. repeat split; auto.
  intros i j a b _ Ha. discriminate.
Qed.

Lemma initial_carving w h p0 d :
  new_GameMap w h [p0] = Ok d -> carving w h (initial d).
Proof.
  intros H. apply new_GameMap_Ok in H as (_ & _ & _ & Ht).
  split; [exact Ht | constructor].
Qed.

Lemma run_layout n mn mx w h mm engine g st g' :
  generate_dungeon_state n mn mx w h mm engine g = Ok (st, g') ->
  layout mn mx w h (player engine) st.
Proof.
  intros H. apply generate_dungeon_state_Ok in H as (d0 & Hd & H).
  eapply (attempts_preserve mn mx mm (layout mn mx w h (player engine))); [| |exact H].
  - intros s s'. apply layout_step.
  - apply initial_layout. exact Hd.
Qed.

Lemma run_carving n mn mx w h mm engine g st g' :
  0 <= mn ->
  generate_dungeon_state n mn mx w h mm engine g = Ok (st, g') ->
  carving w h st.
Proof.
  intros Hmn H. apply generate_dungeon_state_Ok in H as (d0 & Hd & H).
  apply (attempts_preserve mn mx mm
           (fun s => layout mn mx w h (player engine) s /\ carving w h s)
           ) with (n := Z.to_nat n) (st := initial d0) (g := g) (g' := g') (st' := st).
  - intros s s' [Hl Hc] Hs. split.
    + eapply layout_step; eauto.
    + eapply carving_step; eauto.
  - split; [apply initial_layout | eapply initial_carving]; exact Hd.
  - exact H.
Qed.

Lemma on_path_In c p : on_path c p = true <-> In c p.
Proof.
  unfold on_path. rewrite existsb_exists. split.
  - intros (c' & Hin & E). unfold cell_eqb in E.
    apply andb_true_iff in E as [E1 E2].
    apply Z.eqb_eq in E1, E2. destruct c, c'; simpl in *; subst. exact Hin.
  - intros Hin. exists c. split; [exact Hin|]. unfold cell_eqb.
    rewrite !Z.eqb_refl. reflexivity.
Qed.

Lemma carved_false st c :
  (forall r, In r (rooms st) -> in_inner r c = false) ->
  (forall p, In p (corridors st) -> ~ In c p) ->
  carved st c = false.
Proof.
  intros Hr Hp. unfold carved. apply orb_false_iff. split.
  - destruct (existsb _ (rooms st)) eqn:E; [|reflexivity].
    apply existsb_exists in E as (r & Hin & E). rewrite (Hr r Hin) in E. discriminate.
  - destruct (existsb _ (corridors st)) eqn:E; [|reflexivity].
    apply existsb_exists in E as (p & Hin & E). apply on_path_In in E.
    destruct (Hp p Hin E).
Qed.

Lemma carved_room st r c :
  In r (rooms st) -> in_inner r c = true -> carved st c = true.
Proof.
  intros Hin Hc. unfold carved. apply orb_true_iff. left.
  apply existsb_exists. exists r. auto.
Qed.

Lemma inner_in_grid w h r c :
  room_fits w h r -> in_inner r c = true -> cell_in w h c.
Proof.
  intros (Hx1 & Hx2 & Hy1 & Hy2) Hc. apply in_inner_spec in Hc.
  unfold cell_in. lia.
Qed.

(** ** Centers and termination with a result *)

Lemma pow2_53 : 2 ^ 53 = 9007199254740992.
Proof. reflexivity. Qed.
Lemma pow2_52 : 2 ^ 52 = 4503599627370496.
Proof. reflexivity. Qed.

(** On a map of at most 2^52 columns and rows, the center of a drawn room
    is its exact midpoint. *)
Lemma drawn_center mn mx w h r :
  0 <= mn -> w <= 2 ^ 52 -> h <= 2 ^ 52 ->
  drawn_on mn mx w h r ->
  center r = Ok ((x1 r + x2 r) / 2, (y1 r + y2 r) / 2)
  /\ x1 r <= (x1 r + x2 r) / 2 <= x2 r
  /\ y1 r <= (y1 r + y2 r) / 2 <= y2 r.
Proof.
  intros Hmn Hw Hh Hd. rewrite pow2_52 in Hw, Hh.
  destruct (drawn_on_fits _ _ _ _ _ Hd) as ((Hx1 & Hx2 & Hy1 & Hy2) & Hsx & Hsy).
  split; [apply center_midpoint; rewrite pow2_53; lia|].
  split.
  - pose proof (Z.div_mod (x1 r + x2 r) 2 ltac:(lia)).
    pose proof (Z.mod_pos_bound (x1 r + x2 r) 2 ltac:(lia)). lia.
  - pose proof (Z.div_mod (y1 r + y2 r) 2 ltac:(lia)).
    pose proof (Z.mod_pos_bound (y1 r + y2 r) 2 ltac:(lia)). lia.
Qed.

Lemma drawn_center_in_grid mn mx w h r :
  0 <= mn -> w <= 2 ^ 52 -> h <= 2 ^ 52 ->
  drawn_on mn mx w h r ->
  exists c, center r = Ok c /\ cell_in w h c.
Proof.
  intros Hmn Hw Hh Hd.
  destruct (drawn_center _ _ _ _ _ Hmn Hw Hh Hd) as (Hc & Hx & Hy).
  destruct (drawn_on_fits _ _ _ _ _ Hd) as ((Hx1 & Hx2 & Hy1 & Hy2) & _).
  eexists. split; [exact Hc|]. unfold cell_in; simpl. lia.
Qed.

Lemma lift_Ok_intro {A} (r : result A) (a : A) g :
  r = Ok a -> lift r g = Ok (a, g).
Proof. intros ->. reflexivity. Qed.

Lemma attempt_total mn mx mm w h p0 st g :
  2 <= mn <= mx -> mx < w <= 2 ^ 52 -> mx < h <= 2 ^ 52 -> 0 <= mm ->
  layout mn mx w h p0 st ->
  exists st' g', attempt mn mx mm st g = Ok (st', g').
Proof.
  intros Hmn Hw Hh Hmm (Ew & Eh & Hs & Hfit & _).
  unfold attempt. rewrite Ew, Eh.
  destruct (randint_total mn mx g ltac:(lia)) as [rw Erw].
  erewrite bind_Ok_intro by exact Erw. apply randint_Ok in Erw as [Hrw _].
  set (g1 := snd (rng_next g)).
  destruct (randint_total mn mx g1 ltac:(lia)) as [rh Erh].
  erewrite bind_Ok_intro by exact Erh. apply randint_Ok in Erh as [Hrh _].
  set (g2 := snd (rng_next g1)).
  destruct (randint_total 0 (w - rw - 1) g2 ltac:(lia)) as [x Ex].
  erewrite bind_Ok_intro by exact Ex. apply randint_Ok in Ex as [Hx _].
  set (g3 := snd (rng_next g2)).
  destruct (randint_total 0 (h - rh - 1) g3 ltac:(lia)) as [y Ey].
  erewrite bind_Ok_intro by exact Ey. apply randint_Ok in Ey as [Hy _].
  set (g4 := snd (rng_next g3)).
  set (new := new_RectangularRoom x y rw rh).
  destruct (existsb _ (rooms st)); [eexists _, _; reflexivity|].
  assert (Hnew : drawn_on mn mx w h new).
  { exists rw, rh. simpl. repeat split; lia. }
  destruct (drawn_center_in_grid mn mx w h new ltac:(lia) (proj2 Hw) (proj2 Hh) Hnew)
    as (cn & Hcn & Hgn).
  set (d1 := with_tiles (dungeon st) _).
  assert (Hdig : exists d2 paths g5,
    (match last (rooms st) with
     | None => let* (cx, cy) := lift (center new) in ret (place cx cy d1, [])
     | Some previous =>
         let* from := lift (center previous) in
         let* to := lift (center new) in
         let* path := tunnel_between from to in
         let* a := lift (carve path (tiles d1)) in
         ret (with_tiles d1 a, [path])
     end) g4 = Ok ((d2, paths), g5)).
  { destruct (last (rooms st)) as [previous|] eqn:El.
    - assert (Hprev : drawn_on mn mx w h previous).
      { apply last_Some_elem_of in El. eapply Forall_forall in Hfit; eauto. }
      destruct (drawn_center_in_grid mn mx w h previous ltac:(lia) (proj2 Hw) (proj2 Hh) Hprev)
        as (cp & Hcp & Hgp).
      erewrite bind_Ok_intro by (apply lift_Ok_intro; exact Hcp).
      erewrite bind_Ok_intro by (apply lift_Ok_intro; exact Hcn).
      erewrite bind_Ok_intro by apply tunnel_between_Ok.
      set (path := tunnel_cells _ cp cn).
      destruct (carve_total path (tiles d1) w h) as [a Ea].
      { unfold d1, with_tiles; cbn [tiles]. rewrite setslice_shape. exact Hs. }
      { destruct (tunnel_cells_path (g4 0%nat mod 2 ^ 53 <? float_0_5) cp cn)
          as (_ & _ & _ & Hbox).
        eapply Forall_impl; [exact Hbox|]. intros c.
        apply in_box_cell_in; assumption. }
      erewrite bind_Ok_intro by (apply lift_Ok_intro; exact Ea).
      eexists _, _, _. reflexivity.
    - erewrite bind_Ok_intro by (apply lift_Ok_intro; exact Hcn).
      destruct cn. eexists _, _, _. reflexivity. }
  destruct Hdig as (d2 & paths & g5 & Edig).
  erewrite bind_Ok_intro by exact Edig.
  destruct (place_entities_total new d2 mm g5 Hmm) as (d3 & g6 & Epl);
    [simpl; lia | simpl; lia |].
  erewrite bind_Ok_intro by exact Epl.
  eexists _, _. reflexivity.
Qed.

Lemma attempts_total mn mx mm w h p0 n : forall st g,
  2 <= mn <= mx -> mx < w <= 2 ^ 52 -> mx < h <= 2 ^ 52 -> 0 <= mm ->
  layout mn mx w h p0 st ->
  exists st' g', attempts mn mx mm n st g = Ok (st', g').
Proof.
  induction n as [|n IH]; intros st g Hmn Hw Hh Hmm Hl; simpl.
  - eexists _, _. reflexivity.
  - destruct (attempt_total mn mx mm w h p0 st g Hmn Hw Hh Hmm Hl) as (st1 & g1 & E1).
    erewrite bind_Ok_intro by exact E1.
    apply IH; try assumption.
    eapply layout_step; [exact Hl|]. eapply attempt_step; exact E1.
Qed.

Lemma new_GameMap_total w h ents :
  0 <= w -> 0 <= h -> exists d, new_GameMap w h ents = Ok d.
Proof.
  intros Hw Hh. unfold new_GameMap, np_full.
  destruct (Z.ltb_spec w 0) as [?|?]; [lia|].
  destruct (Z.ltb_spec h 0) as [?|?]; [lia|]. simpl. eauto.
Qed.

(** Within the input contract, with rooms at least two tiles wide and
    high, generation returns a map. *)
Lemma generate_dungeon_state_total n mn mx w h mm engine g :
  2 <= mn <= mx -> mx < w <= 2 ^ 52 -> mx < h <= 2 ^ 52 -> 0 <= mm ->
  exists st g', generate_dungeon_state n mn mx w h mm engine g = Ok (st, g').
Proof.
  intros Hmn Hw Hh Hmm. unfold generate_dungeon_state.
  destruct (new_GameMap_total w h [player engine]) as [d0 Ed]; [lia | lia |].
  unfold bind at 1. unfold lift. rewrite Ed.
  apply (attempts_total mn mx mm w h (player engine)); try assumption.
  apply initial_layout. exact Ed.
Qed.

(** From the empty list of rooms, an attempt always accepts its room. *)
Lemma first_step mn mx d0 st p0 :
  head (entities d0) = Some p0 ->
  step mn mx (initial d0) st ->
  exists room c,
    rooms st = [room] /\ corridors st = []
    /\ center room = Ok c
    /\ head (entities (dungeon st)) = Some (move_to (fst c) (snd c) p0).
Proof.
  intros Hp (new & _ & Hcase). simpl in Hcase.
  destruct Hcase as (d2 & paths & d3 & Hdug & Hext & ->).
  apply dug_frame in Hdug as (_ & _ & _ & Hd2). simpl in Hd2.
  destruct Hd2 as (-> & c & Hc & He2).
  destruct Hext as (_ & _ & _ & added & He3 & _).
  exists new, c. simpl. repeat split; [exact Hc|].
  rewrite He3, He2. destruct (entities d0); [discriminate|].
  simpl in *. congruence.
Qed.

Lemma center_in_inner r :
  0 <= x1 r -> 0 <= y1 r -> x2 r - x1 r >= 2 -> y2 r - y1 r >= 2 ->
  x1 r + x2 r <= 2 ^ 53 -> y1 r + y2 r <= 2 ^ 53 ->
  exists c, center r = Ok c /\ in_inner r c = true.
Proof.
  intros Hx1 Hy1 Hx Hy Bx By.
  eexists. split; [apply center_midpoint; lia|].
  apply in_inner_spec. simpl.
  pose proof (Z.div_mod (x1 r + x2 r) 2 ltac:(lia)).
  pose proof (Z.mod_pos_bound (x1 r + x2 r) 2 ltac:(lia)).
  pose proof (Z.div_mod (y1 r + y2 r) 2 ltac:(lia)).
  pose proof (Z.mod_pos_bound (y1 r + y2 r) 2 ltac:(lia)). lia.
Qed.


(** ** Dependence on the random stream *)

Lemma same_draws_next g1 g2 :
  same_draws g1 g2 ->
  fst (rng_next g1) = fst (rng_next g2)
  /\ same_draws (snd (rng_next g1)) (snd (rng_next g2)).
Proof. intros H. split; [apply H | intros n; apply H]. Qed.

Lemma draws_only_ret {A} (a : A) : draws_only (ret a).
Proof. intros g1 g2 H. simpl. auto. Qed.

Lemma draws_only_lift {A} (r : result A) : draws_only (lift r).
Proof. intros g1 g2 H. unfold lift. destruct r; simpl; auto. Qed.

Lemma draws_only_bind {A B} (m : M A) (k : A -> M B) :
  draws_only m -> (forall a, draws_only (k a)) -> draws_only (bind m k).
Proof.
  intros Hm Hk g1 g2 H. unfold bind. specialize (Hm g1 g2 H).
  destruct (m g1) as [[a1 h1]|e1], (m g2) as [[a2 h2]|e2]; simpl in Hm;
    try contradiction.
  - destruct Hm as [-> Hh]. apply Hk. exact Hh.
  - exact Hm.
Qed.

Lemma draws_only_randint a b : draws_only (randint a b).
Proof.
  intros g1 g2 H. unfold randint. destruct (b <? a); [reflexivity|].
  destruct (same_draws_next g1 g2 H) as [E Hn]. simpl in *.
  rewrite E. split; [reflexivity | exact Hn].
Qed.

Lemma draws_only_random : draws_only random.
Proof.
  intros g1 g2 H. unfold random.
  destruct (same_draws_next g1 g2 H) as [E Hn]. simpl in *.
  rewrite E. split; [reflexivity | exact Hn].
Qed.

Lemma draws_only_monster_position r : draws_only (monster_position r).
Proof.
  unfold monster_position.
  apply draws_only_bind; [apply draws_only_randint|]. intros x.
  apply draws_only_bind; [apply draws_only_randint|]. intros y.
  apply draws_only_ret.
Qed.

Lemma draws_only_place_monsters n : forall r d, draws_only (place_monsters n r d).
Proof.
  induction n as [|n IH]; intros r d; simpl.
  - apply draws_only_ret.
  - apply draws_only_bind; [apply draws_only_monster_position|]. intros [x y].
    apply draws_only_bind; [|intros d'; apply IH].
    destruct (negb (occupied d x y)); [|apply draws_only_ret].
    apply draws_only_bind; [apply draws_only_random|]. intros u.
    destruct (u <? float_0_8); apply draws_only_ret.
Qed.

Lemma draws_only_place_entities r d mm : draws_only (place_entities r d mm).
Proof.
  unfold place_entities.
  apply draws_only_bind; [apply draws_only_randint|]. intros n.
  apply draws_only_place_monsters.
Qed.

Lemma draws_only_tunnel_between a b : draws_only (tunnel_between a b).
Proof.
  unfold tunnel_between.
  apply draws_only_bind; [apply draws_only_random|]. intros u.
  apply draws_only_ret.
Qed.

Lemma draws_only_attempt mn mx mm st : draws_only (attempt mn mx mm st).
Proof.
  unfold attempt.
  apply draws_only_bind; [apply draws_only_randint|]. intros rw.
  apply draws_only_bind; [apply draws_only_randint|]. intros rh.
  apply draws_only_bind; [apply draws_only_randint|]. intros x.
  apply draws_only_bind; [apply draws_only_randint|]. intros y.
  destruct (existsb _ (rooms st)); [apply draws_only_ret|].
  apply draws_only_bind.
  - destruct (last (rooms st)) as [previous|].
    + apply draws_only_bind; [apply draws_only_lift|]. intros from.
      apply draws_only_bind; [apply draws_only_lift|]. intros to.
      apply draws_only_bind; [apply draws_only_tunnel_between|]. intros path.
      apply draws_only_bind; [apply draws_only_lift|]. intros a.
      apply draws_only_ret.
    + apply draws_only_bind; [apply draws_only_lift|]. intros [cx cy].
      apply draws_only_ret.
  - intros [d2 paths].
    apply draws_only_bind; [apply draws_only_place_entities|]. intros d3.
    apply draws_only_ret.
Qed.

Lemma draws_only_attempts mn mx mm n : forall st, draws_only (attempts mn mx mm n st).
Proof.
  induction n as [|n IH]; intros st; simpl.
  - apply draws_only_ret.
  - apply draws_only_bind; [apply draws_only_attempt | exact IH].
Qed.

Lemma draws_only_generate_dungeon n mn mx w h mm engine :
  draws_only (generate_dungeon n mn mx w h mm engine).
Proof.
  unfold generate_dungeon, generate_dungeon_state.
  apply draws_only_bind; [|intros st; apply draws_only_ret].
  apply draws_only_bind; [apply draws_only_lift|]. intros d0.
  apply draws_only_attempts.
Qed.

Lemma same_result_outcome {A} (r1 r2 : result (A * Rng)) :
  same_result r1 r2 -> outcome r1 = outcome r2.
Proof.
  destruct r1 as [[a1 g1]|e1], r2 as [[a2 g2]|e2]; simpl; try contradiction.
  - intros [-> _]. reflexivity.
  - intros ->. reflexivity.
Qed.


(** ** Parameters outside the input contract *)

Lemma attempts_first_draw_fails mn mx mm n st g :
  mx < mn -> attempts mn mx mm (S n) st g = Raise ValueError.
Proof.
  intros H. simpl. apply bind_Raise_intro. unfold attempt.
  apply bind_Raise_intro. apply randint_empty. exact H.
Qed.

Lemma attempts_no_room_fits mn mx mm n st g :
  mn <= mx ->
  width (dungeon st) <= mn \/ height (dungeon st) <= mn ->
  attempts mn mx mm (S n) st g = Raise ValueError.
Proof.
  intros Hm Hsmall. simpl. apply bind_Raise_intro. unfold attempt.
  destruct (randint_total mn mx g Hm) as [rw Erw].
  erewrite bind_Ok_intro by exact Erw. apply randint_Ok in Erw as [Hrw _].
  destruct (randint_total mn mx (snd (rng_next g)) Hm) as [rh Erh].
  erewrite bind_Ok_intro by exact Erh. apply randint_Ok in Erh as [Hrh _].
  set (g2 := snd (rng_next (snd (rng_next g)))).
  destruct (Z_lt_le_dec (width (dungeon st) - rw - 1) 0) as [Hx|Hx].
  - apply bind_Raise_intro. apply randint_empty. exact Hx.
  - destruct (randint_total 0 (width (dungeon st) - rw - 1) g2 Hx) as [x Ex].
    erewrite bind_Ok_intro by exact Ex.
    apply bind_Raise_intro. apply randint_empty. lia.
Qed.


(** ** Which exceptions a run can raise *)

Lemma bind_Raise {A B} (m : M A) (k : A -> M B) g e :
  bind m k g = Raise e ->
  m g = Raise e \/ exists a g1, m g = Ok (a, g1) /\ k a g1 = Raise e.
Proof.
  unfold bind. destruct (m g) as [[a g1]|e1]; [eauto|].
  intros H; left. inversion H. reflexivity.
Qed.

Lemma raises_only_bind e0 {A B} (m : M A) (k : A -> M B) :
  raises_only e0 m ->
  (forall a g g1, m g = Ok (a, g1) -> raises_only e0 (k a)) ->
  raises_only e0 (bind m k).
Proof.
  intros Hm Hk g e H. apply bind_Raise in H as [H|(a & g1 & Ha & H)].
  - eapply Hm; exact H.
  - eapply Hk; [exact Ha | exact H].
Qed.

Lemma raises_only_ret e0 {A} (a : A) : raises_only e0 (ret a).
Proof. intros g e H. discriminate. Qed.

Lemma raises_only_lift_Ok e0 {A} (r : result A) a :
  r = Ok a -> raises_only e0 (lift r).
Proof. intros -> g e H. discriminate. Qed.

Lemma raises_only_randint a b : raises_only ValueError (randint a b).
Proof.
  intros g e. unfold randint. destruct (b <? a); simpl; intros H; inversion H.
  reflexivity.
Qed.

Lemma raises_only_random e0 : raises_only e0 random.
Proof. intros g e H. discriminate. Qed.

Lemma raises_only_monster_position r : raises_only ValueError (monster_position r).
Proof.
  unfold monster_position.
  apply raises_only_bind; [apply raises_only_randint|]. intros x ? ? _.
  apply raises_only_bind; [apply raises_only_randint|]. intros y ? ? _.
  apply raises_only_ret.
Qed.

Lemma raises_only_place_monsters n : forall r d,
  raises_only ValueError (place_monsters n r d).
Proof.
  induction n as [|n IH]; intros r d; simpl.
  - apply raises_only_ret.
  - apply raises_only_bind; [apply raises_only_monster_position|].
    intros [x y] ? ? _.
    apply raises_only_bind; [|intros d' ? ? _; apply IH].
    destruct (negb (occupied d x y)); [|apply raises_only_ret].
    apply raises_only_bind; [apply raises_only_random|]. intros u ? ? _.
    destruct (u <? float_0_8); apply raises_only_ret.
Qed.

Lemma raises_only_place_entities r d mm :
  raises_only ValueError (place_entities r d mm).
Proof.
  unfold place_entities.
  apply raises_only_bind; [apply raises_only_randint|]. intros n ? ? _.
  apply raises_only_place_monsters.
Qed.

Lemma raises_only_tunnel_between e0 a b : raises_only e0 (tunnel_between a b).
Proof. intros g e H. rewrite tunnel_between_Ok in H. discriminate. Qed.

Lemma tunnel_between_cells a b g path g' :
  tunnel_between a b g = Ok (path, g') -> exists coin, path = tunnel_cells coin a b.
Proof. rewrite tunnel_between_Ok. intros H. inversion H. eauto. Qed.

(** With room sizes not negative on a map of at most 2^52 columns and
    rows, an attempt raises nothing but the [ValueError] of a draw from an
    empty range: no center overflows and no tunnel leaves the grid. *)
Lemma raises_only_attempt mn mx mm w h p0 st :
  0 <= mn -> w <= 2 ^ 52 -> h <= 2 ^ 52 ->
  layout mn mx w h p0 st ->
  raises_only ValueError (attempt mn mx mm st).
Proof.
  intros Hmn Hw Hh (Ew & Eh & Hs & Hfit & _).
  unfold attempt. rewrite Ew, Eh.
  apply raises_only_bind; [apply raises_only_randint|]. intros rw ? ? Erw.
  apply raises_only_bind; [apply raises_only_randint|]. intros rh ? ? Erh.
  apply raises_only_bind; [apply raises_only_randint|]. intros x ? ? Ex.
  apply raises_only_bind; [apply raises_only_randint|]. intros y ? ? Ey.
  apply randint_Ok in Erw as [Hrw _]. apply randint_Ok in Erh as [Hrh _].
  apply randint_Ok in Ex as [Hx _]. apply randint_Ok in Ey as [Hy _].
  set (new := new_RectangularRoom x y rw rh).
  destruct (existsb _ (rooms st)); [apply raises_only_ret|].
  assert (Hnew : drawn_on mn mx w h new).
  { exists rw, rh. simpl. repeat split; lia. }
  destruct (drawn_center_in_grid mn mx w h new Hmn Hw Hh Hnew) as (cn & Hcn & Hgn).
  apply raises_only_bind.
  - destruct (last (rooms st)) as [previous|] eqn:El.
    + assert (Hprev : drawn_on mn mx w h previous).
      { apply last_Some_elem_of in El. eapply Forall_forall in Hfit; eauto. }
      destruct (drawn_center_in_grid mn mx w h previous Hmn Hw Hh Hprev)
        as (cp & Hcp & Hgp).
      apply raises_only_bind; [eapply raises_only_lift_Ok; exact Hcp|].
      intros from ? ? Ef. apply lift_Ok in Ef as [Ef _].
      apply raises_only_bind; [eapply raises_only_lift_Ok; exact Hcn|].
      intros to ? ? Et. apply lift_Ok in Et as [Et _].
      assert (from = cp) by congruence. assert (to = cn) by congruence. subst from to.
      apply raises_only_bind; [apply raises_only_tunnel_between|].
      intros path ? ? Ep. apply tunnel_between_cells in Ep as [coin ->].
      set (d1 := with_tiles (dungeon st) _).
      destruct (carve_total (tunnel_cells coin cp cn) (tiles d1) w h) as [a Ea].
      { unfold d1, with_tiles; cbn [tiles]. rewrite setslice_shape. exact Hs. }
      { destruct (tunnel_cells_path coin cp cn) as (_ & _ & _ & Hbox).
        eapply Forall_impl; [exact Hbox|]. intros c.
        apply in_box_cell_in; assumption. }
      apply raises_only_bind; [eapply raises_only_lift_Ok; exact Ea|].
      intros ? ? ? _. apply raises_only_ret.
    + apply raises_only_bind; [eapply raises_only_lift_Ok; exact Hcn|].
      intros [cx cy] ? ? _. apply raises_only_ret.
  - intros [d2 paths] ? ? _.
    apply raises_only_bind; [apply raises_only_place_entities|]. intros d3 ? ? _.
    apply raises_only_ret.
Qed.

Lemma raises_only_attempts mn mx mm w h p0 n : forall st,
  0 <= mn -> w <= 2 ^ 52 -> h <= 2 ^ 52 ->
  layout mn mx w h p0 st ->
  raises_only ValueError (attempts mn mx mm n st).
Proof.
  induction n as [|n IH]; intros st Hmn Hw Hh Hl; simpl.
  - apply raises_only_ret.
  - apply raises_only_bind; [apply (raises_only_attempt mn mx mm w h p0); assumption|].
    intros st1 g g1 E1. apply IH; try assumption.
    eapply layout_step; [exact Hl|]. eapply attempt_step; exact E1.
Qed.

Lemma new_GameMap_Raise w h ents e :
  new_GameMap w h ents = Raise e -> e = ValueError.
Proof.
  unfold new_GameMap, np_full.
  destruct ((w <? 0) || (h <? 0)); simpl; intros H; inversion H. reflexivity.
Qed.

Lemma raises_only_generate_dungeon n mn mx w h mm engine :
  0 <= mn -> w <= 2 ^ 52 -> h <= 2 ^ 52 ->
  raises_only ValueError (generate_dungeon n mn mx w h mm engine).
Proof.
  intros Hmn Hw Hh. unfold generate_dungeon, generate_dungeon_state.
  apply raises_only_bind; [|intros ? ? ? _; apply raises_only_ret].
  apply raises_only_bind.
  - intros g e. unfold lift.
    destruct (new_GameMap w h [player engine]) as [d0|e0] eqn:Ed; [discriminate|].
    intros H; inversion H; subst. eapply new_GameMap_Raise; exact Ed.
  - intros d0 g g1 Ed. apply lift_Ok in Ed as [Ed _].
    apply (raises_only_attempts mn mx mm w h (player engine)); try assumption.
    apply initial_layout. exact Ed.
Qed.

(** ** The draws a run reads *)

Lemma same_draws_refl g : same_draws g g.
Proof. intros n. reflexivity. Qed.

Lemma same_draws_sym g1 g2 : same_draws g1 g2 -> same_draws g2 g1.
Proof. intros H n. symmetry. apply H. Qed.

Lemma same_draws_trans g1 g2 g3 :
  same_draws g1 g2 -> same_draws g2 g3 -> same_draws g1 g3.
Proof. intros H1 H2 n. rewrite H1. apply H2. Qed.

Lemma after_after i k g r :
  same_draws r (after i g) -> same_draws (after k r) (after (i + k) g).
Proof.
  intros H n. unfold after. rewrite H. unfold after. f_equal. lia.
Qed.

Lemma same_draws_after k g1 g2 r :
  same_draws g1 g2 -> same_draws r (after k g1) -> same_draws r (after k g2).
Proof. intros H Hr n. rewrite Hr. unfold after. apply H. Qed.

Lemma agree_le k k' g1 g2 : (k <= k')%nat -> agree k' g1 g2 -> agree k g1 g2.
Proof. intros Hk H i Hi. apply H. lia. Qed.

Lemma agree_refl k g : agree k g g.
Proof. intros i _. reflexivity. Qed.

Lemma agree_after k1 k2 g g2 r r2 :
  agree (k1 + k2) g g2 ->
  same_draws r (after k1 g) -> same_draws r2 (after k1 g2) -> agree k2 r r2.
Proof.
  intros H Hr Hr2 i Hi. rewrite Hr, Hr2. unfold after. apply H. lia.
Qed.

Lemma reads_Ok {A} (m : M A) g k a r :
  reads m g k -> m g = Ok (a, r) ->
  same_draws r (after k g)
  /\ forall g2, agree k g g2 ->
       exists r2, m g2 = Ok (a, r2) /\ same_draws r2 (after k g2).
Proof.
  intros H E. split.
  - specialize (H g (agree_refl k g)). rewrite E in H. apply H.
  - intros g2 Hg. specialize (H g2 Hg). rewrite E in H.
    destruct (m g2) as [[a2 r2]|e2]; [|contradiction].
    destruct H as (-> & _ & H2). eauto.
Qed.

Lemma reads_ret {A} (a : A) g : reads (ret a) g 0.
Proof.
  intros g2 H. simpl. split; [reflexivity|]. split; intros n; reflexivity.
Qed.

Lemma reads_lift {A} (r : result A) g : reads (lift r) g 0.
Proof.
  intros g2 H. unfold lift. destruct r as [a|e]; [|reflexivity].
  split; [reflexivity|]. split; intros n; reflexivity.
Qed.

Lemma reads_randint a b g : reads (randint a b) g 1.
Proof.
  intros g2 H. unfold randint. destruct (b <? a); [reflexivity|]. simpl.
  rewrite (H 0%nat) by lia. split; [reflexivity|].
  split; intros n; reflexivity.
Qed.

Lemma reads_random g : reads random g 1.
Proof.
  intros g2 H. unfold random. simpl.
  rewrite (H 0%nat) by lia. split; [reflexivity|].
  split; intros n; reflexivity.
Qed.

Lemma reads_bind {A B} (m : M A) (f : A -> M B) g k1 k2 :
  reads m g k1 ->
  (forall a r, m g = Ok (a, r) -> reads (f a) r k2) ->
  reads (bind m f) g (k1 + k2).
Proof.
  intros Hm Hf g2 Hg. unfold bind.
  specialize (Hm g2 (agree_le k1 (k1 + k2) g g2 ltac:(lia) Hg)).
  destruct (m g) as [[a r]|e] eqn:E, (m g2) as [[a2 r2]|e2]; try contradiction.
  - destruct Hm as (<- & Hr & Hr2).
    specialize (Hf a r eq_refl r2 (agree_after k1 k2 g g2 r r2 Hg Hr Hr2)).
    destruct (f a r) as [[b s]|e1], (f a r2) as [[b2 s2]|e2]; try contradiction.
    + destruct Hf as (-> & Hs & Hs2). split; [reflexivity|]. split.
      * eapply same_draws_trans; [exact Hs|]. apply after_after. exact Hr.
      * eapply same_draws_trans; [exact Hs2|]. apply after_after. exact Hr2.
    + exact Hf.
  - exact Hm.
Qed.

Lemma reads_monster_position room g : reads (monster_position room) g 2.
Proof.
  unfold monster_position.
  apply (reads_bind _ _ g 1 1); [apply reads_randint|]. intros x r _.
  apply (reads_bind _ _ r 1 0); [apply reads_randint|]. intros y r' _.
  apply reads_ret.
Qed.

Lemma reads_tunnel_between a b g : reads (tunnel_between a b) g 1.
Proof.
  unfold tunnel_between.
  apply (reads_bind _ _ g 1 0); [apply reads_random|]. intros u r _.
  apply reads_ret.
Qed.

(** ** The replay of a run from the stream *)

Lemma randint_at_Ok a b g0 g i v g1 :
  same_draws g0 (after i g) ->
  randint a b g0 = Ok (v, g1) ->
  a <= b /\ v = randint_at a b g i /\ same_draws g1 (after (i + 1) g).
Proof.
  intros Hg. unfold randint.
  destruct (Z.ltb_spec b a) as [Hlt|Hge]; [discriminate|]. simpl.
  intros H; inversion H; subst; clear H. split; [exact Hge|]. split.
  - unfold randint_at. rewrite Hg. unfold after. rewrite Nat.add_0_r. reflexivity.
  - intros n. rewrite Hg. unfold after. f_equal. lia.
Qed.

Lemma random_at_Ok g0 g i u g1 :
  same_draws g0 (after i g) ->
  random g0 = Ok (u, g1) ->
  (forall bound, (u <? bound) = random_below bound g i)
  /\ same_draws g1 (after (i + 1) g).
Proof.
  intros Hg. unfold random. simpl. intros H; inversion H; subst; clear H. split.
  - intros bound. unfold random_below. rewrite Hg. unfold after.
    rewrite Nat.add_0_r. reflexivity.
  - intros n. rewrite Hg. unfold after. f_equal. lia.
Qed.

Lemma monster_position_at room g0 g i c g1 :
  same_draws g0 (after i g) ->
  monster_position room g0 = Ok (c, g1) ->
  c = (randint_at (x1 room + 1) (x2 room - 1) g i,
       randint_at (y1 room + 1) (y2 room - 1) g (i + 1))
  /\ same_draws g1 (after (i + 2) g).
Proof.
  intros Hg H. unfold monster_position in H.
  apply bind_Ok in H as (x & r1 & Hx & H).
  apply bind_Ok in H as (y & r2 & Hy & H).
  apply ret_Ok in H as [-> ->].
  apply (randint_at_Ok _ _ g0 g i) in Hx as (_ & -> & Hr1); [|exact Hg].
  apply (randint_at_Ok _ _ r1 g (i + 1)) in Hy as (_ & -> & Hr2); [|exact Hr1].
  split; [reflexivity|]. intros n. rewrite Hr2. unfold after. f_equal. lia.
Qed.

Lemma place_monsters_replay n : forall room d g0 g i d' g',
  same_draws g0 (after i g) ->
  place_monsters n room d g0 = Ok (d', g') ->
  exists cnt,
    trials_at g n room (entities d) i = (entities d', (i + cnt)%nat)
    /\ reads (place_monsters n room d) g0 cnt
    /\ (cnt + length (entities d) = 2 * n + length (entities d'))%nat
    /\ (length (entities d') <= length (entities d) + n)%nat.
Proof.
  induction n as [|n IH]; intros room d g0 g i d' g' Hg H.
  - apply ret_Ok in H as [-> ->]. exists 0%nat. simpl.
    rewrite Nat.add_0_r. split; [reflexivity|]. split; [apply reads_ret | lia].
  - cbn [place_monsters] in H.
    apply bind_Ok in H as ([x y] & g1 & Hp & H).
    pose proof Hp as Hpos.
    apply (monster_position_at room g0 g i) in Hpos as [Exy Hg1]; [|exact Hg].
    apply bind_Ok in H as (d2 & g2 & Hd2 & H).
    cbn [trials_at]. inversion Exy as [[Ex Ey]]. rewrite <- Ex, <- Ey.
    change (taken (entities d) x y) with (occupied d x y).
    destruct (occupied d x y) eqn:Eocc; simpl in Hd2.
    + apply ret_Ok in Hd2 as [-> ->].
      destruct (IH room d g1 g (i + 2)%nat d' g' Hg1 H)
        as (cnt & Ht & Hr & Hc & Hl).
      exists (2 + cnt)%nat. split; [|split].
      * rewrite Ht. f_equal. lia.
      * cbn [place_monsters].
        apply (reads_bind _ _ g0 2 cnt); [apply reads_monster_position|].
        intros [x' y'] r' E. rewrite Hp in E. inversion E; subst x' y' r'.
        rewrite Eocc. simpl.
        apply (reads_bind _ _ g1 0 cnt); [apply reads_ret|].
        intros a r E'. apply ret_Ok in E' as [-> ->]. exact Hr.
      * lia.
    + apply bind_Ok in Hd2 as (u & g3 & Hu & Hd2).
      pose proof Hu as Hu'.
      apply (random_at_Ok g1 g (i + 2)) in Hu' as [Ebelow Hg3]; [|exact Hg1].
      rewrite <- Ebelow.
      assert (Hsp : d2 = spawn (if u <? float_0_8 then orc else troll) d x y
                    /\ g2 = g3).
      { destruct (u <? float_0_8); apply ret_Ok in Hd2 as [-> ->]; auto. }
      destruct Hsp as [-> ->].
      assert (Hg3' : same_draws g3 (after (i + 3) g)).
      { intros k. rewrite Hg3. unfold after. f_equal. lia. }
      destruct (IH room _ g3 g (i + 3)%nat d' g' Hg3' H)
        as (cnt & Ht & Hr & Hc & Hl).
      exists (3 + cnt)%nat. split; [|split].
      * replace (entities d ++ [mkEntity (if u <? float_0_8 then Orc else Troll) x y])
          with (entities (spawn (if u <? float_0_8 then orc else troll) d x y))
          by (destruct (u <? float_0_8); reflexivity).
        rewrite Ht. f_equal. lia.
      * cbn [place_monsters].
        apply (reads_bind _ _ g0 2 (1 + cnt)); [apply reads_monster_position|].
        intros [x' y'] r' E. rewrite Hp in E. inversion E; subst x' y' r'.
        rewrite Eocc. simpl.
        apply (reads_bind _ _ g1 1 cnt).
        { apply (reads_bind _ _ g1 1 0); [apply reads_random|].
          intros u' r E'. destruct (u' <? float_0_8); apply reads_ret. }
        intros a r E'. apply bind_Ok in E' as (u' & r1 & Eu & E').
        rewrite Hu in Eu. inversion Eu; subst u' r1.
        destruct (u <? float_0_8); apply ret_Ok in E' as [-> ->]; exact Hr.
      * revert Hc Hl.
        destruct (u <? float_0_8); simpl; rewrite length_app; simpl; lia.
Qed.

Lemma place_entities_replay room d mm g0 g i d' g' :
  same_draws g0 (after i g) ->
  place_entities room d mm g0 = Ok (d', g') ->
  exists cnt trials,
    monsters_at mm g room (entities d) i = (entities d', (i + cnt)%nat)
    /\ reads (place_entities room d mm) g0 cnt
    /\ (cnt + length (entities d) = 1 + 2 * trials + length (entities d'))%nat
    /\ (length (entities d') <= length (entities d) + trials)%nat
    /\ Z.of_nat trials <= mm.
Proof.
  intros Hg H. unfold place_entities in H.
  apply bind_Ok in H as (c & g1 & Hc & H).
  pose proof Hc as Hc'. apply randint_Ok in Hc' as [Hrange _].
  pose proof Hc as Hc'.
  apply (randint_at_Ok _ _ g0 g i) in Hc' as (_ & Ec & Hg1); [|exact Hg].
  destruct (place_monsters_replay _ room d g1 g (i + 1)%nat d' g' Hg1 H)
    as (cnt & Ht & Hr & Hcount & Hl).
  exists (1 + cnt)%nat, (Z.to_nat c). split; [|split; [|split; [|split]]].
  - unfold monsters_at. rewrite <- Ec, Ht. f_equal. lia.
  - unfold place_entities.
    apply (reads_bind _ _ g0 1 cnt); [apply reads_randint|].
    intros c' r E. rewrite Hc in E. inversion E; subst c' r. exact Hr.
  - lia.
  - exact Hl.
  - lia.
Qed.

Lemma reads_eq {A} (m : M A) g k k' : reads m g k -> k = k' -> reads m g k'.
Proof. intros H <-. exact H. Qed.

Lemma center_of_Ok r c : center r = Ok c -> center_of r = c.
Proof. unfold center_of. intros ->. reflexivity. Qed.

Lemma attempt_replay mn mx mm st g0 g i p st' g' :
  planned p st i ->
  same_draws g0 (after i g) ->
  attempt mn mx mm st g0 = Ok (st', g') ->
  exists cnt trials,
    planned (attempt_at mn mx mm (width (dungeon st)) (height (dungeon st)) g p)
      st' (i + cnt)
    /\ reads (attempt mn mx mm st) g0 cnt
    /\ (cnt + length (corridors st) + length (rooms st)
        + length (entities (dungeon st))
        = 4 + length (corridors st') + length (rooms st') + 2 * trials
          + length (entities (dungeon st')))%nat
    /\ (length (entities (dungeon st'))
        <= length (entities (dungeon st)) + trials)%nat
    /\ Z.of_nat trials <= Z.of_nat (length (rooms st') - length (rooms st)) * mm
    /\ (length (rooms st) <= length (rooms st'))%nat
    /\ width (dungeon st') = width (dungeon st)
    /\ height (dungeon st') = height (dungeon st).
Proof.
  intros (Pr & Pt & Pe & Pn) Hg H. unfold attempt in H.
  apply bind_Ok in H as (rw & g1 & Hrw & H).
  apply bind_Ok in H as (rh & g2 & Hrh & H).
  apply bind_Ok in H as (x & g3 & Hx & H).
  apply bind_Ok in H as (y & g4 & Hy & H).
  pose proof (randint_at_Ok _ _ g0 g i _ _ Hg Hrw) as (_ & Erw & Hg1).
  pose proof (randint_at_Ok _ _ g1 g (i + 1) _ _ Hg1 Hrh) as (_ & Erh & Hg2).
  replace (i + 1 + 1)%nat with (i + 2)%nat in Hg2 by lia.
  pose proof (randint_at_Ok _ _ g2 g (i + 2) _ _ Hg2 Hx) as (_ & Ex & Hg3).
  replace (i + 2 + 1)%nat with (i + 3)%nat in Hg3 by lia.
  pose proof (randint_at_Ok _ _ g3 g (i + 3) _ _ Hg3 Hy) as (_ & Ey & Hg4).
  replace (i + 3 + 1)%nat with (i + 4)%nat in Hg4 by lia.
  set (new := new_RectangularRoom x y rw rh) in *.
  assert (Enew : candidate_at mn mx (width (dungeon st)) (height (dungeon st)) g i
                 = new).
  { unfold candidate_at. rewrite <- Erw, <- Erh, <- Ex, <- Ey. reflexivity. }
  change (existsb (fun other_room => intersects new other_room) (rooms st))
    with (existsb (intersects new) (rooms st)) in H.
  (* how the draws of the attempt are read, whatever follows the candidate *)
  assert (Hreads : forall k,
            reads (if existsb (intersects new) (rooms st)
                   then ret st
                   else
                     let* (dungeon0, dug) :=
                       match last (rooms st) with
                       | None =>
                           let* (cx, cy) := lift (center new) in
                           ret (place cx cy
                                  (with_tiles (dungeon st)
                                     (setslice (inner new) floor (tiles (dungeon st)))),
                                [])
                       | Some previous =>
                           let* from := lift (center previous) in
                           let* to := lift (center new) in
                           let* path := tunnel_between from to in
                           let* a := lift (carve path
                                             (tiles (with_tiles (dungeon st)
                                                (setslice (inner new) floor
                                                   (tiles (dungeon st)))))) in
                           ret (with_tiles
                                  (with_tiles (dungeon st)
                                     (setslice (inner new) floor (tiles (dungeon st))))
                                  a, [path])
                       end in
                     let* dungeon1 := place_entities new dungeon0 mm in
                     ret {| dungeon := dungeon1;
                            rooms := rooms st ++ [new];
                            corridors := corridors st ++ dug |}) g4 k ->
            reads (attempt mn mx mm st) g0 (4 + k)).
  { intros k Hk. unfold attempt.
    apply (reads_bind _ _ g0 1 (3 + k)); [apply reads_randint|].
    intros a r E. same_run E Hrw.
    apply (reads_bind _ _ g1 1 (2 + k)); [apply reads_randint|].
    intros a r E. same_run E Hrh.
    apply (reads_bind _ _ g2 1 (1 + k)); [apply reads_randint|].
    intros a r E. same_run E Hx.
    apply (reads_bind _ _ g3 1 k); [apply reads_randint|].
    intros a r E. same_run E Hy.
    exact Hk. }
  unfold planned, attempt_at. rewrite Pn, Enew, Pr.
  destruct (existsb (intersects new) (rooms st)) eqn:Eint.
  { apply ret_Ok in H as [-> ->]. exists 4%nat, 0%nat.
    cbn [plan_rooms plan_tunnels plan_entities plan_next].
    split; [auto|]. split; [|split; [lia|split; [lia|split; [lia|auto]]]].
    apply (Hreads 0%nat). apply reads_ret. }
  apply bind_Ok in H as ([d2 paths] & g5 & Hdug & H).
  apply bind_Ok in H as (d3 & g6 & Hpl & H).
  apply ret_Ok in H as [-> ->].
  destruct (last (rooms st)) as [previous|] eqn:El.
  - apply bind_Ok in Hdug as (from & r1 & Hf & Hdug).
    pose proof Hf as Hf'. apply lift_Ok in Hf' as [Ef ->].
    apply bind_Ok in Hdug as (to & r2 & Hto & Hdug).
    pose proof Hto as Hto'. apply lift_Ok in Hto' as [Eto ->].
    apply bind_Ok in Hdug as (path & r3 & Hp & Hdug).
    pose proof Hp as Hp'. rewrite tunnel_between_Ok in Hp'.
    inversion Hp' as [[Epath Er3]]. clear Hp'.
    apply bind_Ok in Hdug as (a & r4 & Ha & Hdug).
    pose proof Ha as Ha'. apply lift_Ok in Ha' as [Ea ->].
    apply ret_Ok in Hdug as [E ->]. inversion E; subst d2 paths; clear E.
    subst r3.
    assert (Hg5 : same_draws (snd (rng_next g4)) (after (i + 5) g)).
    { intros n. simpl. rewrite Hg4. unfold after. f_equal. lia. }
    destruct (place_entities_replay new _ mm _ g (i + 5)%nat d3 g6 Hg5 Hpl)
      as (cnt & trials & Hm & Hr & Hc & Hle & Ht).
    cbn [entities with_tiles] in Hm, Hc, Hle.
    apply place_entities_extends in Hpl as (Hw3 & Hh3 & _).
    exists (5 + cnt)%nat, trials.
    cbn [plan_rooms plan_tunnels plan_entities plan_next dungeon rooms corridors].
    rewrite Pe, Hm.
    cbn [plan_rooms plan_tunnels plan_entities plan_next fst snd].
    split; [|split; [|split; [|split; [|split]]]].
    + split; [reflexivity|]. split; [|split; [reflexivity | lia]].
      rewrite Pt. f_equal. f_equal.
      rewrite (center_of_Ok _ _ Ef), (center_of_Ok _ _ Eto).
      unfold random_below. pose proof (Hg4 0%nat) as E0. unfold after in E0.
      rewrite Nat.add_0_r in E0. rewrite <- E0. exact Epath.
    + apply (reads_eq _ _ (4 + (1 + (cnt + 0)))); [|lia]. apply Hreads.
      apply (reads_bind _ _ g4 1 (cnt + 0)).
      * apply (reads_bind _ _ g4 0 1); [apply reads_lift|]. intros ? ? _.
        apply (reads_bind _ _ _ 0 1); [apply reads_lift|]. intros ? ? _.
        apply (reads_bind _ _ _ 1 0); [apply reads_tunnel_between|]. intros ? ? _.
        apply (reads_bind _ _ _ 0 0); [apply reads_lift|]. intros ? ? _.
        apply reads_ret.
      * intros [d0 dug0] r E.
        apply bind_Ok in E as (f' & s1 & E1 & E).
        rewrite Hf in E1. inversion E1; subst f' s1.
        apply bind_Ok in E as (t' & s2 & E2 & E).
        rewrite Hto in E2. inversion E2; subst t' s2.
        apply bind_Ok in E as (p' & s3 & E3 & E).
        rewrite Hp in E3. inversion E3; subst p' s3.
        apply bind_Ok in E as (a' & s4 & E4 & E).
        rewrite Ha in E4. inversion E4; subst a' s4.
        apply ret_Ok in E as [E ->]. inversion E; subst d0 dug0.
        apply (reads_bind _ _ _ cnt 0); [exact Hr|]. intros ? ? _.
        apply reads_ret.
    + rewrite !length_app. simpl. lia.
    + exact Hle.
    + rewrite length_app. simpl.
      replace (length (rooms st) + 1 - length (rooms st))%nat with 1%nat by lia.
      lia.
    + split; [rewrite length_app; simpl; lia|].
      split; [rewrite Hw3 | rewrite Hh3]; reflexivity.
  - apply bind_Ok in Hdug as ([cx cy] & r1 & Hc & Hdug).
    pose proof Hc as Hc'. apply lift_Ok in Hc' as [Ec ->].
    apply ret_Ok in Hdug as [E ->]. inversion E; subst d2 paths; clear E.
    destruct (place_entities_replay new _ mm g4 g (i + 4)%nat d3 g6 Hg4 Hpl)
      as (cnt & trials & Hm & Hr & Hcount & Hle & Ht).
    cbn [entities with_tiles with_entities place] in Hm, Hcount, Hle.
    assert (Hlen : length (match entities (dungeon st) with
                           | [] => []
                           | p0 :: others => move_to cx cy p0 :: others
                           end) = length (entities (dungeon st)))
      by (destruct (entities (dungeon st)); reflexivity).
    apply place_entities_extends in Hpl as (Hw3 & Hh3 & _).
    exists (4 + cnt)%nat, trials.
    cbn [plan_rooms plan_tunnels plan_entities plan_next dungeon rooms corridors].
    rewrite (center_of_Ok _ _ Ec), Pe. cbn [fst snd]. rewrite Hm.
    cbn [plan_rooms plan_tunnels plan_entities plan_next fst snd].
    split; [|split; [|split; [|split; [|split]]]].
    + split; [reflexivity|]. split; [|split; [reflexivity | lia]].
      rewrite app_nil_r. exact Pt.
    + apply (reads_eq _ _ (4 + (0 + (cnt + 0)))); [|lia]. apply Hreads.
      apply (reads_bind _ _ g4 0 (cnt + 0)).
      * apply (reads_bind _ _ g4 0 0); [apply reads_lift|]. intros [? ?] ? _.
        apply reads_ret.
      * intros [d0 dug0] r E.
        apply bind_Ok in E as (c' & s1 & E1 & E).
        rewrite Hc in E1. inversion E1; subst c' s1.
        apply ret_Ok in E as [E ->]. inversion E; subst d0 dug0.
        apply (reads_bind _ _ _ cnt 0); [exact Hr|]. intros ? ? _.
        apply reads_ret.
    + rewrite !length_app. simpl. lia.
    + lia.
    + rewrite length_app. simpl.
      replace (length (rooms st) + 1 - length (rooms st))%nat with 1%nat by lia.
      lia.
    + split; [rewrite length_app; simpl; lia|].
      split; [rewrite Hw3 | rewrite Hh3]; reflexivity.
Qed.

Lemma attempts_replay mn mx mm w h n : forall st g0 g i p st' g',
  width (dungeon st) = w -> height (dungeon st) = h ->
  planned p st i ->
  same_draws g0 (after i g) ->
  attempts mn mx mm n st g0 = Ok (st', g') ->
  exists cnt trials,
    planned (attempts_at mn mx mm w h g n p) st' (i + cnt)
    /\ reads (attempts mn mx mm n st) g0 cnt
    /\ (cnt + length (corridors st) + length (rooms st)
        + length (entities (dungeon st))
        = 4 * n + length (corridors st') + length (rooms st') + 2 * trials
          + length (entities (dungeon st')))%nat
    /\ (length (entities (dungeon st'))
        <= length (entities (dungeon st)) + trials)%nat
    /\ Z.of_nat trials <= Z.of_nat (length (rooms st') - length (rooms st)) * mm
    /\ (length (rooms st) <= length (rooms st'))%nat.
Proof.
  induction n as [|n IH]; intros st g0 g i p st' g' Hw Hh Hp Hg H.
  - apply ret_Ok in H as [-> ->]. exists 0%nat, 0%nat. cbn [attempts_at attempts].
    rewrite Nat.add_0_r. split; [exact Hp|]. split; [apply reads_ret|].
    split; [lia|]. split; [lia|]. split; [|lia].
    rewrite Nat.sub_diag. simpl. lia.
  - cbn [attempts] in H. apply bind_Ok in H as (st1 & g1 & H1 & H).
    destruct (attempt_replay mn mx mm st g0 g i p st1 g1 Hp Hg H1)
      as (c1 & t1 & Hp1 & Hr1 & Hc1 & He1 & Ht1 & Hl1 & Hw1 & Hh1).
    rewrite Hw, Hh in Hp1. rewrite Hw in Hw1. rewrite Hh in Hh1.
    assert (Hg1 : same_draws g1 (after (i + c1) g)).
    { destruct (reads_Ok _ _ _ _ _ Hr1 H1) as [Hs _].
      eapply same_draws_trans; [exact Hs|]. intros k. unfold after.
      rewrite Hg. unfold after. f_equal. lia. }
    destruct (IH st1 g1 g (i + c1)%nat _ st' g' Hw1 Hh1 Hp1 Hg1 H)
      as (c2 & t2 & Hp2 & Hr2 & Hc2 & He2 & Ht2 & Hl2).
    exists (c1 + c2)%nat, (t1 + t2)%nat. cbn [attempts_at attempts].
    split; [|split; [|split; [|split; [|split]]]].
    + replace (i + (c1 + c2))%nat with (i + c1 + c2)%nat by lia. exact Hp2.
    + apply (reads_bind _ _ g0 c1 c2); [exact Hr1|].
      intros a r E. same_run E H1. exact Hr2.
    + lia.
    + lia.
    + assert (E : Z.of_nat (length (rooms st') - length (rooms st))
                  = Z.of_nat (length (rooms st') - length (rooms st1))
                    + Z.of_nat (length (rooms st1) - length (rooms st))) by lia.
      rewrite E. lia.
    + lia.
Qed.

Lemma generate_dungeon_replay n mn mx w h mm engine g d g' :
  generate_dungeon n mn mx w h mm engine g = Ok (d, g') ->
  exists st cnt trials,
    generate_dungeon_state n mn mx w h mm engine g = Ok (st, g')
    /\ dungeon st = d
    /\ planned (replay n mn mx w h mm (player engine) g) st cnt
    /\ reads (generate_dungeon n mn mx w h mm engine) g cnt
    /\ (cnt + 1 = 4 * Z.to_nat n + length (corridors st) + length (rooms st)
                  + 2 * trials + length (entities d))%nat
    /\ (length (entities d) <= 1 + trials)%nat
    /\ Z.of_nat trials <= Z.of_nat (length (rooms st)) * mm.
Proof.
  intros H. apply generate_dungeon_Ok in H as (st & Hst & Hd).
  pose proof Hst as Hrun.
  apply generate_dungeon_state_Ok in Hrun as (d0 & Hd0 & Hrun).
  pose proof Hd0 as Hnew.
  apply new_GameMap_Ok in Hnew as (Hw & Hh & He & _).
  destruct (attempts_replay mn mx mm w h (Z.to_nat n) (initial d0) g g 0%nat
              {| plan_rooms := []; plan_tunnels := []; plan_entities := [player engine];
                 plan_next := 0 |} st g' Hw Hh)
    as (cnt & trials & Hp & Hr & Hc & Hle & Ht & _).
  { unfold planned. simpl. rewrite He. auto. }
  { intros k. reflexivity. }
  { exact Hrun. }
  exists st, cnt, trials. split; [exact Hst|]. split; [exact Hd|].
  split; [exact Hp|]. split; [|split; [|split]].
  - unfold generate_dungeon, generate_dungeon_state.
    apply (reads_eq _ _ (0 + cnt + 0)); [|lia].
    apply (reads_bind _ _ g (0 + cnt) 0); [|intros; apply reads_ret].
    apply (reads_bind _ _ g 0 cnt); [apply reads_lift|].
    intros a r E. apply lift_Ok in E as [E ->].
    rewrite Hd0 in E. inversion E; subst a. exact Hr.
  - simpl in Hc. rewrite He in Hc. simpl in Hc. subst d. lia.
  - simpl in Hle. rewrite He in Hle. simpl in Hle. subst d. lia.
  - simpl in Ht. rewrite Nat.sub_0_r in Ht. exact Ht.
Qed.

(** The player's earlier position plays no part: from the empty list of
    rooms the attempt places the player before any cell is looked up. *)
Lemma attempt_first_player mn mx mm d1 d2 p1 p2 g :
  width d1 = width d2 -> height d1 = height d2 -> tiles d1 = tiles d2 ->
  entities d1 = [p1] -> entities d2 = [p2] -> kind p1 = kind p2 ->
  attempt mn mx mm (initial d1) g = attempt mn mx mm (initial d2) g.
Proof.
  intros Hw Hh Ht E1 E2 Hk. unfold attempt, initial.
  cbn [dungeon rooms corridors existsb last]. rewrite Hw, Hh, Ht.
  assert (Hplace : forall cx cy a,
            place cx cy (with_tiles d1 a) = place cx cy (with_tiles d2 a)).
  { intros cx cy a. unfold place, with_entities, with_tiles.
    cbn [width height tiles entities]. rewrite Hw, Hh, E1, E2.
    unfold move_to. rewrite Hk. reflexivity. }
  unfold bind.
  destruct (randint mn mx g) as [[rw g1]|]; [|reflexivity].
  destruct (randint mn mx g1) as [[rh g2]|]; [|reflexivity].
  destruct (randint 0 (width d2 - rw - 1) g2) as [[x g3]|]; [|reflexivity].
  destruct (randint 0 (height d2 - rh - 1) g3) as [[y g4]|]; [|reflexivity].
  destruct (lift (center (new_RectangularRoom x y rw rh)) g4) as [[[cx cy] g5]|];
    [|reflexivity].
  unfold ret. rewrite Hplace. reflexivity.
Qed.

Lemma generate_dungeon_any_position n mn mx w h mm engine1 engine2 g :
  1 <= n -> kind (player engine1) = kind (player engine2) ->
  generate_dungeon n mn mx w h mm engine1 g
  = generate_dungeon n mn mx w h mm engine2 g.
Proof.
  intros Hn Hk.
  assert (E : generate_dungeon_state n mn mx w h mm engine1 g
              = generate_dungeon_state n mn mx w h mm engine2 g).
  { unfold generate_dungeon_state.
    destruct (Z.to_nat n) as [|k] eqn:En; [lia|].
    unfold new_GameMap. destruct (np_full (w, h) wall) as [a|e]; [|reflexivity].
    unfold lift, rbind. cbn [attempts]. unfold bind.
    pose proof (attempt_first_player mn mx mm
                  {| width := w; height := h; tiles := a;
                     entities := [player engine1] |}
                  {| width := w; height := h; tiles := a;
                     entities := [player engine2] |}
                  (player engine1) (player engine2) g
                  eq_refl eq_refl eq_refl eq_refl eq_refl Hk) as E.
    unfold initial in E. rewrite E. reflexivity. }
  unfold generate_dungeon, bind. rewrite E. reflexivity.
Qed.

(** A second run, started from the player as the first run left it, on the
    same stream, is the first run again. *)
Lemma generate_dungeon_again n mn mx w h mm engine g d rest p :
  generate_dungeon n mn mx w h mm engine g = Ok (d, rest) ->
  head (entities d) = Some p ->
  generate_dungeon n mn mx w h mm {| player := p |} g = Ok (d, rest).
Proof.
  intros H Hp. pose proof H as H'.
  apply generate_dungeon_Ok in H' as (st & Hst & Hd).
  pose proof (run_layout _ _ _ _ _ _ _ _ _ _ Hst) as (_ & _ & _ & _ & _ & _ & Hhead).
  rewrite Hd, Hp in Hhead.
  destruct (Z_lt_le_dec n 1) as [Hn|Hn].
  - apply generate_dungeon_state_Ok in Hst as (d0 & Hd0 & Hrun).
    replace (Z.to_nat n) with 0%nat in Hrun by lia.
    apply ret_Ok in Hrun as [-> _]. simpl in Hhead.
    inversion Hhead; subst p. destruct engine. exact H.
  - rewrite <- H. apply generate_dungeon_any_position; [exact Hn|]. simpl.
    destruct (head (rooms st)).
    + destruct Hhead as (c & _ & E). inversion E. reflexivity.
    + inversion Hhead. reflexivity.
Qed.


(** ** The claims about [generate_dungeon] *)

(** C1.  In every map [generate_dungeon] returns, the accepted rooms are
    pairwise non-intersecting: a candidate that intersects a room accepted
    before is abandoned, neither carved nor appended. *)
Theorem accepted_rooms_disjoint
    (max_rooms room_min_size room_max_size map_width map_height
     max_monsters_per_room : Z) (engine : Engine) (g : Rng)
    (d : GameMap) (g' : Rng) :
  generate_dungeon max_rooms room_min_size room_max_size map_width map_height
    max_monsters_per_room engine g = Ok (d, g') ->
  exists st,
    generate_dungeon_state max_rooms room_min_size room_max_size map_width
      map_height max_monsters_per_room engine g = Ok (st, g')
    /\ dungeon st = d
    /\ forall i j room_i room_j,
         i <> j ->
         rooms st !! i = Some room_i -> rooms st !! j = Some room_j ->
         intersects room_i room_j = false.
Proof.
  intros H. apply generate_dungeon_Ok in H as (st & Hst & Hd).
  exists st. split; [exact Hst|]. split; [exact Hd|].
  apply run_layout in Hst. apply Hst.
Qed.

(** C2.  In the map [generate_dungeon] returns (room sizes not negative,
    as the input contract has them), every cell of the region [inner()] of
    an accepted room holds the floor tile, and every cell of the grid
    outside all these regions and off every carved tunnel still holds the
    wall tile the map was filled with. *)
Theorem interiors_floor_rest_wall
    (max_rooms room_min_size room_max_size map_width map_height
     max_monsters_per_room : Z) (engine : Engine) (g : Rng)
    (d : GameMap) (g' : Rng) :
  0 <= room_min_size ->
  generate_dungeon max_rooms room_min_size room_max_size map_width map_height
    max_monsters_per_room engine g = Ok (d, g') ->
  exists st,
    generate_dungeon_state max_rooms room_min_size room_max_size map_width
      map_height max_monsters_per_room engine g = Ok (st, g')
    /\ dungeon st = d
    /\ (forall room c,
          In room (rooms st) -> in_inner room c = true ->
          getitem (fst c) (snd c) (tiles d) = Ok floor)
    /\ (forall c,
          in_grid d c ->
          (forall room, In room (rooms st) -> in_inner room c = false) ->
          (forall path, In path (corridors st) -> ~ In c path) ->
          getitem (fst c) (snd c) (tiles d) = Ok wall).
Proof.
  intros Hmn H. apply generate_dungeon_Ok in H as (st & Hst & Hd).
  exists st. split; [exact Hst|]. split; [exact Hd|].
  pose proof (run_layout _ _ _ _ _ _ _ _ _ _ Hst) as (Hw & Hh & _ & Hfit & _).
  pose proof (run_carving _ _ _ _ _ _ _ _ _ _ Hmn Hst) as [Ht _].
  subst d. split.
  - intros room [cx cy] Hin Hc.
    assert (Hg : cell_in map_width map_height (cx, cy)).
    { eapply inner_in_grid; [|exact Hc].
      eapply drawn_on_fits. eapply Forall_forall in Hfit; [exact Hfit|].
      apply list_elem_of_In. exact Hin. }
    destruct Hg as [Hx Hy]. simpl in Hx, Hy |- *.
    rewrite (getitem_tiles _ _ _ _ _ _ Ht Hx Hy).
    rewrite (carved_room st room (cx, cy) Hin Hc). reflexivity.
  - intros [cx cy] Hg Hr Hp. unfold in_grid in Hg. rewrite Hw, Hh in Hg.
    destruct Hg as [Hx Hy]. simpl in Hx, Hy |- *.
    rewrite (getitem_tiles _ _ _ _ _ _ Ht Hx Hy).
    rewrite (carved_false st (cx, cy) Hr Hp). reflexivity.
Qed.

(** C9.  Every accepted room was drawn with its top-left corner in
    [[0, width - room_width - 1] x [0, height - room_height - 1]], so
    [x2 <= width - 1] and [y2 <= height - 1]; hence every cell written for
    a room interior and every cell written for a tunnel between room
    centers lies on the [width] x [height] grid, and on a map of at most
    2^52 columns and rows no write is ever refused with an [IndexError]
    (room sizes not negative, as the input contract has them). *)
Theorem rooms_and_writes_within_grid
    (max_rooms room_min_size room_max_size map_width map_height
     max_monsters_per_room : Z) (engine : Engine) (g : Rng) :
  0 <= room_min_size ->
  (forall d g',
     generate_dungeon max_rooms room_min_size room_max_size map_width
       map_height max_monsters_per_room engine g = Ok (d, g') ->
     exists st,
       generate_dungeon_state max_rooms room_min_size room_max_size map_width
         map_height max_monsters_per_room engine g = Ok (st, g')
       /\ dungeon st = d
       /\ width d = map_width /\ height d = map_height
       /\ (forall room,
             In room (rooms st) ->
             drawn_on room_min_size room_max_size map_width map_height room
             /\ x2 room <= map_width - 1 /\ y2 room <= map_height - 1
             /\ forall c, in_inner room c = true -> in_grid d c)
       /\ (forall path c, In path (corridors st) -> In c path -> in_grid d c))
  /\ (map_width <= 2 ^ 52 -> map_height <= 2 ^ 52 ->
      generate_dungeon max_rooms room_min_size room_max_size map_width
        map_height max_monsters_per_room engine g <> Raise IndexError).
Proof.
  intros Hmn. split.
  - intros d g' H. apply generate_dungeon_Ok in H as (st & Hst & Hd).
    exists st. split; [exact Hst|]. split; [exact Hd|].
    pose proof (run_layout _ _ _ _ _ _ _ _ _ _ Hst) as (Hw & Hh & _ & Hfit & _).
    pose proof (run_carving _ _ _ _ _ _ _ _ _ _ Hmn Hst) as [_ Hcor].
    subst d. split; [exact Hw|]. split; [exact Hh|]. split.
    + intros room Hin.
      assert (Hdr : drawn_on room_min_size room_max_size map_width map_height room).
      { eapply Forall_forall in Hfit; [exact Hfit|]. apply list_elem_of_In. exact Hin. }
      destruct (drawn_on_fits _ _ _ _ _ Hdr) as (Hf & _).
      split; [exact Hdr|]. split; [apply Hf|]. split; [apply Hf|].
      intros c Hc. unfold in_grid. rewrite Hw, Hh.
      eapply inner_in_grid; eauto.
    + intros path c Hp Hc. unfold in_grid. rewrite Hw, Hh.
      eapply Forall_forall in Hcor; [|apply list_elem_of_In; exact Hp].
      eapply Forall_forall in Hcor; [exact Hcor|]. apply list_elem_of_In. exact Hc.
  - intros Hw Hh H.
    apply (raises_only_generate_dungeon max_rooms room_min_size room_max_size
             map_width map_height max_monsters_per_room engine Hmn Hw Hh) in H.
    discriminate.
Qed.

(** C6, as the code has it.  With [max_rooms = 1], every map
    [generate_dungeon] returns has exactly one accepted room, drawn for the
    map, and no tunnel; the player stands at that room's center; and, the
    room sizes not being negative, the grid holds floor on exactly the
    interior of that room and wall on every other cell: the one attempt
    meets an empty list of rooms and cannot be rejected.  A map is returned
    whenever [2 <= room_min_size <= room_max_size < map_width, map_height
    <= 2^52] and [max_monsters_per_room >= 0]. *)
Theorem single_attempt_single_room
    (room_min_size room_max_size map_width map_height
     max_monsters_per_room : Z) (engine : Engine) (g : Rng) :
  (forall d g',
     generate_dungeon 1 room_min_size room_max_size map_width map_height
       max_monsters_per_room engine g = Ok (d, g') ->
     exists st room c,
       generate_dungeon_state 1 room_min_size room_max_size map_width
         map_height max_monsters_per_room engine g = Ok (st, g')
       /\ dungeon st = d
       /\ rooms st = [room] /\ corridors st = []
       /\ drawn_on room_min_size room_max_size map_width map_height room
       /\ center room = Ok c
       /\ head (entities d) = Some (move_to (fst c) (snd c) (player engine))
       /\ width d = map_width /\ height d = map_height
       /\ (0 <= room_min_size ->
           forall x y, 0 <= x < map_width -> 0 <= y < map_height ->
             getitem x y (tiles d)
             = Ok (if in_inner room (x, y) then floor else wall)))
  /\ (2 <= room_min_size <= room_max_size ->
      room_max_size < map_width <= 2 ^ 52 ->
      room_max_size < map_height <= 2 ^ 52 ->
      0 <= max_monsters_per_room ->
      exists d g',
        generate_dungeon 1 room_min_size room_max_size map_width map_height
          max_monsters_per_room engine g = Ok (d, g')).
Proof.
  split.
  - intros d g' H. apply generate_dungeon_Ok in H as (st & Hst & Hd).
    pose proof (run_layout _ _ _ _ _ _ _ _ _ _ Hst) as (Ew & Eh & _ & Hfit & _).
    pose proof Hst as Hrun.
    apply generate_dungeon_state_Ok in Hrun as (d0 & Hd0 & Hrun).
    change (Z.to_nat 1) with 1%nat in Hrun. simpl in Hrun.
    apply bind_Ok in Hrun as (st1 & g1 & Hatt & Hret).
    apply ret_Ok in Hret as [E _]. subst st1.
    apply attempt_step in Hatt.
    apply new_GameMap_Ok in Hd0 as (_ & _ & He & _).
    destruct (first_step room_min_size room_max_size d0 st (player engine))
      as (room & c & Hr & Hc & Hcen & Hp);
      [rewrite He; reflexivity | exact Hatt |].
    exists st, room, c. subst d.
    split; [exact Hst|]. split; [reflexivity|]. split; [exact Hr|].
    split; [exact Hc|]. split.
    { rewrite Hr in Hfit. inversion Hfit; assumption. }
    split; [exact Hcen|]. split; [exact Hp|]. split; [exact Ew|].
    split; [exact Eh|]. intros Hmn x y Hx Hy.
    pose proof (run_carving _ _ _ _ _ _ _ _ _ _ Hmn Hst) as [Ht _].
    rewrite (getitem_tiles _ _ _ _ _ _ Ht Hx Hy).
    unfold carved. rewrite Hr, Hc. simpl. rewrite !orb_false_r. reflexivity.
  - intros Hmn Hw Hh Hmm.
    destruct (generate_dungeon_state_total 1 room_min_size room_max_size
                map_width map_height max_monsters_per_room engine g
                Hmn Hw Hh Hmm) as (st & g' & E).
    exists (dungeon st), g'. unfold generate_dungeon.
    erewrite bind_Ok_intro by exact E. reflexivity.
Qed.

(** C6 as stated fails inside the input contract: all parameters are
    positive, [room_min_size <= room_max_size] and a room of size 1 fits a
    6 x 6 map, yet no map is returned.  The room (0,0)-(1,1) is accepted,
    one monster is to be placed, and its position is drawn by
    [randint(1, 0)], which raises [ValueError]. *)
Lemma unit_room_returns_no_map :
  let g := stream_of [0; 0; 0; 0; 1] in
  (0 < 1 /\ 0 < 6 /\ 0 < 2 /\ 1 <= 1 /\ 1 < 6)
  /\ generate_dungeon 1 1 1 6 6 2 engine0 g = Raise ValueError
  /\ ~ exists d g', generate_dungeon 1 1 1 6 6 2 engine0 g = Ok (d, g').
Proof.
  intros g.
  assert (E : generate_dungeon 1 1 1 6 6 2 engine0 g = Raise ValueError)
    by (vm_compute; reflexivity).
  split; [lia|]. split; [exact E|].
  intros (d & g' & H). rewrite E in H. discriminate.
Qed.

(** C10, as the code has it.  Every room with non-negative coordinates,
    [x2 - x1 >= 2], [y2 - y1 >= 2] and coordinate sums up to 2^53 has its
    [center()] inside its [inner()] region; whenever [generate_dungeon],
    with [room_min_size >= 2] on a map of at most 2^52 columns and rows,
    accepts a room, the player ends up at the center of the first accepted
    room, on a tile that holds floor; and the floor tile is walkable. *)
Theorem player_on_walkable_floor :
  (forall r,
     0 <= x1 r -> 0 <= y1 r -> x2 r - x1 r >= 2 -> y2 r - y1 r >= 2 ->
     x1 r + x2 r <= 2 ^ 53 -> y1 r + y2 r <= 2 ^ 53 ->
     exists c, center r = Ok c /\ in_inner r c = true)
  /\ (forall max_rooms room_min_size room_max_size map_width map_height
        max_monsters_per_room engine g d g',
        2 <= room_min_size -> map_width <= 2 ^ 52 -> map_height <= 2 ^ 52 ->
        generate_dungeon max_rooms room_min_size room_max_size map_width
          map_height max_monsters_per_room engine g = Ok (d, g') ->
        exists st,
          generate_dungeon_state max_rooms room_min_size room_max_size
            map_width map_height max_monsters_per_room engine g = Ok (st, g')
          /\ dungeon st = d
          /\ (rooms st <> [] ->
              exists first c p,
                head (rooms st) = Some first
                /\ center first = Ok c /\ in_inner first c = true
                /\ head (entities d) = Some p
                /\ kind p = kind (player engine)
                /\ (ent_x p, ent_y p) = c
                /\ getitem (ent_x p) (ent_y p) (tiles d) = Ok floor))
  /\ walkable floor = true.
Proof.
  split; [exact center_in_inner|]. split; [|reflexivity].
  intros n mn mx w h mm engine g d g' Hmn Hw Hh H.
  apply generate_dungeon_Ok in H as (st & Hst & Hd).
  exists st. split; [exact Hst|]. split; [exact Hd|]. intros Hne.
  pose proof (run_layout _ _ _ _ _ _ _ _ _ _ Hst) as (Ew & Eh & _ & Hfit & _ & _ & Hpl).
  pose proof (run_carving n mn mx w h mm engine g st g' ltac:(lia) Hst) as [Ht _].
  destruct (rooms st) as [|first rest] eqn:Er; [congruence|].
  simpl in Hpl. destruct Hpl as (c & Hc & Hp).
  assert (Hdr : drawn_on mn mx w h first) by (inversion Hfit; assumption).
  destruct (drawn_center mn mx w h first ltac:(lia) Hw Hh Hdr) as (Hc' & _).
  destruct (drawn_on_fits _ _ _ _ _ Hdr) as (Hf & Hsx & Hsy).
  assert (Hin : in_inner first c = true).
  { destruct (center_in_inner first) as (c2 & Hc2 & Hin2);
      try (destruct Hf as (? & ? & ? & ?); rewrite ?pow2_53; rewrite pow2_52 in *; lia).
    congruence. }
  exists first, c, (move_to (fst c) (snd c) (player engine)).
  subst d. repeat split; try assumption.
  - destruct c; reflexivity.
  - simpl. destruct (inner_in_grid w h first c Hf Hin) as [Hx Hy].
    rewrite (getitem_tiles _ _ _ _ _ _ Ht Hx Hy).
    replace (fst c, snd c) with c by (destruct c; reflexivity).
    rewrite (carved_room st first c); [reflexivity | rewrite Er; left; reflexivity | exact Hin].
Qed.

(** C10 as stated fails for large coordinates: the room with
    [x1 = 2^60, x2 = 2^60 + 2] has [(x1 + x2) / 2] rounded to the double
    [2^60], so its center sits on the column [x1], outside [inner()]. *)
Lemma center_outside_inner_when_rounded :
  let r := new_RectangularRoom (2 ^ 60) 0 2 2 in
  0 <= x1 r /\ 0 <= y1 r /\ x2 r - x1 r >= 2 /\ y2 r - y1 r >= 2
  /\ center r = Ok (2 ^ 60, 1)
  /\ in_inner r (2 ^ 60, 1) = false.
Proof. vm_compute. repeat split; discriminate. Qed.

(** C7.  [generate_dungeon] is deterministic in the random stream.  With
    the same parameters, two runs whose generators give the same draws
    return the same map (the same tile grid and the same entities, in the
    same order) or raise the same exception.  Nothing but the parameters
    and the stream plays a part: with [max_rooms >= 1], the position the
    player had before the call, the one piece of state an earlier run
    leaves behind, changes nothing; so a second run on the same stream,
    started from the player as the first run left it, returns the map of
    the first.  And a run that returns a map has read its draws in the
    order room width, room height, x, y, then the coin of the tunnel, then
    the count of monsters and a position and a type for each: its rooms,
    tunnels and entities are those of the replay of the stream by
    position; it has made four draws per attempt, one per tunnel, one per
    accepted room, two per trial of a monster and one per monster spawned;
    and every stream that starts with the same draws, whatever follows
    them, gives the same map and is left after as many draws. *)
Theorem generation_deterministic
    (max_rooms room_min_size room_max_size map_width map_height
     max_monsters_per_room : Z) (engine : Engine) :
  (forall g1 g2,
     same_draws g1 g2 ->
     outcome (generate_dungeon max_rooms room_min_size room_max_size map_width
                map_height max_monsters_per_room engine g1)
     = outcome (generate_dungeon max_rooms room_min_size room_max_size
                  map_width map_height max_monsters_per_room engine g2))
  /\ (forall engine2 g,
        1 <= max_rooms -> kind (player engine2) = kind (player engine) ->
        generate_dungeon max_rooms room_min_size room_max_size map_width
          map_height max_monsters_per_room engine2 g
        = generate_dungeon max_rooms room_min_size room_max_size map_width
            map_height max_monsters_per_room engine g)
  /\ (forall g d rest p,
        generate_dungeon max_rooms room_min_size room_max_size map_width
          map_height max_monsters_per_room engine g = Ok (d, rest) ->
        head (entities d) = Some p ->
        generate_dungeon max_rooms room_min_size room_max_size map_width
          map_height max_monsters_per_room {| player := p |} g = Ok (d, rest))
  /\ (forall g d rest,
        generate_dungeon max_rooms room_min_size room_max_size map_width
          map_height max_monsters_per_room engine g = Ok (d, rest) ->
        exists st trials,
          generate_dungeon_state max_rooms room_min_size room_max_size
            map_width map_height max_monsters_per_room engine g = Ok (st, rest)
          /\ dungeon st = d
          /\ let p := replay max_rooms room_min_size room_max_size map_width
                        map_height max_monsters_per_room (player engine) g in
             rooms st = plan_rooms p
             /\ corridors st = plan_tunnels p
             /\ entities d = plan_entities p
             /\ same_draws rest (after (plan_next p) g)
             /\ (forall g2,
                   agree (plan_next p) g g2 ->
                   exists rest2,
                     generate_dungeon max_rooms room_min_size room_max_size
                       map_width map_height max_monsters_per_room engine g2
                     = Ok (d, rest2)
                     /\ same_draws rest2 (after (plan_next p) g2))
             /\ Z.of_nat (plan_next p)
                = 4 * Z.max 0 max_rooms
                  + Z.of_nat (length (corridors st))
                  + Z.of_nat (length (rooms st))
                  + 2 * trials
                  + (Z.of_nat (length (entities d)) - 1)
             /\ Z.of_nat (length (entities d)) - 1 <= trials
             /\ trials <= Z.of_nat (length (rooms st)) * max_monsters_per_room).
Proof.
  split; [|split; [|split]].
  - intros g1 g2 H. apply same_result_outcome, draws_only_generate_dungeon, H.
  - intros engine2 g Hn Hk. apply generate_dungeon_any_position; assumption.
  - intros g d rest p H Hp. eapply generate_dungeon_again; eassumption.
  - intros g d rest H.
    destruct (generate_dungeon_replay _ _ _ _ _ _ _ _ _ _ H)
      as (st & cnt & trials & Hst & Hd & (Pr & Pt & Pe & Pn) & Hr & Hc & Hle & Ht).
    destruct (reads_Ok _ _ _ _ _ Hr H) as [Hrest Hany].
    exists st, (Z.of_nat trials). split; [exact Hst|]. split; [exact Hd|].
    cbv zeta. rewrite Pn. subst d.
    split; [auto|]. split; [auto|]. split; [auto|]. split; [exact Hrest|].
    split; [exact Hany|]. split; [|split; [lia | exact Ht]].
    assert (Z.of_nat (Z.to_nat max_rooms) = Z.max 0 max_rooms) by lia. lia.
Qed.

(** C8, as the code has it.  [generate_dungeon] validates nothing itself.
    With [max_rooms >= 1], when [room_min_size > room_max_size], or when
    the map is no wider or no higher than [room_min_size], it raises the
    [ValueError] of [random.randint] on an empty range during the first
    attempt (or, for a negative map size, that of the array constructor);
    and the loop ends after [max_rooms] attempts in any case. *)
Theorem bad_sizes_raise_ValueError
    (max_rooms room_min_size room_max_size map_width map_height
     max_monsters_per_room : Z) (engine : Engine) (g : Rng) :
  1 <= max_rooms ->
  room_max_size < room_min_size
  \/ map_width <= room_min_size \/ map_height <= room_min_size ->
  generate_dungeon max_rooms room_min_size room_max_size map_width map_height
    max_monsters_per_room engine g = Raise ValueError.
Proof.
  intros Hn Hbad. unfold generate_dungeon. apply bind_Raise_intro.
  unfold generate_dungeon_state.
  destruct (new_GameMap map_width map_height [player engine]) as [d0|e] eqn:Ed.
  - erewrite bind_Ok_intro by reflexivity.
    apply new_GameMap_Ok in Ed as (Ew & Eh & _).
    destruct (Z.to_nat max_rooms) as [|n] eqn:En; [lia|].
    destruct (Z_lt_le_dec room_max_size room_min_size) as [Hlt|Hle].
    + apply attempts_first_draw_fails. exact Hlt.
    + apply attempts_no_room_fits; [exact Hle|]. simpl. rewrite Ew, Eh. lia.
  - apply bind_Raise_intro. unfold lift.
    unfold new_GameMap, np_full in Ed.
    destruct ((map_width <? 0) || (map_height <? 0)); simpl in Ed; [|discriminate].
    inversion Ed. reflexivity.
Qed.

(** C8 as stated fails: negative room sizes violate the input contract,
    yet the run raises nothing and returns a map, with the player placed
    off the grid at [(-2, -2)] and floor carved where the slice bounds
    wrapped around. *)
Lemma negative_sizes_not_refused :
  exists d,
    outcome (generate_dungeon 1 (-5) (-5) 10 10 0 engine0 (stream_of []))
    = Ok d
    /\ head (entities d) = Some (mkEntity Player (-2) (-2))
    /\ getitem 1 1 (tiles d) = Ok floor.
Proof. eexists. vm_compute. repeat split. Qed.

(** ** The claims on concrete runs *)

Lemma demo_run :
  generate_dungeon 2 3 3 12 8 1 engine0 demo_stream = Ok (demo_map, demo_rest).
Proof. vm_compute. reflexivity. Qed.

Lemma demo_single_run :
  generate_dungeon 1 3 3 12 8 1 engine0 demo_stream
  = Ok (demo_single_map, demo_single_rest).
Proof. vm_compute. reflexivity. Qed.

Lemma accepted_rooms_disjoint_demo :
  generate_dungeon 2 3 3 12 8 1 engine0 demo_stream = Ok (demo_map, demo_rest)
  /\ exists st,
       generate_dungeon_state 2 3 3 12 8 1 engine0 demo_stream = Ok (st, demo_rest)
       /\ dungeon st = demo_map
       /\ forall i j room_i room_j,
            i <> j ->
            rooms st !! i = Some room_i -> rooms st !! j = Some room_j ->
            intersects room_i room_j = false.
Proof.
  split; [exact demo_run|].
  apply (accepted_rooms_disjoint 2 3 3 12 8 1 engine0 demo_stream demo_map demo_rest).
  vm_compute. reflexivity.
Defined.

Lemma interiors_floor_rest_wall_demo :
  0 <= 3
  /\ generate_dungeon 2 3 3 12 8 1 engine0 demo_stream = Ok (demo_map, demo_rest)
  /\ exists st,
       generate_dungeon_state 2 3 3 12 8 1 engine0 demo_stream = Ok (st, demo_rest)
       /\ dungeon st = demo_map
       /\ (forall room c,
             In room (rooms st) -> in_inner room c = true ->
             getitem (fst c) (snd c) (tiles demo_map) = Ok floor)
       /\ (forall c,
             in_grid demo_map c ->
             (forall room, In room (rooms st) -> in_inner room c = false) ->
             (forall path, In path (corridors st) -> ~ In c path) ->
             getitem (fst c) (snd c) (tiles demo_map) = Ok wall).
Proof.
  split; [lia|]. split; [exact demo_run|].
  apply (interiors_floor_rest_wall 2 3 3 12 8 1 engine0 demo_stream demo_map demo_rest).
  - lia.
  - vm_compute. reflexivity.
Defined.

Lemma rooms_and_writes_within_grid_demo :
  0 <= 3
  /\ generate_dungeon 2 3 3 12 8 1 engine0 demo_stream = Ok (demo_map, demo_rest)
  /\ (exists st,
        generate_dungeon_state 2 3 3 12 8 1 engine0 demo_stream = Ok (st, demo_rest)
        /\ dungeon st = demo_map
        /\ width demo_map = 12 /\ height demo_map = 8
        /\ (forall room,
              In room (rooms st) ->
              drawn_on 3 3 12 8 room
              /\ x2 room <= 12 - 1 /\ y2 room <= 8 - 1
              /\ forall c, in_inner room c = true -> in_grid demo_map c)
        /\ (forall path c, In path (corridors st) -> In c path -> in_grid demo_map c))
  /\ generate_dungeon 2 3 3 12 8 1 engine0 demo_stream <> Raise IndexError.
Proof.
  assert (H : 0 <= 3) by lia.
  split; [exact H|]. split; [exact demo_run|]. split.
  - apply (proj1 (rooms_and_writes_within_grid 2 3 3 12 8 1 engine0 demo_stream H)).
    vm_compute. reflexivity.
  - apply (proj2 (rooms_and_writes_within_grid 2 3 3 12 8 1 engine0 demo_stream H));
      rewrite pow2_52; lia.
Defined.

Lemma single_attempt_single_room_demo :
  generate_dungeon 1 3 3 12 8 1 engine0 demo_stream
  = Ok (demo_single_map, demo_single_rest)
  /\ 0 <= 3
  /\ (exists st room c,
        generate_dungeon_state 1 3 3 12 8 1 engine0 demo_stream
        = Ok (st, demo_single_rest)
        /\ dungeon st = demo_single_map
        /\ rooms st = [room] /\ corridors st = []
        /\ drawn_on 3 3 12 8 room
        /\ center room = Ok c
        /\ head (entities demo_single_map)
           = Some (move_to (fst c) (snd c) (player engine0))
        /\ width demo_single_map = 12 /\ height demo_single_map = 8
        /\ forall x y, 0 <= x < 12 -> 0 <= y < 8 ->
             getitem x y (tiles demo_single_map)
             = Ok (if in_inner room (x, y) then floor else wall))
  /\ (2 <= 3 <= 3 /\ 3 < 12 <= 2 ^ 52 /\ 3 < 8 <= 2 ^ 52 /\ 0 <= 1)
  /\ exists d g',
       generate_dungeon 1 3 3 12 8 1 engine0 demo_stream = Ok (d, g').
Proof.
  assert (Hmn : 0 <= 3) by lia.
  assert (Hc : 2 <= 3 <= 3 /\ 3 < 12 <= 2 ^ 52 /\ 3 < 8 <= 2 ^ 52 /\ 0 <= 1)
    by (rewrite pow2_52; lia).
  split; [exact demo_single_run|]. split; [exact Hmn|]. split; [|split].
  - destruct (proj1 (single_attempt_single_room 3 3 12 8 1 engine0 demo_stream)
                demo_single_map demo_single_rest demo_single_run)
      as (st & room & c & H1 & H2 & H3 & H4 & H5 & H6 & H7 & H8 & H9 & H10).
    exists st, room, c. repeat (split; [assumption|]). exact (H10 Hmn).
  - exact Hc.
  - destruct Hc as (C1 & C2 & C3 & C4).
    exact (proj2 (single_attempt_single_room 3 3 12 8 1 engine0 demo_stream)
             C1 C2 C3 C4).
Defined.

Lemma player_on_walkable_floor_demo :
  2 <= 3 /\ 12 <= 2 ^ 52 /\ 8 <= 2 ^ 52
  /\ generate_dungeon 2 3 3 12 8 1 engine0 demo_stream = Ok (demo_map, demo_rest)
  /\ exists st,
       generate_dungeon_state 2 3 3 12 8 1 engine0 demo_stream = Ok (st, demo_rest)
       /\ dungeon st = demo_map
       /\ (rooms st <> [] ->
           exists first c p,
             head (rooms st) = Some first
             /\ center first = Ok c /\ in_inner first c = true
             /\ head (entities demo_map) = Some p
             /\ kind p = kind (player engine0)
             /\ (ent_x p, ent_y p) = c
             /\ getitem (ent_x p) (ent_y p) (tiles demo_map) = Ok floor).
Proof.
  split; [lia|]. split; [rewrite pow2_52; lia|]. split; [rewrite pow2_52; lia|].
  split; [exact demo_run|].
  apply (proj1 (proj2 player_on_walkable_floor)
           2 3 3 12 8 1 engine0 demo_stream demo_map demo_rest).
  - lia.
  - rewrite pow2_52; lia.
  - rewrite pow2_52; lia.
  - vm_compute. reflexivity.
Defined.

(** The first fourteen draws of the two streams are the same, the
    fifteenth is not. *)
Lemma demo_agree : agree 14 demo_stream demo_stream_longer.
Proof. intros i Hi. do 14 (destruct i as [|i]; [reflexivity|]). lia. Qed.

Lemma generation_deterministic_demo :
  (same_draws demo_stream demo_stream_again
   /\ outcome (generate_dungeon 2 3 3 12 8 1 engine0 demo_stream)
      = outcome (generate_dungeon 2 3 3 12 8 1 engine0 demo_stream_again))
  /\ (1 <= 2 /\ kind (player engine1) = kind (player engine0)
      /\ player engine1 <> player engine0
      /\ generate_dungeon 2 3 3 12 8 1 engine1 demo_stream
         = generate_dungeon 2 3 3 12 8 1 engine0 demo_stream)
  /\ generate_dungeon 2 3 3 12 8 1 engine0 demo_stream = Ok (demo_map, demo_rest)
  /\ (head (entities demo_map) = Some (mkEntity Player 1 1)
      /\ generate_dungeon 2 3 3 12 8 1 {| player := mkEntity Player 1 1 |}
           demo_stream
         = Ok (demo_map, demo_rest))
  /\ plan_next (replay 2 3 3 12 8 1 (player engine0) demo_stream) = 14%nat
  /\ agree 14 demo_stream demo_stream_longer
  /\ demo_stream_longer 14%nat <> demo_stream 14%nat
  /\ exists st trials,
       generate_dungeon_state 2 3 3 12 8 1 engine0 demo_stream = Ok (st, demo_rest)
       /\ dungeon st = demo_map
       /\ rooms st = plan_rooms (replay 2 3 3 12 8 1 (player engine0) demo_stream)
       /\ corridors st
          = plan_tunnels (replay 2 3 3 12 8 1 (player engine0) demo_stream)
       /\ entities demo_map
          = plan_entities (replay 2 3 3 12 8 1 (player engine0) demo_stream)
       /\ same_draws demo_rest (after 14 demo_stream)
       /\ (exists rest2,
             generate_dungeon 2 3 3 12 8 1 engine0 demo_stream_longer
             = Ok (demo_map, rest2)
             /\ same_draws rest2 (after 14 demo_stream_longer))
       /\ 14 = 4 * 2 + Z.of_nat (length (corridors st))
               + Z.of_nat (length (rooms st)) + 2 * trials
               + (Z.of_nat (length (entities demo_map)) - 1)
       /\ Z.of_nat (length (entities demo_map)) - 1 <= trials
       /\ trials <= Z.of_nat (length (rooms st)) * 1.
Proof.
  pose proof (generation_deterministic 2 3 3 12 8 1 engine0)
    as (H1 & H2 & Hagain & H3).
  assert (Hs : same_draws demo_stream demo_stream_again).
  { intros n. unfold demo_stream_again. lia. }
  split; [split; [exact Hs | exact (H1 _ _ Hs)]|].
  split.
  { split; [lia|]. split; [reflexivity|]. split; [discriminate|].
    apply H2; [lia | reflexivity]. }
  split; [exact demo_run|].
  split; [split; [reflexivity | exact (Hagain _ _ _ _ demo_run eq_refl)]|].
  assert (En : plan_next (replay 2 3 3 12 8 1 (player engine0) demo_stream)
               = 14%nat) by reflexivity.
  split; [exact En|]. split; [exact demo_agree|]. split; [discriminate|].
  destruct (H3 demo_stream demo_map demo_rest demo_run)
    as (st & trials & Hst & Hd & Hr & Hc & He & Hrest & Hany & Hk & Ht1 & Ht2).
  rewrite En in Hrest, Hany, Hk.
  exists st, trials. split; [exact Hst|]. split; [exact Hd|].
  split; [exact Hr|]. split; [exact Hc|]. split; [exact He|].
  split; [exact Hrest|]. split; [exact (Hany _ demo_agree)|].
  split; [exact Hk|]. split; [exact Ht1 | exact Ht2].
Defined.

Lemma bad_sizes_raise_ValueError_demo :
  1 <= 1
  /\ (3 < 5 \/ 10 <= 5 \/ 10 <= 5)
  /\ generate_dungeon 1 5 3 10 10 0 engine0 demo_stream = Raise ValueError.
Proof.
  split; [lia|]. split; [lia|].
  apply (bad_sizes_raise_ValueError 1 5 3 10 10 0 engine0 demo_stream); lia.
Defined.

Lemma monsters_drawn_from_inner_demo :
  ((exists g g', monster_position (new_RectangularRoom 0 0 3 3) g = Ok ((1, 2), g'))
   <-> in_inner (new_RectangularRoom 0 0 3 3) (1, 2) = true)
  /\ exists added,
       entities (spawn orc empty_map 1 2) = entities empty_map ++ added
       /\ Forall (fun e => in_inner (new_RectangularRoom 0 0 3 3) (ent_x e, ent_y e) = true)
            added.
Proof.
  split.
  - apply (proj1 (monsters_drawn_from_inner (new_RectangularRoom 0 0 3 3))).
  - apply (proj2 (monsters_drawn_from_inner (new_RectangularRoom 0 0 3 3))
             empty_map 1 (stream_of [1; 0; 1; 0])
             (spawn orc empty_map 1 2) (fun n => stream_of [1; 0; 1; 0] (4 + n)%nat)).
    vm_compute. reflexivity.
Defined.

(** * Further properties *)

(** ** Room geometry *)

(** X1.  [intersects] is symmetric: a room overlaps another exactly when the
    other overlaps it. *)
Theorem intersects_symmetric (a b : RectangularRoom) :
  intersects a b = intersects b a.
Proof.
  apply eq_true_iff_eq. rewrite !intersects_spec. tauto.
Qed.

(** X2.  For two rooms with [x1 <= x2] and [y1 <= y2], [intersects] holds
    exactly when their bounding boxes, borders included, share a cell: rooms
    that only touch along a border or at a corner intersect. *)
Theorem intersects_iff_boxes_meet (a b : RectangularRoom) :
  x1 a <= x2 a -> y1 a <= y2 a -> x1 b <= x2 b -> y1 b <= y2 b ->
  (intersects a b = true <-> exists c, in_bounds a c /\ in_bounds b c).
Proof.
  intros Hax Hay Hbx Hby. rewrite intersects_spec. unfold in_bounds. split.
  - intros (H1 & H2 & H3 & H4).
    exists (Z.max (x1 a) (x1 b), Z.max (y1 a) (y1 b)). simpl. lia.
  - intros ([cx cy] & Ha & Hb). simpl in *. lia.
Qed.



Lemma quot2_between a b : a <= b -> a <= Z.quot (a + b) 2 <= b.
Proof.
  intros H. destruct (Z_lt_le_dec (a + b) 0) as [Hn|Hp].
  - replace (a + b) with (- (- (a + b))) by lia.
    rewrite Z.quot_opp_l by lia. rewrite Z.quot_div_nonneg by lia.
    pose proof (Z.div_mod (- (a + b)) 2 ltac:(lia)).
    pose proof (Z.mod_pos_bound (- (a + b)) 2 ltac:(lia)). lia.
  - rewrite Z.quot_div_nonneg by lia.
    pose proof (Z.div_mod (a + b) 2 ltac:(lia)).
    pose proof (Z.mod_pos_bound (a + b) 2 ltac:(lia)). lia.
Qed.

(** X4.  For every room whose coordinate sums are at most 2^53 in magnitude,
    [center] rounds the midpoint toward zero (also for negative sums), and
    the center of a room with [x1 <= x2] and [y1 <= y2] lies in its
    bounding box. *)
Theorem center_truncates (r : RectangularRoom) :
  Z.abs (x1 r + x2 r) <= 2 ^ 53 -> Z.abs (y1 r + y2 r) <= 2 ^ 53 ->
  center r = Ok (Z.quot (x1 r + x2 r) 2, Z.quot (y1 r + y2 r) 2)
  /\ (x1 r <= x2 r -> x1 r <= Z.quot (x1 r + x2 r) 2 <= x2 r)
  /\ (y1 r <= y2 r -> y1 r <= Z.quot (y1 r + y2 r) 2 <= y2 r).
Proof.
  intros Hx Hy. rewrite center_exact by assumption. split; [reflexivity|].
  split; apply quot2_between.
Qed.

(** ** What [place_entities] adds *)

Lemma occupied_false d x y :
  occupied d x y = false ->
  forall i e, entities d !! i = Some e -> position e <> (x, y).
Proof.
  unfold occupied. intros H i e He Hp.
  assert (existsb (fun entity => (ent_x entity =? x) && (ent_y entity =? y))
            (entities d) = true); [|congruence].
  apply existsb_exists. exists e. split.
  - apply list_elem_of_In. eapply list_elem_of_lookup_2; exact He.
  - unfold position in Hp. inversion Hp. rewrite !Z.eqb_refl. reflexivity.
Qed.

Lemma distinct_cells_snoc l e :
  distinct_cells l ->
  (forall i e', l !! i = Some e' -> position e' <> position e) ->
  distinct_cells (l ++ [e]).
Proof.
  intros Hd Hn i j e1 e2 Hij H1 H2.
  apply lookup_snoc_Some in H1 as [[Hi H1]|[Hi <-]];
    apply lookup_snoc_Some in H2 as [[Hj H2]|[Hj <-]].
  - eapply Hd; eauto.
  - eapply Hn; eauto.
  - intros E. symmetry in E. revert E. eapply Hn; eauto.
  - lia.
Qed.

Lemma adds_refl n d : adds n d d.
Proof.
  repeat split; auto. exists []. rewrite app_nil_r.
  repeat split; [simpl; lia | constructor].
Qed.

Lemma adds_spawn k d x y :
  (k = Orc \/ k = Troll) -> occupied d x y = false ->
  adds 1 d (spawn k d x y).
Proof.
  intros Hk Ho. repeat split.
  - intros Hd. simpl. apply distinct_cells_snoc; [exact Hd|].
    intros i e He. apply (occupied_false d x y Ho i e He).
  - exists [mkEntity k x y]. repeat split; [simpl; lia|].
    constructor; [exact Hk | constructor].
Qed.

Lemma adds_trans n m d1 d2 d3 :
  adds n d1 d2 -> adds m d2 d3 -> adds (n + m) d1 d3.
Proof.
  intros (W1 & H1 & T1 & D1 & a1 & E1 & L1 & F1)
         (W2 & H2 & T2 & D2 & a2 & E2 & L2 & F2).
  repeat split; try congruence; [auto|].
  exists (a1 ++ a2). repeat split.
  - rewrite E2, E1, app_assoc. reflexivity.
  - rewrite length_app. lia.
  - apply Forall_app; auto.
Qed.

Lemma adds_le n m d d' : (n <= m)%nat -> adds n d d' -> adds m d d'.
Proof.
  intros Hnm (W & H & T & D & a & E & L & F). repeat split; auto.
  exists a. repeat split; auto. lia.
Qed.

Lemma place_monsters_adds n : forall r d g d' g',
  place_monsters n r d g = Ok (d', g') -> adds n d d'.
Proof.
  induction n as [|n IH]; intros r d g d' g' H; simpl in H.
  - apply ret_Ok in H as [-> _]. apply adds_refl.
  - apply bind_Ok in H as ([x y] & g1 & _ & H).
    apply bind_Ok in H as (d1 & g2 & Hd1 & H).
    apply IH in H. change (S n) with (1 + n)%nat.
    eapply adds_trans; [|exact H].
    destruct (occupied d x y) eqn:Ho; simpl in Hd1.
    + apply ret_Ok in Hd1 as [-> _]. apply adds_refl.
    + apply bind_Ok in Hd1 as (u & g3 & _ & Hd1).
      destruct (u <? float_0_8); apply ret_Ok in Hd1 as [-> _];
        apply adds_spawn; auto.
Qed.

Lemma place_entities_adds r d mm g d' g' :
  place_entities r d mm g = Ok (d', g') ->
  exists n, Z.of_nat n <= mm /\ adds n d d'.
Proof.
  unfold place_entities. intros H.
  apply bind_Ok in H as (k & g1 & Hk & H). apply randint_Ok in Hk as [Hk _].
  exists (Z.to_nat k). split; [lia|]. eapply place_monsters_adds; exact H.
Qed.

(** X7.  When [place_entities] returns, the map has the same size and the
    same tiles, the entities it had are still there in the same order, and
    behind them come at most [maximum_monsters] new entities, each an orc
    or a troll. *)
Theorem place_entities_adds_monsters
    (room : RectangularRoom) (dungeon : GameMap) (maximum_monsters : Z)
    (g : Rng) (dungeon' : GameMap) (g' : Rng) :
  place_entities room dungeon maximum_monsters g = Ok (dungeon', g') ->
  width dungeon' = width dungeon /\ height dungeon' = height dungeon
  /\ tiles dungeon' = tiles dungeon
  /\ exists added,
       entities dungeon' = entities dungeon ++ added
       /\ Z.of_nat (length added) <= maximum_monsters
       /\ Forall is_monster added.
Proof.
  intros H. apply place_entities_adds in H as (n & Hn & W & Hh & T & _ & a & E & L & F).
  repeat split; auto. exists a. repeat split; auto. lia.
Qed.

(** X8.  [place_entities] never puts a monster on an occupied cell: if no two
    entities of the map share a cell before the call, none do after it. *)
Theorem place_entities_keeps_cells_distinct
    (room : RectangularRoom) (dungeon : GameMap) (maximum_monsters : Z)
    (g : Rng) (dungeon' : GameMap) (g' : Rng) :
  distinct_cells (entities dungeon) ->
  place_entities room dungeon maximum_monsters g = Ok (dungeon', g') ->
  distinct_cells (entities dungeon').
Proof.
  intros Hd H. apply place_entities_adds in H as (n & _ & _ & _ & _ & D & _).
  apply D, Hd.
Qed.

(** X6.  With [maximum_monsters = 0], [place_entities] makes its one draw and
    returns the map unchanged; with a negative [maximum_monsters] it raises
    [ValueError]. *)
Theorem place_entities_without_monsters
    (room : RectangularRoom) (dungeon : GameMap) (maximum_monsters : Z) (g : Rng) :
  (maximum_monsters = 0 ->
   place_entities room dungeon maximum_monsters g
   = Ok (dungeon, snd (rng_next g)))
  /\ (maximum_monsters < 0 ->
      place_entities room dungeon maximum_monsters g = Raise ValueError).
Proof.
  split.
  - intros ->. unfold place_entities, bind, randint. simpl.
    rewrite Z.mod_1_r. reflexivity.
  - intros H. unfold place_entities. apply bind_Raise_intro.
    apply randint_empty. exact H.
Qed.

Lemma GameMap_eq (d d' : GameMap) :
  width d' = width d -> height d' = height d -> tiles d' = tiles d ->
  entities d' = entities d -> d' = d.
Proof. destruct d, d'; simpl; intros; subst; reflexivity. Qed.

(** X5.  A room at most one tile wide or high has no interior cell, and
    [place_entities] never spawns in it: either it returns the map
    unchanged (no monster was drawn) or the position draw raises
    [ValueError]. *)
Theorem room_without_interior (room : RectangularRoom) :
  x2 room <= x1 room + 1 \/ y2 room <= y1 room + 1 ->
  (forall c, in_inner room c = false)
  /\ forall dungeon maximum_monsters g,
       match place_entities room dungeon maximum_monsters g with
       | Ok (dungeon', _) => dungeon' = dungeon
       | Raise e => e = ValueError
       end.
Proof.
  intros Hsmall.
  assert (Hno : forall c, in_inner room c = false).
  { intros c. destruct (in_inner room c) eqn:E; [|reflexivity].
    apply in_inner_spec in E. lia. }
  split; [exact Hno|]. intros d mm g.
  destruct (place_entities room d mm g) as [[d' g']|e] eqn:E.
  - apply place_entities_extends in E as (W & H & T & added & Ea & F).
    apply GameMap_eq; auto. destruct added as [|e added].
    + rewrite app_nil_r in Ea. exact Ea.
    + inversion F as [|? ? Hin _]; subst. rewrite Hno in Hin. discriminate.
  - eapply raises_only_place_entities; exact E.
Qed.

(** ** Rooms and player of a run *)

(** An attempt that returns, with the call that placed its monsters. *)
Lemma attempt_inv mn mx mm st g st' g' :
  attempt mn mx mm st g = Ok (st', g') ->
  exists new,
    drawn_on mn mx (width (dungeon st)) (height (dungeon st)) new
    /\ if existsb (intersects new) (rooms st) then st' = st
       else exists d2 paths d3 g5,
              dug st new d2 paths
              /\ place_entities new d2 mm g5 = Ok (d3, g')
              /\ st' = {| dungeon := d3;
                          rooms := rooms st ++ [new];
                          corridors := corridors st ++ paths |}.
Proof.
  unfold attempt. intros H.
  apply bind_Ok in H as (w & g1 & Hw & H). apply randint_Ok in Hw as [Hw _].
  apply bind_Ok in H as (h & g2 & Hh & H). apply randint_Ok in Hh as [Hh _].
  apply bind_Ok in H as (x & g3 & Hx & H). apply randint_Ok in Hx as [Hx _].
  apply bind_Ok in H as (y & g4 & Hy & H). apply randint_Ok in Hy as [Hy _].
  exists (new_RectangularRoom x y w h). split.
  { exists w, h. simpl. repeat split; lia. }
  set (new := new_RectangularRoom x y w h) in *.
  change (existsb (fun other_room => intersects new other_room) (rooms st))
    with (existsb (intersects new) (rooms st)) in H.
  destruct (existsb (intersects new) (rooms st)).
  { apply ret_Ok in H as [-> _]. reflexivity. }
  apply bind_Ok in H as ([d2 paths] & g5 & Hdug & H).
  apply bind_Ok in H as (d3 & g6 & Hpl & H).
  apply ret_Ok in H as [-> ->].
  exists d2, paths, d3, g5. split; [|split; [exact Hpl | reflexivity]].
  unfold dug. destruct (last (rooms st)) as [previous|].
  - apply bind_Ok in Hdug as (from & g7 & Hf & Hdug). apply lift_Ok in Hf as [Hf _].
    apply bind_Ok in Hdug as (to & g8 & Ht & Hdug). apply lift_Ok in Ht as [Ht _].
    apply bind_Ok in Hdug as (path & g9 & Hp & Hdug).
    rewrite tunnel_between_Ok in Hp. inversion Hp; subst path g9; clear Hp.
    apply bind_Ok in Hdug as (a & g10 & Ha & Hdug). apply lift_Ok in Ha as [Ha _].
    apply ret_Ok in Hdug as [E _]. inversion E; subst.
    eexists from, to, _, a. repeat split; assumption.
  - apply bind_Ok in Hdug as ([cx cy] & g7 & Hc & Hdug). apply lift_Ok in Hc as [Hc _].
    apply ret_Ok in Hdug as [E _]. inversion E; subst.
    exists (cx, cy). repeat split; assumption.
Qed.

Lemma attempts_invariant mn mx mm (P : GenState -> Prop) :
  (forall st g st' g', P st -> attempt mn mx mm st g = Ok (st', g') -> P st') ->
  forall n st g st' g',
    P st -> attempts mn mx mm n st g = Ok (st', g') -> P st'.
Proof.
  intros Hstep n. induction n as [|n IH]; intros st g st' g' HP H; simpl in H.
  - apply ret_Ok in H as [-> _]. exact HP.
  - apply bind_Ok in H as (st1 & g1 & H1 & H).
    eapply IH; [|exact H]. eapply Hstep; [exact HP | exact H1].
Qed.

(** The rooms accepted so far stay, in their order; each attempt adds at
    most one, and the first attempt on an empty list adds one. *)
Lemma attempt_rooms mn mx mm st g st' g' :
  attempt mn mx mm st g = Ok (st', g') ->
  (rooms st' = rooms st \/ exists new, rooms st' = rooms st ++ [new])
  /\ (rooms st = [] -> rooms st' <> []).
Proof.
  intros H. apply attempt_inv in H as (new & _ & H).
  destruct (existsb (intersects new) (rooms st)) eqn:E.
  - subst st'. split; [left; reflexivity|]. intros Hr. rewrite Hr in E. discriminate.
  - destruct H as (d2 & paths & d3 & g5 & _ & _ & ->). simpl. split.
    + right. exists new. reflexivity.
    + intros _. destruct (rooms st); discriminate.
Qed.

Lemma attempts_rooms mn mx mm n : forall st g st' g',
  attempts mn mx mm n st g = Ok (st', g') ->
  (length (rooms st) <= length (rooms st') <= length (rooms st) + n)%nat
  /\ ((0 < n)%nat -> rooms st' <> []).
Proof.
  induction n as [|n IH]; intros st g st' g' H; simpl in H.
  - apply ret_Ok in H as [-> _]. split; lia.
  - apply bind_Ok in H as (st1 & g1 & H1 & H).
    apply attempt_rooms in H1 as [Hr Hne]. apply IH in H as [Hlen Hpos].
    assert (Hl1 : (length (rooms st) <= length (rooms st1) <= length (rooms st) + 1)%nat).
    { destruct Hr as [->|[new ->]]; [lia|]. rewrite length_app; simpl; lia. }
    split; [lia|]. intros _.
    destruct (rooms st') eqn:E; [|discriminate]. exfalso.
    simpl in Hlen.
    assert (rooms st1 = []) by (destruct (rooms st1); [reflexivity | simpl in Hlen; lia]).
    assert (rooms st = []) by (destruct (rooms st); [reflexivity | simpl in Hl1; rewrite H in Hl1; simpl in Hl1; lia]).
    apply Hne; assumption.
Qed.

(** X10.  [max_rooms] is a budget of attempts: with [max_rooms >= 1], a map
    that is returned has at least one and at most [max_rooms] accepted
    rooms, and one tunnel less than it has rooms. *)
Theorem room_count_within_budget
    (max_rooms room_min_size room_max_size map_width map_height
     max_monsters_per_room : Z) (engine : Engine) (g : Rng)
    (d : GameMap) (g' : Rng) :
  1 <= max_rooms ->
  generate_dungeon max_rooms room_min_size room_max_size map_width map_height
    max_monsters_per_room engine g = Ok (d, g') ->
  exists st,
    generate_dungeon_state max_rooms room_min_size room_max_size map_width
      map_height max_monsters_per_room engine g = Ok (st, g')
    /\ dungeon st = d
    /\ 1 <= Z.of_nat (length (rooms st)) <= max_rooms
    /\ Z.of_nat (length (corridors st)) = Z.of_nat (length (rooms st)) - 1.
Proof.
  intros Hn H. apply generate_dungeon_Ok in H as (st & Hst & Hd).
  exists st. split; [exact Hst|]. split; [exact Hd|].
  pose proof (run_layout _ _ _ _ _ _ _ _ _ _ Hst) as (_ & _ & _ & _ & _ & Hlen & _).
  apply generate_dungeon_state_Ok in Hst as (d0 & _ & Hrun).
  apply attempts_rooms in Hrun as [Hr Hpos]. simpl in Hr.
  assert (rooms st <> []) by (apply Hpos; lia).
  destruct (rooms st); [congruence|]. simpl in *. lia.
Qed.

(** X11.  With [max_rooms <= 0] no attempt is made: no number is drawn, and
    the map is returned all wall, holding the player alone, left where the
    engine had it. *)
Theorem no_attempt_no_room
    (max_rooms room_min_size room_max_size map_width map_height
     max_monsters_per_room : Z) (engine : Engine) (g : Rng) :
  max_rooms <= 0 -> 0 <= map_width -> 0 <= map_height ->
  exists d,
    generate_dungeon max_rooms room_min_size room_max_size map_width map_height
      max_monsters_per_room engine g = Ok (d, g)
    /\ width d = map_width /\ height d = map_height
    /\ entities d = [player engine]
    /\ forall c, in_grid d c -> getitem (fst c) (snd c) (tiles d) = Ok wall.
Proof.
  intros Hn Hw Hh.
  destruct (new_GameMap_total map_width map_height [player engine] Hw Hh) as [d0 Ed].
  exists d0. split.
  - unfold generate_dungeon, generate_dungeon_state.
    erewrite bind_Ok_intro.
    2:{ erewrite bind_Ok_intro by (apply lift_Ok_intro; exact Ed).
        replace (Z.to_nat max_rooms) with 0%nat by lia. reflexivity. }
    reflexivity.
  - apply new_GameMap_Ok in Ed as (Ew & Eh & Ee & Ht).
    repeat split; try assumption.
    intros [cx cy] [Hx Hy]. rewrite Ew in Hx. rewrite Eh in Hy. simpl in *.
    rewrite (getitem_tiles _ _ _ _ _ _ Ht Hx Hy). reflexivity.
Qed.

(** X12.  With [max_rooms >= 1], every map that is returned has the player,
    still the first entity, at the center of the first accepted room; later
    rooms do not move it. *)
Theorem player_placed_in_first_room
    (max_rooms room_min_size room_max_size map_width map_height
     max_monsters_per_room : Z) (engine : Engine) (g : Rng)
    (d : GameMap) (g' : Rng) :
  1 <= max_rooms ->
  generate_dungeon max_rooms room_min_size room_max_size map_width map_height
    max_monsters_per_room engine g = Ok (d, g') ->
  exists st first c,
    generate_dungeon_state max_rooms room_min_size room_max_size map_width
      map_height max_monsters_per_room engine g = Ok (st, g')
    /\ dungeon st = d
    /\ head (rooms st) = Some first
    /\ center first = Ok c
    /\ head (entities d) = Some (move_to (fst c) (snd c) (player engine)).
Proof.
  intros Hn H. apply generate_dungeon_Ok in H as (st & Hst & Hd).
  pose proof (run_layout _ _ _ _ _ _ _ _ _ _ Hst) as (_ & _ & _ & _ & _ & _ & Hpl).
  pose proof Hst as Hrun.
  apply generate_dungeon_state_Ok in Hrun as (d0 & _ & Hrun).
  apply attempts_rooms in Hrun as [_ Hpos].
  assert (Hne : rooms st <> []) by (apply Hpos; lia).
  destruct (rooms st) as [|first rest] eqn:Er; [congruence|].
  simpl in Hpl. destruct Hpl as (c & Hc & Hp).
  exists st, first, c. subst d. rewrite Er. auto.
Qed.

(** ** Entities and tunnels along the loop *)

Lemma distinct_cells_single e : distinct_cells [e].
Proof.
  intros i j e1 e2 Hij H1 H2.
  apply list_lookup_singleton_Some in H1 as [-> _].
  apply list_lookup_singleton_Some in H2 as [-> _]. congruence.
Qed.

Lemma populated_attempt mn mx mm w h p0 st g st' g' :
  layout mn mx w h p0 st -> populated mm st ->
  attempt mn mx mm st g = Ok (st', g') -> populated mm st'.
Proof.
  intros Hl (Hd & Hc & Ht) H. apply attempt_inv in H as (new & _ & H).
  destruct (existsb (intersects new) (rooms st));
    [subst st'; exact (conj Hd (conj Hc Ht))|].
  destruct H as (d2 & paths & d3 & g5 & Hdug & Hpl & ->).
  destruct Hl as (_ & _ & _ & _ & _ & _ & Hhead).
  apply dug_frame in Hdug as (_ & _ & _ & Hd2).
  pose proof (place_entities_extends _ _ _ _ _ _ Hpl) as (_ & _ & _ & added & Ea & Fin).
  pose proof (place_entities_adds _ _ _ _ _ _ Hpl)
    as (n & Hn & _ & _ & _ & Hdist & added' & Ea' & La & Fm).
  assert (added' = added) by (rewrite Ea in Ea'; eapply app_inv_head; symmetry; exact Ea').
  subst added'.
  assert (H2 : distinct_cells (entities d2)
               /\ length (entities d2) = length (entities (dungeon st))
               /\ forall i, entities d2 !! S i = entities (dungeon st) !! S i).
  { destruct (last (rooms st)) eqn:El.
    - destruct Hd2 as [_ ->]. auto.
    - destruct Hd2 as (_ & c & _ & ->). apply last_None in El.
      rewrite El in Hc, Hhead. simpl in Hc, Hhead.
      destruct (entities (dungeon st)) as [|p [|q rest]]; simpl in *;
        [discriminate | | lia].
      repeat split; auto. apply distinct_cells_single. }
  destruct H2 as (Hd2' & Hlen2 & Htail2).
  unfold populated; cbn [dungeon rooms]. split; [|split].
  - apply Hdist, Hd2'.
  - rewrite Ea, !length_app, Hlen2. simpl. lia.
  - intros i e He. rewrite Ea in He.
    apply lookup_app_Some in He as [He|[Hge He]].
    + rewrite Htail2 in He. destruct (Ht i e He) as (Hm & r & Hr & Hin).
      split; [exact Hm|]. exists r. split; [|exact Hin].
      apply in_or_app. left. exact Hr.
    + assert (Hadd : e ∈ added) by (eapply list_elem_of_lookup_2; exact He).
      split.
      * eapply Forall_forall in Fm; eauto.
      * exists new. split; [apply in_or_app; right; left; reflexivity|].
        eapply (Forall_forall _ added) in Fin; [exact Fin | exact Hadd].
Qed.

Lemma initial_populated mm w h p0 d :
  new_GameMap w h [p0] = Ok d -> populated mm (initial d).
Proof.
  intros H. apply new_GameMap_Ok in H as (_ & _ & He & _).
  unfold populated; simpl. rewrite He. split; [apply distinct_cells_single|].
  split; [simpl; lia|]. intros i e Hi. destruct i; discriminate.
Qed.

Lemma run_populated n mn mx w h mm engine g st g' :
  generate_dungeon_state n mn mx w h mm engine g = Ok (st, g') ->
  populated mm st.
Proof.
  intros H. apply generate_dungeon_state_Ok in H as (d0 & Hd & H).
  apply (attempts_invariant mn mx mm
           (fun s => layout mn mx w h (player engine) s /\ populated mm s))
    with (n := Z.to_nat n) (st := initial d0) (g := g) (g' := g') (st' := st).
  - intros s g1 s' g1' [Hl Hp] Hs. split.
    + eapply layout_step; [exact Hl|]. eapply attempt_step; exact Hs.
    + exact (populated_attempt mn mx mm w h (player engine) s g1 s' g1' Hl Hp Hs).
  - split; [apply initial_layout | eapply initial_populated]; exact Hd.
  - exact H.
Qed.

Lemma chained_step mn mx w h p0 st st' :
  layout mn mx w h p0 st -> chained st -> step mn mx st st' -> chained st'.
Proof.
  intros Hl Hch (new & _ & H).
  destruct (existsb (intersects new) (rooms st)); [subst st'; exact Hch|].
  destruct H as (d2 & paths & d3 & Hdug & _ & ->).
  destruct Hl as (_ & _ & _ & _ & _ & Hlen & _).
  unfold dug in Hdug. intros i a b Ha Hb. cbn [rooms corridors] in *.
  apply lookup_snoc_Some in Hb as [[Hj Hb]|[Hj <-]].
  - apply lookup_snoc_Some in Ha as [[Hi Ha]|[Hi _]]; [|lia].
    destruct (Hch i a b Ha Hb) as (ca & cb & coin & Hca & Hcb & Hp).
    exists ca, cb, coin. repeat split; auto.
    apply lookup_app_l_Some. exact Hp.
  - apply lookup_snoc_Some in Ha as [[Hi Ha]|[Hi _]]; [|lia].
    assert (El : last (rooms st) = Some a).
    { rewrite last_lookup. rewrite <- Hj. simpl. exact Ha. }
    rewrite El in Hdug.
    destruct Hdug as (from & to & coin & arr & Hf & Hto & _ & _ & ->).
    exists from, to, coin. repeat split; auto.
    rewrite lookup_app_r by lia.
    replace (i - length (corridors st))%nat with 0%nat by lia. reflexivity.
Qed.

Lemma run_chained n mn mx w h mm engine g st g' :
  generate_dungeon_state n mn mx w h mm engine g = Ok (st, g') ->
  chained st.
Proof.
  intros H. apply generate_dungeon_state_Ok in H as (d0 & Hd & H).
  apply (attempts_preserve mn mx mm
           (fun s => layout mn mx w h (player engine) s /\ chained s))
    with (n := Z.to_nat n) (st := initial d0) (g := g) (g' := g') (st' := st).
  - intros s s' [Hl Hc] Hs. split.
    + eapply layout_step; eauto.
    + eapply chained_step; eauto.
  - split; [apply initial_layout; exact Hd|].
    intros i a b Ha. discriminate.
  - exact H.
Qed.

(** ** Returned maps *)

Lemma carved_path st p c :
  In p (corridors st) -> In c p -> carved st c = true.
Proof.
  intros Hp Hc. unfold carved. apply orb_true_iff. right.
  apply existsb_exists. exists p. split; [exact Hp|]. apply on_path_In. exact Hc.
Qed.

Lemma carved_spec st c :
  carved st c = true <->
  (exists r, In r (rooms st) /\ in_inner r c = true)
  \/ (exists p, In p (corridors st) /\ In c p).
Proof.
  unfold carved. rewrite orb_true_iff, !existsb_exists. split.
  - intros [(r & Hr & Hin)|(p & Hp & Hc)]; [left | right]; eauto.
    exists p. split; [exact Hp|]. apply on_path_In. exact Hc.
  - intros [(r & Hr & Hin)|(p & Hp & Hc)]; [left | right]; eauto.
    exists p. split; [exact Hp|]. apply on_path_In. exact Hc.
Qed.

(** The tiles of a returned map, cell by cell. *)
Lemma run_tiles n mn mx w h mm engine g st g' :
  0 <= mn ->
  generate_dungeon_state n mn mx w h mm engine g = Ok (st, g') ->
  width (dungeon st) = w /\ height (dungeon st) = h
  /\ (forall c, cell_in w h c ->
        getitem (fst c) (snd c) (tiles (dungeon st))
        = Ok (if carved st c then floor else wall))
  /\ (forall c, carved st c = true -> cell_in w h c).
Proof.
  intros Hmn H.
  pose proof (run_layout _ _ _ _ _ _ _ _ _ _ H) as (Hw & Hh & _ & Hfit & _).
  pose proof (run_carving _ _ _ _ _ _ _ _ _ _ Hmn H) as [Ht Hcor].
  split; [exact Hw|]. split; [exact Hh|]. split.
  - intros [cx cy] [Hx Hy]. simpl in *. apply (getitem_tiles _ _ _ _ _ _ Ht Hx Hy).
  - intros c Hc. apply carved_spec in Hc as [(r & Hr & Hin)|(p & Hp & Hc)].
    + eapply inner_in_grid; [|exact Hin]. eapply drawn_on_fits.
      eapply Forall_forall in Hfit; [exact Hfit|]. apply list_elem_of_In. exact Hr.
    + eapply Forall_forall in Hcor; [|apply list_elem_of_In; exact Hp].
      eapply Forall_forall in Hcor; [exact Hcor|]. apply list_elem_of_In. exact Hc.
Qed.

(** X13.  In every map [generate_dungeon] returns, no two entities, the
    player included, stand on the same cell. *)
Theorem entities_on_distinct_cells
    (max_rooms room_min_size room_max_size map_width map_height
     max_monsters_per_room : Z) (engine : Engine) (g : Rng)
    (d : GameMap) (g' : Rng) :
  generate_dungeon max_rooms room_min_size room_max_size map_width map_height
    max_monsters_per_room engine g = Ok (d, g') ->
  forall i j e1 e2,
    i <> j -> entities d !! i = Some e1 -> entities d !! j = Some e2 ->
    (ent_x e1, ent_y e1) <> (ent_x e2, ent_y e2).
Proof.
  intros H. apply generate_dungeon_Ok in H as (st & Hst & <-).
  apply run_populated in Hst as (Hd & _). exact Hd.
Qed.

(** X14.  In every map [generate_dungeon] returns (room sizes not negative),
    every entity behind the player is an orc or a troll and stands in the
    interior of an accepted room, on a floor tile. *)
Theorem monsters_stand_on_room_floor
    (max_rooms room_min_size room_max_size map_width map_height
     max_monsters_per_room : Z) (engine : Engine) (g : Rng)
    (d : GameMap) (g' : Rng) :
  0 <= room_min_size ->
  generate_dungeon max_rooms room_min_size room_max_size map_width map_height
    max_monsters_per_room engine g = Ok (d, g') ->
  exists st,
    generate_dungeon_state max_rooms room_min_size room_max_size map_width
      map_height max_monsters_per_room engine g = Ok (st, g')
    /\ dungeon st = d
    /\ forall i e,
         entities d !! S i = Some e ->
         is_monster e
         /\ (exists room, In room (rooms st) /\ in_inner room (position e) = true)
         /\ getitem (ent_x e) (ent_y e) (tiles d) = Ok floor.
Proof.
  intros Hmn H. apply generate_dungeon_Ok in H as (st & Hst & <-).
  exists st. split; [exact Hst|]. split; [reflexivity|].
  pose proof (run_populated _ _ _ _ _ _ _ _ _ _ Hst) as (_ & _ & Ht).
  pose proof (run_tiles _ _ _ _ _ _ _ _ _ _ Hmn Hst) as (_ & _ & Hget & Hin).
  intros i e He. destruct (Ht i e He) as (Hm & r & Hr & Hinner).
  split; [exact Hm|]. split; [eauto|].
  assert (Hc : carved st (position e) = true) by (eapply carved_room; eauto).
  specialize (Hget (position e) (Hin _ Hc)). rewrite Hc in Hget. exact Hget.
Qed.

(** X15.  A map returned by [generate_dungeon] holds the player and at most
    [max_rooms * max_monsters_per_room] monsters. *)
Theorem monster_count_bounded
    (max_rooms room_min_size room_max_size map_width map_height
     max_monsters_per_room : Z) (engine : Engine) (g : Rng)
    (d : GameMap) (g' : Rng) :
  0 <= max_rooms -> 0 <= max_monsters_per_room ->
  generate_dungeon max_rooms room_min_size room_max_size map_width map_height
    max_monsters_per_room engine g = Ok (d, g') ->
  1 <= Z.of_nat (length (entities d)) <= 1 + max_rooms * max_monsters_per_room.
Proof.
  intros Hn Hmm H. apply generate_dungeon_Ok in H as (st & Hst & <-).
  pose proof (run_populated _ _ _ _ _ _ _ _ _ _ Hst) as (_ & Hc & _).
  pose proof (run_layout _ _ _ _ _ _ _ _ _ _ Hst) as (_ & _ & _ & _ & _ & _ & Hhead).
  apply generate_dungeon_state_Ok in Hst as (d0 & _ & Hrun).
  apply attempts_rooms in Hrun as [Hr _]. simpl in Hr. split.
  - destruct (entities (dungeon st)); [|simpl; lia].
    destruct (head (rooms st)); [destruct Hhead as (c & _ & Hh)|]; discriminate.
  - nia.
Qed.

(** X16.  In every map [generate_dungeon] returns (room sizes not negative),
    the i-th tunnel is a path of adjacent cells from the center of the
    i-th accepted room to the center of the one accepted next, and all its
    cells hold floor. *)
Theorem tunnels_chain_rooms
    (max_rooms room_min_size room_max_size map_width map_height
     max_monsters_per_room : Z) (engine : Engine) (g : Rng)
    (d : GameMap) (g' : Rng) :
  0 <= room_min_size ->
  generate_dungeon max_rooms room_min_size room_max_size map_width map_height
    max_monsters_per_room engine g = Ok (d, g') ->
  exists st,
    generate_dungeon_state max_rooms room_min_size room_max_size map_width
      map_height max_monsters_per_room engine g = Ok (st, g')
    /\ dungeon st = d
    /\ forall i a b,
         rooms st !! i = Some a -> rooms st !! S i = Some b ->
         exists ca cb path,
           center a = Ok ca /\ center b = Ok cb
           /\ corridors st !! i = Some path
           /\ path_from_to ca cb path
           /\ forall c, In c path ->
                getitem (fst c) (snd c) (tiles d) = Ok floor.
Proof.
  intros Hmn H. apply generate_dungeon_Ok in H as (st & Hst & <-).
  exists st. split; [exact Hst|]. split; [reflexivity|].
  pose proof (run_chained _ _ _ _ _ _ _ _ _ _ Hst) as Hch.
  pose proof (run_tiles _ _ _ _ _ _ _ _ _ _ Hmn Hst) as (_ & _ & Hget & Hin).
  intros i a b Ha Hb. destruct (Hch i a b Ha Hb) as (ca & cb & coin & Hca & Hcb & Hp).
  exists ca, cb, (tunnel_cells coin ca cb).
  split; [exact Hca|]. split; [exact Hcb|]. split; [exact Hp|]. split.
  - destruct (tunnel_cells_path coin ca cb) as (Hh & Hl & Hc & _).
    split; [exact Hh|]. split; [exact Hl|]. apply connected_lookup, Hc.
  - intros c Hc.
    assert (Hcv : carved st c = true).
    { eapply carved_path; [|exact Hc]. apply list_elem_of_In.
      eapply list_elem_of_lookup_2; exact Hp. }
    specialize (Hget c (Hin _ Hcv)). rewrite Hcv in Hget. exact Hget.
Qed.

(** X17.  In every map [generate_dungeon] returns (room sizes not negative),
    each cell of the grid holds the floor tile or the wall tile; it is
    walkable exactly when it lies in the interior of an accepted room or
    on a tunnel, and transparent exactly when walkable. *)
Theorem walkable_iff_carved
    (max_rooms room_min_size room_max_size map_width map_height
     max_monsters_per_room : Z) (engine : Engine) (g : Rng)
    (d : GameMap) (g' : Rng) :
  0 <= room_min_size ->
  generate_dungeon max_rooms room_min_size room_max_size map_width map_height
    max_monsters_per_room engine g = Ok (d, g') ->
  exists st,
    generate_dungeon_state max_rooms room_min_size room_max_size map_width
      map_height max_monsters_per_room engine g = Ok (st, g')
    /\ dungeon st = d
    /\ forall c, in_grid d c ->
         exists t,
           getitem (fst c) (snd c) (tiles d) = Ok t
           /\ (t = floor \/ t = wall)
           /\ (walkable t = true <->
               (exists room, In room (rooms st) /\ in_inner room c = true)
               \/ (exists path, In path (corridors st) /\ In c path))
           /\ transparent t = walkable t.
Proof.
  intros Hmn H. apply generate_dungeon_Ok in H as (st & Hst & <-).
  exists st. split; [exact Hst|]. split; [reflexivity|].
  pose proof (run_tiles _ _ _ _ _ _ _ _ _ _ Hmn Hst) as (Hw & Hh & Hget & _).
  intros c Hc. unfold in_grid in Hc. rewrite Hw, Hh in Hc.
  specialize (Hget c Hc).
  destruct (carved st c) eqn:E; eexists; (split; [exact Hget|]);
    rewrite <- carved_spec, E; simpl.
  - split; [left; reflexivity|]. split; [tauto | reflexivity].
  - split; [right; reflexivity|]. split; [|reflexivity].
    split; discriminate.
Qed.


(** ** The shape of a tunnel *)

Lemma line_walk_h_steps fuel : forall d,
  hline d -> Z.abs (destx d - origx d) < Z.of_nat fuel ->
  let p := (origx d, origy d) :: line_walk fuel d in
  stepwise p /\ Z.of_nat (length p) = Z.abs (destx d - origx d) + 1.
Proof.
  induction fuel as [|fuel IH]; intros d Hd Hf; [lia|].
  destruct Hd as (Hdy & Hsy & He & Hpos & Hs & Hdir).
  simpl. unfold line_step. rewrite Hdy, Hsy, Z.mul_0_l.
  destruct (Z.gtb_spec (stepx d * deltax d) 0) as [_|?]; [|lia].
  destruct (Z.eqb_spec (origx d) (destx d)) as [E|E].
  - simpl. split; [split; exact I | lia].
  - rewrite Z.sub_0_r. destruct (Z.ltb_spec (err d) 0) as [?|_]; [lia|].
    set (d' := mkLine _ _ _ _ _ _ _ _ _).
    assert (Hd' : hline d').
    { unfold hline, d'; simpl. repeat split; try assumption. nia. }
    assert (Hf' : Z.abs (destx d' - origx d') < Z.of_nat fuel).
    { unfold d'; simpl. nia. }
    destruct (IH d' Hd' Hf') as (Hc & Hlen).
    split; [split|].
    + simpl. unfold beside; simpl. lia.
    + exact Hc.
    + cbn [length] in *. rewrite Nat2Z.inj_succ, Hlen.
      unfold d'; cbn [destx origx desty origy]. destruct Hs; lia.
Qed.

Lemma line_walk_v_steps fuel : forall d,
  vline d -> Z.abs (desty d - origy d) < Z.of_nat fuel ->
  let p := (origx d, origy d) :: line_walk fuel d in
  stepwise p /\ Z.of_nat (length p) = Z.abs (desty d - origy d) + 1.
Proof.
  induction fuel as [|fuel IH]; intros d Hd Hf; [lia|].
  destruct Hd as (Hdx & Hsx & He & Hpos & Hs & Hdir).
  simpl. unfold line_step. rewrite Hdx, Hsx, Z.mul_0_l.
  destruct (Z.gtb_spec 0 (stepy d * deltay d)) as [?|_]; [lia|].
  destruct (Z.eqb_spec (origy d) (desty d)) as [E|E].
  - simpl. split; [split; exact I | lia].
  - rewrite Z.sub_0_r. destruct (Z.ltb_spec (err d) 0) as [?|_]; [lia|].
    set (d' := mkLine _ _ _ _ _ _ _ _ _).
    assert (Hd' : vline d').
    { unfold vline, d'; simpl. repeat split; try assumption; [lia | nia]. }
    assert (Hf' : Z.abs (desty d' - origy d') < Z.of_nat fuel).
    { unfold d'; simpl. nia. }
    destruct (IH d' Hd' Hf') as (Hc & Hlen).
    split; [split|].
    + simpl. unfold beside; simpl. lia.
    + exact Hc.
    + cbn [length] in *. rewrite Nat2Z.inj_succ, Hlen.
      unfold d'; cbn [destx origx desty origy]. destruct Hs; lia.
Qed.

Lemma line_init_vline x ya yb : vline (line_init x ya x yb).
Proof.
  unfold vline, line_init; simpl. rewrite Z.sub_diag. simpl.
  destruct (Z.lt_trichotomy ya yb) as [Hy|[Hy|Hy]];
    [rewrite Z.sgn_pos by lia | subst yb; rewrite Z.sub_diag; simpl
     | rewrite Z.sgn_neg by lia];
    repeat split; try lia;
    match goal with |- context [?a >? ?b] =>
      destruct (Z.gtb_spec a b); lia end.
Qed.

Lemma line_init_hline xa xb y : xa <> xb -> hline (line_init xa y xb y).
Proof.
  intros Hne. unfold hline, line_init; simpl. rewrite Z.sub_diag. simpl.
  destruct (Z.lt_trichotomy xa xb) as [Hx|[Hx|Hx]];
    [rewrite Z.sgn_pos by lia | lia | rewrite Z.sgn_neg by lia];
    repeat split; try lia;
    match goal with |- context [?a >? ?b] =>
      destruct (Z.gtb_spec a b); lia end.
Qed.

(** A line along one axis advances by single steps and has one cell per
    unit of its length, both ends included. *)
Lemma bresenham_axis_steps a b :
  fst a = fst b \/ snd a = snd b ->
  stepwise (bresenham a b)
  /\ Z.of_nat (length (bresenham a b))
     = Z.abs (fst a - fst b) + Z.abs (snd a - snd b) + 1.
Proof.
  destruct a as [xa ya], b as [xb yb]; simpl. intros Hax.
  set (fuel := Z.to_nat _).
  destruct (Z.eq_dec xa xb) as [Ex|Ex].
  - subst xb.
    destruct (line_walk_v_steps fuel _ (line_init_vline xa ya yb)) as (Hc & Hl).
    { unfold fuel; simpl. lia. }
    simpl in Hc, Hl. split; [exact Hc|]. simpl length. lia.
  - assert (yb = ya) by lia. subst yb.
    destruct (line_walk_h_steps fuel _ (line_init_hline xa xb ya Ex)) as (Hc & Hl).
    { unfold fuel; simpl. lia. }
    simpl in Hc, Hl. split; [exact Hc|]. simpl length. lia.
Qed.

Lemma stepwise_app p q :
  stepwise p -> stepwise q ->
  (forall a b, last p = Some a -> head q = Some b -> beside a b) ->
  stepwise (p ++ q).
Proof.
  induction p as [|c p IH]; intros Hp Hq Hj; simpl; [exact Hq|].
  destruct Hp as [Hh Hp]. split.
  - destruct p as [|c' p]; simpl in *.
    + destruct (head q) eqn:E; [|exact I]. apply Hj; reflexivity.
    + exact Hh.
  - apply IH; auto. intros a b Ha Hb. apply Hj; [|exact Hb].
    destruct p; [discriminate|]. rewrite last_cons_cons. exact Ha.
Qed.

Lemma tunnel_cells_shape coin a b :
  let p := tunnel_cells coin a b in
  stepwise p
  /\ Z.of_nat (length p) = Z.abs (fst a - fst b) + Z.abs (snd a - snd b) + 2
  /\ In (corner_of coin a b) p
  /\ Forall (fun c => in_box a b c /\ on_legs coin a b c) p.
Proof.
  destruct a as [xa ya], b as [xb yb]. unfold tunnel_cells, corner_of, on_legs.
  cbn [fst snd].
  set (corner := if coin then (xb, ya) else (xa, yb)).
  assert (Hc1 : fst (xa, ya) = fst corner \/ snd (xa, ya) = snd corner)
    by (unfold corner; destruct coin; simpl; auto).
  assert (Hc2 : fst corner = fst (xb, yb) \/ snd corner = snd (xb, yb))
    by (unfold corner; destruct coin; simpl; auto).
  destruct (bresenham_axis _ _ Hc1) as (H1 & L1 & _ & B1).
  destruct (bresenham_axis _ _ Hc2) as (H2 & L2 & _ & B2).
  destruct (bresenham_axis_steps _ _ Hc1) as (S1 & N1).
  destruct (bresenham_axis_steps _ _ Hc2) as (S2 & N2).
  assert (Ecorner : corner = (if coin then (xb, ya) else (xa, yb))) by reflexivity.
  destruct corner as [cx cy]. cbv zeta.
  split; [|split; [|split]].
  - apply stepwise_app; auto. intros u v Hu Hv.
    rewrite L1 in Hu. rewrite H2 in Hv. inversion Hu; inversion Hv; subst.
    unfold beside. rewrite !Z.sub_diag. simpl. lia.
  - rewrite length_app, Nat2Z.inj_add, N1, N2.
    destruct coin; inversion Ecorner; subst; simpl; lia.
  - apply in_or_app. left.
    apply list_elem_of_In. eapply last_Some_elem_of. exact L1.
  - apply Forall_app. split; (eapply Forall_impl; [eassumption|]);
      intros c Hc; unfold in_box, within in *; simpl in *;
      destruct coin; inversion Ecorner; subst; simpl; lia.
Qed.

(** X9.  The tunnel [tunnel_between] yields has
    [|x1 - x2| + |y1 - y2| + 2] cells (the corner comes twice), passes
    through its corner, stays in the bounding box of its endpoints on the
    two legs of the L, and moves from each cell to the next by at most one
    step along one axis. *)
Theorem tunnel_shape (start_ end_ : Z * Z) (g : Rng) :
  exists coin path g',
    tunnel_between start_ end_ g = Ok (path, g')
    /\ Z.of_nat (length path)
       = Z.abs (fst start_ - fst end_) + Z.abs (snd start_ - snd end_) + 2
    /\ In (corner_of coin start_ end_) path
    /\ (forall c, In c path ->
          in_box start_ end_ c /\ on_legs coin start_ end_ c)
    /\ forall i u v, path !! i = Some u -> path !! S i = Some v -> beside u v.
Proof.
  eexists _, _, _. split; [apply tunnel_between_Ok|].
  set (coin := _ <? _).
  destruct (tunnel_cells_shape coin start_ end_) as (Hs & Hl & Hc & Hb).
  split; [exact Hl|]. split; [exact Hc|]. split.
  - intros c Hin. eapply Forall_forall in Hb; [exact Hb|].
    apply list_elem_of_In. exact Hin.
  - revert Hs. generalize (tunnel_cells coin start_ end_). clear.
    intros p. induction p as [|c p IH]; intros Hc i a b Ha Hb; [discriminate|].
    destruct Hc as [Hh Hc]. destruct i as [|i]; simpl in *.
    + inversion Ha; subst. rewrite head_lookup, Hb in Hh. exact Hh.
    + eapply IH; eauto.
Qed.

(** ** Walking over floor *)

Lemma walk_end ok a b : walk ok a b -> ok a /\ ok b.
Proof. induction 1; tauto. Qed.

Lemma walk_trans ok a b c : walk ok a b -> walk ok b c -> walk ok a c.
Proof.
  induction 1 as [a Ha | a b' c' Ha Hb Hw IH]; intros H; [exact H|].
  eapply walk_on; eauto.
Qed.

Lemma walk_along ok p : forall a,
  stepwise (a :: p) -> Forall ok (a :: p) ->
  forall c, In c (a :: p) -> walk ok a c.
Proof.
  induction p as [|b p IH]; intros a Hs Hok c Hc.
  - destruct Hc as [<-|[]]. apply walk_here. inversion Hok; assumption.
  - destruct Hs as [Hab Hs]. simpl in Hab.
    inversion Hok as [|? ? Ha Hok']; subst.
    destruct Hc as [<-|Hc]; [apply walk_here; exact Ha|].
    eapply walk_on; [exact Ha | exact Hab |]. apply IH; assumption.
Qed.

Lemma walk_row ok y n : forall xa xb,
  Z.abs (xb - xa) = Z.of_nat n ->
  (forall x, within xa xb x -> ok (x, y)) ->
  walk ok (xa, y) (xb, y).
Proof.
  induction n as [|n IH]; intros xa xb Hn Hok.
  - assert (xb = xa) by lia. subst. apply walk_here. apply Hok.
    unfold within. lia.
  - set (xa' := if xa <? xb then xa + 1 else xa - 1).
    assert (Hxa' : Z.abs (xb - xa') = Z.of_nat n /\ within xa xb xa'
                   /\ Z.abs (xa - xa') = 1).
    { unfold xa', within. destruct (Z.ltb_spec xa xb); lia. }
    destruct Hxa' as (Hn' & Hw & H1).
    eapply (walk_on ok (xa, y) (xa', y)).
    + apply Hok. unfold within. lia.
    + unfold beside; simpl. lia.
    + apply IH; [exact Hn'|]. intros x Hx. apply Hok. unfold within in *. lia.
Qed.

Lemma walk_column ok x n : forall ya yb,
  Z.abs (yb - ya) = Z.of_nat n ->
  (forall y, within ya yb y -> ok (x, y)) ->
  walk ok (x, ya) (x, yb).
Proof.
  induction n as [|n IH]; intros ya yb Hn Hok.
  - assert (yb = ya) by lia. subst. apply walk_here. apply Hok.
    unfold within. lia.
  - set (ya' := if ya <? yb then ya + 1 else ya - 1).
    assert (Hya' : Z.abs (yb - ya') = Z.of_nat n /\ within ya yb ya'
                   /\ Z.abs (ya - ya') = 1).
    { unfold ya', within. destruct (Z.ltb_spec ya yb); lia. }
    destruct Hya' as (Hn' & Hw & H1).
    eapply (walk_on ok (x, ya) (x, ya')).
    + apply Hok. unfold within. lia.
    + unfold beside; simpl. lia.
    + apply IH; [exact Hn'|]. intros y Hy. apply Hok. unfold within in *. lia.
Qed.

(** Inside the interior of a room every cell is reached from every
    other. *)
Lemma walk_room ok r a b :
  (forall c, in_inner r c = true -> ok c) ->
  in_inner r a = true -> in_inner r b = true -> walk ok a b.
Proof.
  intros Hok Ha Hb. destruct a as [xa ya], b as [xb yb].
  pose proof (proj1 (in_inner_spec _ _) Ha) as Ia.
  pose proof (proj1 (in_inner_spec _ _) Hb) as Ib. simpl in Ia, Ib.
  apply (walk_trans ok _ (xb, ya)).
  - apply (walk_row ok ya (Z.to_nat (Z.abs (xb - xa)))); [lia|].
    intros x Hx. apply Hok, in_inner_spec. unfold within in Hx. simpl. lia.
  - apply (walk_column ok xb (Z.to_nat (Z.abs (yb - ya)))); [lia|].
    intros y Hy. apply Hok, in_inner_spec. unfold within in Hy. simpl. lia.
Qed.

(** ** The map as a whole *)

Lemma floor_not_wall : floor <> wall.
Proof. discriminate. Qed.

(** With rooms at least two tiles wide and high on a map of at most 2^52
    columns and rows, the center of a drawn room lies in its interior, off
    the outer ring of the map. *)
Lemma drawn_center_inside mn mx w h r :
  2 <= mn -> w <= 2 ^ 52 -> h <= 2 ^ 52 ->
  drawn_on mn mx w h r ->
  exists c, center r = Ok c /\ in_inner r c = true /\ off_border w h c.
Proof.
  intros Hmn Hw Hh Hd.
  destruct (drawn_on_fits _ _ _ _ _ Hd) as ((Hx1 & Hx2 & Hy1 & Hy2) & Hsx & Hsy).
  rewrite pow2_52 in Hw, Hh.
  destruct (center_in_inner r) as (c & Hc & Hin); try rewrite pow2_53; try lia.
  exists c. split; [exact Hc|]. split; [exact Hin|].
  apply in_inner_spec in Hin. unfold off_border. lia.
Qed.

Section FinalState.

Variables (n mn mx w h mm : Z) (engine : Engine) (g g' : Rng) (st : GenState).
Hypothesis Hmn : 2 <= mn.
Hypothesis Hw : w <= 2 ^ 52.
Hypothesis Hh : h <= 2 ^ 52.
Hypothesis Hrun : generate_dungeon_state n mn mx w h mm engine g = Ok (st, g').

Lemma final_room_center i r :
  rooms st !! i = Some r ->
  exists c, center r = Ok c /\ in_inner r c = true /\ off_border w h c.
Proof.
  intros Hr.
  pose proof (run_layout _ _ _ _ _ _ _ _ _ _ Hrun) as (_ & _ & _ & Hfit & _).
  apply (drawn_center_inside mn mx); try assumption.
  eapply Forall_forall in Hfit; [exact Hfit|].
  eapply list_elem_of_lookup_2; exact Hr.
Qed.

Lemma final_corridor i p :
  corridors st !! i = Some p ->
  exists a b ca cb coin,
    rooms st !! i = Some a /\ rooms st !! S i = Some b
    /\ center a = Ok ca /\ center b = Ok cb
    /\ p = tunnel_cells coin ca cb.
Proof.
  intros Hp.
  pose proof (run_layout _ _ _ _ _ _ _ _ _ _ Hrun) as (_ & _ & _ & _ & _ & Hlen & _).
  pose proof (run_chained _ _ _ _ _ _ _ _ _ _ Hrun) as Hch.
  pose proof (lookup_lt_Some _ _ _ Hp) as Hi.
  destruct (lookup_lt_is_Some_2 (rooms st) i) as [a Ha]; [lia|].
  destruct (lookup_lt_is_Some_2 (rooms st) (S i)) as [b Hb]; [lia|].
  destruct (Hch i a b Ha Hb) as (ca & cb & coin & Hca & Hcb & Hp').
  exists a, b, ca, cb, coin. repeat split; try assumption. congruence.
Qed.

Lemma final_carved_off_border c :
  carved st c = true -> off_border w h c.
Proof.
  intros Hc. apply carved_spec in Hc as [(r & Hr & Hin)|(p & Hp & Hcp)].
  - pose proof (run_layout _ _ _ _ _ _ _ _ _ _ Hrun) as (_ & _ & _ & Hfit & _).
    eapply Forall_forall in Hfit; [|apply list_elem_of_In; exact Hr].
    destruct (drawn_on_fits _ _ _ _ _ Hfit) as ((Hx1 & Hx2 & Hy1 & Hy2) & _).
    apply in_inner_spec in Hin. unfold off_border. lia.
  - apply list_elem_of_In, list_elem_of_lookup_1 in Hp as [i Hi].
    destruct (final_corridor i p Hi) as (a & b & ca & cb & coin & Ha & Hb & Hca & Hcb & ->).
    destruct (final_room_center i a Ha) as (ca' & Hca' & _ & Oa).
    destruct (final_room_center (S i) b Hb) as (cb' & Hcb' & _ & Ob).
    assert (ca' = ca) by congruence. assert (cb' = cb) by congruence. subst.
    destruct (tunnel_cells_path coin ca cb) as (_ & _ & _ & Hbox).
    eapply Forall_forall in Hbox; [|apply list_elem_of_In; exact Hcp].
    unfold off_border, in_box, within in *. lia.
Qed.

Lemma final_floor c :
  carved st c = true -> is_floor (dungeon st) c.
Proof.
  intros Hc.
  pose proof (run_tiles n mn mx w h mm engine g st g' ltac:(lia) Hrun) as (_ & _ & Hget & Hin).
  unfold is_floor. rewrite (Hget c (Hin c Hc)), Hc. reflexivity.
Qed.

Lemma final_floor_carved c :
  cell_in w h c -> is_floor (dungeon st) c -> carved st c = true.
Proof.
  intros Hin Hf.
  pose proof (run_tiles n mn mx w h mm engine g st g' ltac:(lia) Hrun) as (_ & _ & Hget & _).
  unfold is_floor in Hf. rewrite (Hget c Hin) in Hf.
  destruct (carved st c); [reflexivity|]. inversion Hf.
Qed.

(** The center of every accepted room is reached from the center of the
    first through floor. *)
Lemma final_centers_linked r0 c0 :
  rooms st !! 0%nat = Some r0 -> center r0 = Ok c0 ->
  forall i r, rooms st !! i = Some r ->
    exists c, center r = Ok c /\ walk (is_floor (dungeon st)) c0 c.
Proof.
  intros H0 Hc0 i. induction i as [|i IH]; intros r Hr.
  - assert (r = r0) by congruence. subst r. exists c0. split; [exact Hc0|].
    apply walk_here, final_floor.
    destruct (final_room_center 0 r0 H0) as (c & Hc & Hin & _).
    assert (c = c0) by congruence. subst c.
    eapply carved_room; [|exact Hin]. apply list_elem_of_In.
    eapply list_elem_of_lookup_2; exact H0.
  - pose proof (lookup_lt_Some _ _ _ Hr) as Hlt.
    destruct (lookup_lt_is_Some_2 (rooms st) i) as [a Ha]; [lia|].
    destruct (IH a Ha) as (ca & Hca & Hwa).
    pose proof (run_chained _ _ _ _ _ _ _ _ _ _ Hrun) as Hch.
    destruct (Hch i a r Ha Hr) as (ca' & cb & coin & Hca' & Hcb & Hp).
    assert (ca' = ca) by congruence. subst ca'.
    exists cb. split; [exact Hcb|]. eapply walk_trans; [exact Hwa|].
    destruct (tunnel_cells_path coin ca cb) as (Hh' & Hl' & _ & _).
    destruct (tunnel_cells_shape coin ca cb) as (Hs & _).
    assert (Hall : Forall (is_floor (dungeon st)) (tunnel_cells coin ca cb)).
    { apply Forall_forall. intros c Hc. apply final_floor.
      eapply carved_path; [|apply list_elem_of_In; exact Hc].
      apply list_elem_of_In. eapply list_elem_of_lookup_2; exact Hp. }
    destruct (tunnel_cells coin ca cb) as [|c1 p] eqn:E; [discriminate|].
    simpl in Hh'. inversion Hh'; subst c1.
    apply (walk_along _ p ca Hs Hall).
    apply list_elem_of_In. eapply last_Some_elem_of. exact Hl'.
Qed.

Lemma final_reachable r0 c0 c :
  rooms st !! 0%nat = Some r0 -> center r0 = Ok c0 ->
  carved st c = true -> walk (is_floor (dungeon st)) c0 c.
Proof.
  intros H0 Hc0 Hc. apply carved_spec in Hc as [(r & Hr & Hin)|(p & Hp & Hcp)].
  - apply list_elem_of_In, list_elem_of_lookup_1 in Hr as [i Hi].
    destruct (final_centers_linked r0 c0 H0 Hc0 i r Hi) as (ci & Hci & Hwi).
    eapply walk_trans; [exact Hwi|].
    destruct (final_room_center i r Hi) as (ci' & Hci' & Hini & _).
    assert (ci' = ci) by congruence. subst ci'.
    apply (walk_room _ r); [|exact Hini | exact Hin].
    intros c' Hc'. apply final_floor. eapply carved_room; [|exact Hc'].
    apply list_elem_of_In. eapply list_elem_of_lookup_2; exact Hi.
  - pose proof Hp as Hp0.
    apply list_elem_of_In, list_elem_of_lookup_1 in Hp as [i Hi].
    destruct (final_corridor i p Hi) as (a & b & ca & cb & coin & Ha & Hb & Hca & Hcb & ->).
    destruct (final_centers_linked r0 c0 H0 Hc0 i a Ha) as (ca' & Hca' & Hwa).
    assert (ca' = ca) by congruence. subst ca'.
    eapply walk_trans; [exact Hwa|].
    destruct (tunnel_cells_path coin ca cb) as (Hh' & _ & _ & _).
    destruct (tunnel_cells_shape coin ca cb) as (Hs & _).
    assert (Hall : Forall (is_floor (dungeon st)) (tunnel_cells coin ca cb)).
    { apply Forall_forall. intros c' Hc'. apply final_floor.
      eapply carved_path; [exact Hp0 | apply list_elem_of_In; exact Hc']. }
    destruct (tunnel_cells coin ca cb) as [|c1 p] eqn:E; [discriminate|].
    simpl in Hh'. inversion Hh'; subst c1.
    apply (walk_along _ p ca Hs Hall). exact Hcp.
Qed.

End FinalState.

(** X18.  With rooms at least two tiles wide and high, on a map of at most
    2^52 columns and rows, the outer ring of the returned map is never
    carved: every cell of the first and last column and row holds wall. *)
Theorem map_border_stays_wall
    (max_rooms room_min_size room_max_size map_width map_height
     max_monsters_per_room : Z) (engine : Engine) (g : Rng)
    (d : GameMap) (g' : Rng) :
  2 <= room_min_size -> map_width <= 2 ^ 52 -> map_height <= 2 ^ 52 ->
  generate_dungeon max_rooms room_min_size room_max_size map_width map_height
    max_monsters_per_room engine g = Ok (d, g') ->
  forall c,
    in_grid d c ->
    fst c = 0 \/ fst c = map_width - 1 \/ snd c = 0 \/ snd c = map_height - 1 ->
    getitem (fst c) (snd c) (tiles d) = Ok wall.
Proof.
  intros Hmn Hw Hh H. apply generate_dungeon_Ok in H as (st & Hst & <-).
  pose proof (run_tiles max_rooms room_min_size room_max_size map_width map_height
                max_monsters_per_room engine g st g' ltac:(lia) Hst) as (Ew & Eh & Hget & _).
  intros c Hc Hb. unfold in_grid in Hc. rewrite Ew, Eh in Hc.
  rewrite (Hget c Hc).
  destruct (carved st c) eqn:E; [|reflexivity].
  apply (final_carved_off_border max_rooms room_min_size room_max_size
           map_width map_height max_monsters_per_room engine g g' st
           Hmn Hw Hh Hst) in E.
  unfold off_border in E. lia.
Qed.

(** X19.  With rooms at least two tiles wide and high, on a map of at most
    2^52 columns and rows, the returned dungeon is connected: every floor
    cell of the grid is reached from the player's cell through floor
    cells, each one step along one axis from the one before. *)
Theorem floor_reachable_from_player
    (max_rooms room_min_size room_max_size map_width map_height
     max_monsters_per_room : Z) (engine : Engine) (g : Rng)
    (d : GameMap) (g' : Rng) :
  2 <= room_min_size -> map_width <= 2 ^ 52 -> map_height <= 2 ^ 52 ->
  generate_dungeon max_rooms room_min_size room_max_size map_width map_height
    max_monsters_per_room engine g = Ok (d, g') ->
  forall p c,
    head (entities d) = Some p ->
    in_grid d c -> is_floor d c ->
    walk (is_floor d) (position p) c.
Proof.
  intros Hmn Hw Hh H. apply generate_dungeon_Ok in H as (st & Hst & <-).
  pose proof (run_layout _ _ _ _ _ _ _ _ _ _ Hst)
    as (Ew & Eh & _ & _ & _ & Hlen & Hpl).
  intros p c Hp Hc Hf. unfold in_grid in Hc. rewrite Ew, Eh in Hc.
  assert (Hcv : carved st c = true).
  { eapply final_floor_carved; eauto. }
  destruct (rooms st) as [|r0 rest] eqn:Er.
  - exfalso. unfold carved in Hcv. rewrite Er in Hcv. simpl in Hlen, Hcv.
    destruct (corridors st); [discriminate | simpl in Hlen; lia].
  - simpl in Hpl. destruct Hpl as (c0 & Hc0 & Hhead).
    rewrite Hhead in Hp. inversion Hp; subst p. unfold position, move_to; simpl.
    replace (fst c0, snd c0) with c0 by (destruct c0; reflexivity).
    apply (final_reachable max_rooms room_min_size room_max_size
             map_width map_height max_monsters_per_room engine g g' st
             Hmn Hw Hh Hst r0 c0 c); auto.
    rewrite Er. reflexivity.
Qed.

(** X20.  Whatever the number of attempts, [generate_dungeon] returns a map
    and raises nothing when [2 <= room_min_size <= room_max_size], the map
    is wider and higher than [room_max_size] (and at most 2^52 each way)
    and [max_monsters_per_room >= 0]. *)
Theorem generation_returns_within_contract
    (max_rooms room_min_size room_max_size map_width map_height
     max_monsters_per_room : Z) (engine : Engine) (g : Rng) :
  2 <= room_min_size <= room_max_size ->
  room_max_size < map_width <= 2 ^ 52 ->
  room_max_size < map_height <= 2 ^ 52 ->
  0 <= max_monsters_per_room ->
  exists d g',
    generate_dungeon max_rooms room_min_size room_max_size map_width map_height
      max_monsters_per_room engine g = Ok (d, g').
Proof.
  intros Hmn Hw Hh Hmm.
  destruct (generate_dungeon_state_total max_rooms room_min_size room_max_size
              map_width map_height max_monsters_per_room engine g
              Hmn Hw Hh Hmm) as (st & g' & E).
  exists (dungeon st), g'. unfold generate_dungeon.
  erewrite bind_Ok_intro by exact E. reflexivity.
Qed.

(** X21.  With room sizes not negative, on a map of at most 2^52 columns and
    rows, the only exception [generate_dungeon] raises is [ValueError]: no
    write leaves the array and no center overflows. *)
Theorem generation_raises_only_ValueError
    (max_rooms room_min_size room_max_size map_width map_height
     max_monsters_per_room : Z) (engine : Engine) (g : Rng) (e : PyError) :
  0 <= room_min_size -> map_width <= 2 ^ 52 -> map_height <= 2 ^ 52 ->
  generate_dungeon max_rooms room_min_size room_max_size map_width map_height
    max_monsters_per_room engine g = Raise e ->
  e = ValueError.
Proof.
  intros Hmn Hw Hh H.
  exact (raises_only_generate_dungeon max_rooms room_min_size room_max_size
           map_width map_height max_monsters_per_room engine Hmn Hw Hh g e H).
Qed.

(** ** The further properties on concrete inputs *)

Lemma intersects_iff_boxes_meet_demo :
  let a := new_RectangularRoom 0 0 3 3 in
  let b := new_RectangularRoom 3 3 2 2 in
  x1 a <= x2 a /\ y1 a <= y2 a /\ x1 b <= x2 b /\ y1 b <= y2 b
  /\ (intersects a b = true <-> exists c, in_bounds a c /\ in_bounds b c).
Proof.
  intros a b. repeat split; try (simpl; lia);
    apply (intersects_iff_boxes_meet a b); simpl; lia.
Defined.


Lemma center_truncates_demo :
  let r := new_RectangularRoom (-3) 0 3 1 in
  Z.abs (x1 r + x2 r) <= 2 ^ 53 /\ Z.abs (y1 r + y2 r) <= 2 ^ 53
  /\ center r = Ok (-1, 0)
  /\ (x1 r <= x2 r -> x1 r <= Z.quot (x1 r + x2 r) 2 <= x2 r)
  /\ (y1 r <= y2 r -> y1 r <= Z.quot (y1 r + y2 r) 2 <= y2 r).
Proof.
  intros r.
  assert (Hx : Z.abs (x1 r + x2 r) <= 2 ^ 53) by (vm_compute; discriminate).
  assert (Hy : Z.abs (y1 r + y2 r) <= 2 ^ 53) by (vm_compute; discriminate).
  split; [exact Hx|]. split; [exact Hy|].
  exact (center_truncates r Hx Hy).
Defined.

Lemma room_without_interior_demo :
  let room := new_RectangularRoom 4 4 1 1 in
  (x2 room <= x1 room + 1 \/ y2 room <= y1 room + 1)
  /\ (forall c, in_inner room c = false)
  /\ forall dungeon maximum_monsters g,
       match place_entities room dungeon maximum_monsters g with
       | Ok (dungeon', _) => dungeon' = dungeon
       | Raise e => e = ValueError
       end.
Proof.
  intros room.
  assert (H : x2 room <= x1 room + 1 \/ y2 room <= y1 room + 1) by (simpl; lia).
  split; [exact H|]. exact (room_without_interior room H).
Defined.

Lemma place_entities_without_monsters_demo :
  place_entities (new_RectangularRoom 0 0 3 3) empty_map 0 demo_stream
  = Ok (empty_map, snd (rng_next demo_stream))
  /\ place_entities (new_RectangularRoom 0 0 3 3) empty_map (-1) demo_stream
     = Raise ValueError.
Proof.
  split.
  - apply (proj1 (place_entities_without_monsters
                    (new_RectangularRoom 0 0 3 3) empty_map 0 demo_stream)).
    reflexivity.
  - apply (proj2 (place_entities_without_monsters
                    (new_RectangularRoom 0 0 3 3) empty_map (-1) demo_stream)).
    lia.
Defined.

(** One monster drawn for the room (0,0)-(3,3): an orc at (1, 2). *)
Lemma demo_placement :
  place_entities (new_RectangularRoom 0 0 3 3) empty_map 1 (stream_of [1; 0; 1; 0])
  = Ok (spawn orc empty_map 1 2, fun n => stream_of [1; 0; 1; 0] (4 + n)%nat).
Proof. vm_compute. reflexivity. Qed.

Lemma place_entities_adds_monsters_demo :
  place_entities (new_RectangularRoom 0 0 3 3) empty_map 1 (stream_of [1; 0; 1; 0])
  = Ok (spawn orc empty_map 1 2, fun n => stream_of [1; 0; 1; 0] (4 + n)%nat)
  /\ width (spawn orc empty_map 1 2) = width empty_map
  /\ height (spawn orc empty_map 1 2) = height empty_map
  /\ tiles (spawn orc empty_map 1 2) = tiles empty_map
  /\ exists added,
       entities (spawn orc empty_map 1 2) = entities empty_map ++ added
       /\ Z.of_nat (length added) <= 1
       /\ Forall is_monster added.
Proof.
  split; [exact demo_placement|].
  apply (place_entities_adds_monsters (new_RectangularRoom 0 0 3 3) empty_map 1
           (stream_of [1; 0; 1; 0]) (spawn orc empty_map 1 2)
           (fun n => stream_of [1; 0; 1; 0] (4 + n)%nat)).
  vm_compute. reflexivity.
Defined.

(** Three trials in the room (0,0)-(3,3) of the map of the single attempt,
    where the player stands on (1, 1): the first draws the player's cell
    and is given up, the second spawns an orc on (2, 2), the third draws
    (2, 2) again and is given up. *)
Lemma place_entities_keeps_cells_distinct_demo :
  let room := new_RectangularRoom 0 0 3 3 in
  let draws := stream_of [3; 0; 0; 1; 1; 0; 1; 1] in
  distinct_cells (entities demo_single_map)
  /\ occupied demo_single_map 1 1 = true
  /\ occupied (spawn orc demo_single_map 2 2) 2 2 = true
  /\ randint 0 3 draws = Ok (3, snd (rng_next draws))
  /\ place_entities room demo_single_map 3 draws
     = Ok (spawn orc demo_single_map 2 2, fun n => draws (8 + n)%nat)
  /\ entities (spawn orc demo_single_map 2 2)
     = [mkEntity Player 1 1; mkEntity Orc 2 2]
  /\ distinct_cells (entities (spawn orc demo_single_map 2 2)).
Proof.
  intros room draws.
  assert (H : distinct_cells (entities demo_single_map)).
  { intros [|i] [|j] e1 e2 Hij H1 H2; simpl in H1, H2;
      try discriminate; congruence. }
  assert (E : place_entities room demo_single_map 3 draws
              = Ok (spawn orc demo_single_map 2 2, fun n => draws (8 + n)%nat))
    by (vm_compute; reflexivity).
  split; [exact H|]. split; [reflexivity|]. split; [reflexivity|].
  split; [reflexivity|]. split; [exact E|]. split; [reflexivity|].
  exact (place_entities_keeps_cells_distinct room demo_single_map 3 draws
           (spawn orc demo_single_map 2 2) (fun n => draws (8 + n)%nat) H E).
Defined.

Lemma room_count_within_budget_demo :
  1 <= 2
  /\ generate_dungeon 2 3 3 12 8 1 engine0 demo_stream = Ok (demo_map, demo_rest)
  /\ exists st,
       generate_dungeon_state 2 3 3 12 8 1 engine0 demo_stream = Ok (st, demo_rest)
       /\ dungeon st = demo_map
       /\ 1 <= Z.of_nat (length (rooms st)) <= 2
       /\ Z.of_nat (length (corridors st)) = Z.of_nat (length (rooms st)) - 1.
Proof.
  split; [lia|]. split; [exact demo_run|].
  apply (room_count_within_budget 2 3 3 12 8 1 engine0 demo_stream demo_map demo_rest).
  - lia.
  - vm_compute. reflexivity.
Defined.

Lemma no_attempt_no_room_demo :
  0 <= 0 /\ 0 <= 12 /\ 0 <= 8
  /\ exists d,
       generate_dungeon 0 3 3 12 8 1 engine0 demo_stream = Ok (d, demo_stream)
       /\ width d = 12 /\ height d = 8
       /\ entities d = [player engine0]
       /\ forall c, in_grid d c -> getitem (fst c) (snd c) (tiles d) = Ok wall.
Proof.
  split; [lia|]. split; [lia|]. split; [lia|].
  apply (no_attempt_no_room 0 3 3 12 8 1 engine0 demo_stream); lia.
Defined.

Lemma player_placed_in_first_room_demo :
  1 <= 2
  /\ generate_dungeon 2 3 3 12 8 1 engine0 demo_stream = Ok (demo_map, demo_rest)
  /\ exists st first c,
       generate_dungeon_state 2 3 3 12 8 1 engine0 demo_stream = Ok (st, demo_rest)
       /\ dungeon st = demo_map
       /\ head (rooms st) = Some first
       /\ center first = Ok c
       /\ head (entities demo_map)
          = Some (move_to (fst c) (snd c) (player engine0)).
Proof.
  split; [lia|]. split; [exact demo_run|].
  apply (player_placed_in_first_room 2 3 3 12 8 1 engine0 demo_stream demo_map demo_rest).
  - lia.
  - vm_compute. reflexivity.
Defined.

Lemma entities_on_distinct_cells_demo :
  generate_dungeon 2 3 3 12 8 1 engine0 demo_stream = Ok (demo_map, demo_rest)
  /\ forall i j e1 e2,
       i <> j -> entities demo_map !! i = Some e1 -> entities demo_map !! j = Some e2 ->
       (ent_x e1, ent_y e1) <> (ent_x e2, ent_y e2).
Proof.
  split; [exact demo_run|].
  apply (entities_on_distinct_cells 2 3 3 12 8 1 engine0 demo_stream demo_map demo_rest).
  vm_compute. reflexivity.
Defined.

Lemma monsters_stand_on_room_floor_demo :
  0 <= 3
  /\ generate_dungeon 2 3 3 12 8 1 engine0 demo_stream = Ok (demo_map, demo_rest)
  /\ exists st,
       generate_dungeon_state 2 3 3 12 8 1 engine0 demo_stream = Ok (st, demo_rest)
       /\ dungeon st = demo_map
       /\ forall i e,
            entities demo_map !! S i = Some e ->
            is_monster e
            /\ (exists room, In room (rooms st) /\ in_inner room (position e) = true)
            /\ getitem (ent_x e) (ent_y e) (tiles demo_map) = Ok floor.
Proof.
  split; [lia|]. split; [exact demo_run|].
  apply (monsters_stand_on_room_floor 2 3 3 12 8 1 engine0 demo_stream demo_map demo_rest).
  - lia.
  - vm_compute. reflexivity.
Defined.

Lemma monster_count_bounded_demo :
  0 <= 2 /\ 0 <= 1
  /\ generate_dungeon 2 3 3 12 8 1 engine0 demo_stream = Ok (demo_map, demo_rest)
  /\ 1 <= Z.of_nat (length (entities demo_map)) <= 1 + 2 * 1.
Proof.
  split; [lia|]. split; [lia|]. split; [exact demo_run|].
  apply (monster_count_bounded 2 3 3 12 8 1 engine0 demo_stream demo_map demo_rest).
  - lia.
  - lia.
  - vm_compute. reflexivity.
Defined.

Lemma tunnels_chain_rooms_demo :
  0 <= 3
  /\ generate_dungeon 2 3 3 12 8 1 engine0 demo_stream = Ok (demo_map, demo_rest)
  /\ exists st,
       generate_dungeon_state 2 3 3 12 8 1 engine0 demo_stream = Ok (st, demo_rest)
       /\ dungeon st = demo_map
       /\ forall i a b,
            rooms st !! i = Some a -> rooms st !! S i = Some b ->
            exists ca cb path,
              center a = Ok ca /\ center b = Ok cb
              /\ corridors st !! i = Some path
              /\ path_from_to ca cb path
              /\ forall c, In c path ->
                   getitem (fst c) (snd c) (tiles demo_map) = Ok floor.
Proof.
  split; [lia|]. split; [exact demo_run|].
  apply (tunnels_chain_rooms 2 3 3 12 8 1 engine0 demo_stream demo_map demo_rest).
  - lia.
  - vm_compute. reflexivity.
Defined.

Lemma walkable_iff_carved_demo :
  0 <= 3
  /\ generate_dungeon 2 3 3 12 8 1 engine0 demo_stream = Ok (demo_map, demo_rest)
  /\ exists st,
       generate_dungeon_state 2 3 3 12 8 1 engine0 demo_stream = Ok (st, demo_rest)
       /\ dungeon st = demo_map
       /\ forall c, in_grid demo_map c ->
            exists t,
              getitem (fst c) (snd c) (tiles demo_map) = Ok t
              /\ (t = floor \/ t = wall)
              /\ (walkable t = true <->
                  (exists room, In room (rooms st) /\ in_inner room c = true)
                  \/ (exists path, In path (corridors st) /\ In c path))
              /\ transparent t = walkable t.
Proof.
  split; [lia|]. split; [exact demo_run|].
  apply (walkable_iff_carved 2 3 3 12 8 1 engine0 demo_stream demo_map demo_rest).
  - lia.
  - vm_compute. reflexivity.
Defined.

Lemma map_border_stays_wall_demo :
  2 <= 3 /\ 12 <= 2 ^ 52 /\ 8 <= 2 ^ 52
  /\ generate_dungeon 2 3 3 12 8 1 engine0 demo_stream = Ok (demo_map, demo_rest)
  /\ forall c,
       in_grid demo_map c ->
       fst c = 0 \/ fst c = 12 - 1 \/ snd c = 0 \/ snd c = 8 - 1 ->
       getitem (fst c) (snd c) (tiles demo_map) = Ok wall.
Proof.
  split; [lia|]. split; [rewrite pow2_52; lia|]. split; [rewrite pow2_52; lia|].
  split; [exact demo_run|].
  apply (map_border_stays_wall 2 3 3 12 8 1 engine0 demo_stream demo_map demo_rest).
  - lia.
  - rewrite pow2_52; lia.
  - rewrite pow2_52; lia.
  - vm_compute. reflexivity.
Defined.

Lemma floor_reachable_from_player_demo :
  2 <= 3 /\ 12 <= 2 ^ 52 /\ 8 <= 2 ^ 52
  /\ generate_dungeon 2 3 3 12 8 1 engine0 demo_stream = Ok (demo_map, demo_rest)
  /\ forall p c,
       head (entities demo_map) = Some p ->
       in_grid demo_map c -> is_floor demo_map c ->
       walk (is_floor demo_map) (position p) c.
Proof.
  split; [lia|]. split; [rewrite pow2_52; lia|]. split; [rewrite pow2_52; lia|].
  split; [exact demo_run|].
  apply (floor_reachable_from_player 2 3 3 12 8 1 engine0 demo_stream demo_map demo_rest).
  - lia.
  - rewrite pow2_52; lia.
  - rewrite pow2_52; lia.
  - vm_compute. reflexivity.
Defined.

Lemma generation_returns_within_contract_demo :
  2 <= 3 <= 3 /\ 3 < 12 <= 2 ^ 52 /\ 3 < 8 <= 2 ^ 52 /\ 0 <= 1
  /\ exists d g',
       generate_dungeon 2 3 3 12 8 1 engine0 demo_stream = Ok (d, g').
Proof.
  split; [lia|]. split; [rewrite pow2_52; lia|]. split; [rewrite pow2_52; lia|].
  split; [lia|].
  apply (generation_returns_within_contract 2 3 3 12 8 1 engine0 demo_stream);
    rewrite ?pow2_52; lia.
Defined.

Lemma generation_raises_only_ValueError_demo :
  0 <= 5 /\ 10 <= 2 ^ 52 /\ 10 <= 2 ^ 52
  /\ generate_dungeon 1 5 3 10 10 0 engine0 demo_stream = Raise ValueError
  /\ ValueError = ValueError.
Proof.
  split; [lia|]. split; [rewrite pow2_52; lia|]. split; [rewrite pow2_52; lia|].
  split; [vm_compute; reflexivity|].
  apply (generation_raises_only_ValueError 1 5 3 10 10 0 engine0 demo_stream ValueError).
  - lia.
  - rewrite pow2_52; lia.
  - rewrite pow2_52; lia.
  - vm_compute. reflexivity.
Defined.
